(** * p4fpga: the LLVM program model (llvmProgram.py) and the JSON helpers
      (p4c/utils.py), embedded in Rocq.

    Python objects that are shared by reference (control-flow nodes) live in a
    store indexed by their identity; Python's [None] is [None] of [option];
    a raised exception is the [Raise] outcome of [result]. *)

From Stdlib Require Import ZArith Ascii String Decimal DecimalNat DecimalString.
From stdpp Require Import gmap strings list fin_maps fin_sets.

Local Open Scope string_scope.
Local Open Scope list_scope.

(** ** Exceptions and outcomes *)

Inductive exn : Type :=
  | NotSupportedException (fmt : string) (arg : string)
  | CompilationException (isBug : bool) (fmt : string) (arg : string)
  | AttributeError (attr : string)
  | IndexError
  | KeyError (key : string)
  | NameError (var : string)
  | TypeError (msg : string).

Inductive result (A : Type) : Type :=
  | Ok (a : A)
  | Raise (e : exn).
Arguments Ok {A} a.
Arguments Raise {A} e.

(** ** Python's [str] on a non-negative int *)

Definition str (n : nat) : string := NilZero.string_of_uint (Nat.to_uint n).

Fixpoint has_char (c : ascii) (s : string) : bool :=
  match s with
  | EmptyString => false
  | String x s' => if Ascii.eqb x c then true else has_char c s'
  end.

(** ** The HLIR input (package p4_hlir), as far as llvmProgram.py reads it *)

(** Identity of a control-flow node object. *)
Definition addr : Type := positive.

Module p4_hlir.

Inductive p4_class : Type := p4_parse_state | p4_table | p4_conditional_node.

(** A node object: its [name], its class, and its [next_] dictionary (in
    insertion order; only [next_.values()] is read). *)
Record p4_node : Type := {
  name : string;
  class : p4_class;
  next_ : list (string * option addr)
}.

Record p4_header_instance : Type := {
  hi_name : string;
  base_name : string;
  max_index : option Z;
  index : option Z;
  metadata : bool
}.

Record p4_field_list_calculation : Type := { flc_name : string }.

(** The HLIR object: its ordered dictionaries and the store of its node
    objects. *)
Record HLIR : Type := {
  p4_field_list_calculations : list (string * p4_field_list_calculation);
  p4_header_instances : list (string * p4_header_instance);
  p4_parse_states : list (string * addr);
  p4_ingress_ptr : list (option addr * list addr);
  p4_conditional_nodes : list (string * addr);
  p4_egress_ptr : option addr;
  p4_nodes : gmap addr p4_node
}.

Definition isinstance_p4_parse_state (n : p4_node) : bool :=
  match class n with p4_parse_state => true | _ => false end.

End p4_hlir.

(** [d.values()], [d.keys()] of an ordered dictionary. *)
Definition values {K V} (d : list (K * V)) : list V := map snd d.
Definition keys {K V} (d : list (K * V)) : list K := map fst d.

(** ** The wrappers built by [construct] *)

Inductive LLVMTypeFactory : Type := Build_LLVMTypeFactory.

(** Modelled from the spec: the modules llvmInstance, llvmParser and
    llvmDeparser, which llvmProgram.py imports, are not part of the sources
    at hand.  Each wrapper keeps the HLIR object it wraps (and, for a stack,
    its index variable) and is addressable by name; construction of a
    wrapper has no other effect on the program.  The elements of
    [conditionals], [tables], [actions] and [counters] are records with the
    name that the lookups read. *)
Module llvmInstance.

Record LLVMHeader : Type := {
  hdr_name : string;
  hdr_hlirInstance : p4_hlir.p4_header_instance;
  hdr_factory : LLVMTypeFactory
}.

Record LLVMMetadata : Type := {
  md_name : string;
  md_hlirInstance : p4_hlir.p4_header_instance;
  md_factory : LLVMTypeFactory
}.

Record LLVMHeaderStack : Type := {
  stk_name : string;
  stk_hlirInstance : p4_hlir.p4_header_instance;
  stk_indexVar : string;
  stk_factory : LLVMTypeFactory
}.

Definition new_LLVMHeader (h : p4_hlir.p4_header_instance)
    (f : LLVMTypeFactory) : LLVMHeader :=
  {| hdr_name := p4_hlir.base_name h; hdr_hlirInstance := h; hdr_factory := f |}.

Definition new_LLVMMetadata (h : p4_hlir.p4_header_instance)
    (f : LLVMTypeFactory) : LLVMMetadata :=
  {| md_name := p4_hlir.base_name h; md_hlirInstance := h; md_factory := f |}.

Definition new_LLVMHeaderStack (h : p4_hlir.p4_header_instance)
    (indexVar : string) (f : LLVMTypeFactory) : LLVMHeaderStack :=
  {| stk_name := p4_hlir.base_name h; stk_hlirInstance := h;
     stk_indexVar := indexVar; stk_factory := f |}.

End llvmInstance.
Import llvmInstance.

Record LLVMParser : Type := { parser_hlirParser : addr }.
Record LLVMConditional : Type := { cond_name : string; cond_hlirNode : addr }.
Record LLVMDeparser : Type := { deparser_hlir : p4_hlir.HLIR }.
Record LLVMTable : Type := { table_name : string }.
Record LLVMAction : Type := { action_name : string; lineno : Z }.
Record LLVMCounter : Type := { counter_name : string }.

(** ** class LLVMProgram *)

Record LLVMProgram : Type := {
  hlir : p4_hlir.HLIR;
  name : string;
  uniqueNameCounter : nat;
  reservedPrefix : string;
  packetName : string;
  dropBit : string;
  license : string;
  offsetVariableName : string;
  zeroKeyName : string;
  errorName : string;
  functionName : string;
  egressPortName : string;
  typeFactory : LLVMTypeFactory;
  errorCodes : list string;
  actions : list LLVMAction;
  conditionals : list LLVMConditional;
  tables : list LLVMTable;
  headers : list LLVMHeader;
  metadata : list LLVMMetadata;
  stacks : list LLVMHeaderStack;
  parsers : list LLVMParser;
  deparser : option LLVMDeparser;
  entryPoints : list (option addr);
  counters : list LLVMCounter;
  entryPointLabels : gmap string string;
  egressEntry : option addr;
  (* attributes assigned only after construct() has returned *)
  headersStructTypeName : option string;
  headerStructName : option string;
  metadataStructTypeName : option string;
  metadataStructName : option string
}.

(** Attribute assignment [self.f = v], one per attribute that is written
    after the object has been laid out. *)
Definition set_uniqueNameCounter (v : nat) (self : LLVMProgram) : LLVMProgram :=
  {| hlir := hlir self; name := name self; uniqueNameCounter := v;
     reservedPrefix := reservedPrefix self; packetName := packetName self;
     dropBit := dropBit self; license := license self; offsetVariableName :=
     offsetVariableName self; zeroKeyName := zeroKeyName self; errorName :=
     errorName self; functionName := functionName self; egressPortName :=
     egressPortName self; typeFactory := typeFactory self; errorCodes :=
     errorCodes self; actions := actions self; conditionals := conditionals self;
     tables := tables self; headers := headers self; metadata := metadata self;
     stacks := stacks self; parsers := parsers self; deparser := deparser self;
     entryPoints := entryPoints self; counters := counters self; entryPointLabels
     := entryPointLabels self; egressEntry := egressEntry self;
     headersStructTypeName := headersStructTypeName self; headerStructName :=
     headerStructName self; metadataStructTypeName := metadataStructTypeName
     self; metadataStructName := metadataStructName self |}.

Definition set_conditionals (v : list LLVMConditional) (self : LLVMProgram) : LLVMProgram :=
  {| hlir := hlir self; name := name self; uniqueNameCounter :=
     uniqueNameCounter self; reservedPrefix := reservedPrefix self; packetName :=
     packetName self; dropBit := dropBit self; license := license self;
     offsetVariableName := offsetVariableName self; zeroKeyName := zeroKeyName
     self; errorName := errorName self; functionName := functionName self;
     egressPortName := egressPortName self; typeFactory := typeFactory self;
     errorCodes := errorCodes self; actions := actions self; conditionals := v;
     tables := tables self; headers := headers self; metadata := metadata self;
     stacks := stacks self; parsers := parsers self; deparser := deparser self;
     entryPoints := entryPoints self; counters := counters self; entryPointLabels
     := entryPointLabels self; egressEntry := egressEntry self;
     headersStructTypeName := headersStructTypeName self; headerStructName :=
     headerStructName self; metadataStructTypeName := metadataStructTypeName
     self; metadataStructName := metadataStructName self |}.

Definition set_headers (v : list LLVMHeader) (self : LLVMProgram) : LLVMProgram :=
  {| hlir := hlir self; name := name self; uniqueNameCounter :=
     uniqueNameCounter self; reservedPrefix := reservedPrefix self; packetName :=
     packetName self; dropBit := dropBit self; license := license self;
     offsetVariableName := offsetVariableName self; zeroKeyName := zeroKeyName
     self; errorName := errorName self; functionName := functionName self;
     egressPortName := egressPortName self; typeFactory := typeFactory self;
     errorCodes := errorCodes self; actions := actions self; conditionals :=
     conditionals self; tables := tables self; headers := v; metadata := metadata
     self; stacks := stacks self; parsers := parsers self; deparser := deparser
     self; entryPoints := entryPoints self; counters := counters self;
     entryPointLabels := entryPointLabels self; egressEntry := egressEntry self;
     headersStructTypeName := headersStructTypeName self; headerStructName :=
     headerStructName self; metadataStructTypeName := metadataStructTypeName
     self; metadataStructName := metadataStructName self |}.

Definition set_metadata (v : list LLVMMetadata) (self : LLVMProgram) : LLVMProgram :=
  {| hlir := hlir self; name := name self; uniqueNameCounter :=
     uniqueNameCounter self; reservedPrefix := reservedPrefix self; packetName :=
     packetName self; dropBit := dropBit self; license := license self;
     offsetVariableName := offsetVariableName self; zeroKeyName := zeroKeyName
     self; errorName := errorName self; functionName := functionName self;
     egressPortName := egressPortName self; typeFactory := typeFactory self;
     errorCodes := errorCodes self; actions := actions self; conditionals :=
     conditionals self; tables := tables self; headers := headers self; metadata
     := v; stacks := stacks self; parsers := parsers self; deparser := deparser
     self; entryPoints := entryPoints self; counters := counters self;
     entryPointLabels := entryPointLabels self; egressEntry := egressEntry self;
     headersStructTypeName := headersStructTypeName self; headerStructName :=
     headerStructName self; metadataStructTypeName := metadataStructTypeName
     self; metadataStructName := metadataStructName self |}.

Definition set_stacks (v : list LLVMHeaderStack) (self : LLVMProgram) : LLVMProgram :=
  {| hlir := hlir self; name := name self; uniqueNameCounter :=
     uniqueNameCounter self; reservedPrefix := reservedPrefix self; packetName :=
     packetName self; dropBit := dropBit self; license := license self;
     offsetVariableName := offsetVariableName self; zeroKeyName := zeroKeyName
     self; errorName := errorName self; functionName := functionName self;
     egressPortName := egressPortName self; typeFactory := typeFactory self;
     errorCodes := errorCodes self; actions := actions self; conditionals :=
     conditionals self; tables := tables self; headers := headers self; metadata
     := metadata self; stacks := v; parsers := parsers self; deparser := deparser
     self; entryPoints := entryPoints self; counters := counters self;
     entryPointLabels := entryPointLabels self; egressEntry := egressEntry self;
     headersStructTypeName := headersStructTypeName self; headerStructName :=
     headerStructName self; metadataStructTypeName := metadataStructTypeName
     self; metadataStructName := metadataStructName self |}.

Definition set_parsers (v : list LLVMParser) (self : LLVMProgram) : LLVMProgram :=
  {| hlir := hlir self; name := name self; uniqueNameCounter :=
     uniqueNameCounter self; reservedPrefix := reservedPrefix self; packetName :=
     packetName self; dropBit := dropBit self; license := license self;
     offsetVariableName := offsetVariableName self; zeroKeyName := zeroKeyName
     self; errorName := errorName self; functionName := functionName self;
     egressPortName := egressPortName self; typeFactory := typeFactory self;
     errorCodes := errorCodes self; actions := actions self; conditionals :=
     conditionals self; tables := tables self; headers := headers self; metadata
     := metadata self; stacks := stacks self; parsers := v; deparser := deparser
     self; entryPoints := entryPoints self; counters := counters self;
     entryPointLabels := entryPointLabels self; egressEntry := egressEntry self;
     headersStructTypeName := headersStructTypeName self; headerStructName :=
     headerStructName self; metadataStructTypeName := metadataStructTypeName
     self; metadataStructName := metadataStructName self |}.

Definition set_deparser (v : option LLVMDeparser) (self : LLVMProgram) : LLVMProgram :=
  {| hlir := hlir self; name := name self; uniqueNameCounter :=
     uniqueNameCounter self; reservedPrefix := reservedPrefix self; packetName :=
     packetName self; dropBit := dropBit self; license := license self;
     offsetVariableName := offsetVariableName self; zeroKeyName := zeroKeyName
     self; errorName := errorName self; functionName := functionName self;
     egressPortName := egressPortName self; typeFactory := typeFactory self;
     errorCodes := errorCodes self; actions := actions self; conditionals :=
     conditionals self; tables := tables self; headers := headers self; metadata
     := metadata self; stacks := stacks self; parsers := parsers self; deparser
     := v; entryPoints := entryPoints self; counters := counters self;
     entryPointLabels := entryPointLabels self; egressEntry := egressEntry self;
     headersStructTypeName := headersStructTypeName self; headerStructName :=
     headerStructName self; metadataStructTypeName := metadataStructTypeName
     self; metadataStructName := metadataStructName self |}.

Definition set_entryPoints (v : list (option addr)) (self : LLVMProgram) : LLVMProgram :=
  {| hlir := hlir self; name := name self; uniqueNameCounter :=
     uniqueNameCounter self; reservedPrefix := reservedPrefix self; packetName :=
     packetName self; dropBit := dropBit self; license := license self;
     offsetVariableName := offsetVariableName self; zeroKeyName := zeroKeyName
     self; errorName := errorName self; functionName := functionName self;
     egressPortName := egressPortName self; typeFactory := typeFactory self;
     errorCodes := errorCodes self; actions := actions self; conditionals :=
     conditionals self; tables := tables self; headers := headers self; metadata
     := metadata self; stacks := stacks self; parsers := parsers self; deparser
     := deparser self; entryPoints := v; counters := counters self;
     entryPointLabels := entryPointLabels self; egressEntry := egressEntry self;
     headersStructTypeName := headersStructTypeName self; headerStructName :=
     headerStructName self; metadataStructTypeName := metadataStructTypeName
     self; metadataStructName := metadataStructName self |}.

Definition set_entryPointLabels (v : gmap string string) (self : LLVMProgram) : LLVMProgram :=
  {| hlir := hlir self; name := name self; uniqueNameCounter :=
     uniqueNameCounter self; reservedPrefix := reservedPrefix self; packetName :=
     packetName self; dropBit := dropBit self; license := license self;
     offsetVariableName := offsetVariableName self; zeroKeyName := zeroKeyName
     self; errorName := errorName self; functionName := functionName self;
     egressPortName := egressPortName self; typeFactory := typeFactory self;
     errorCodes := errorCodes self; actions := actions self; conditionals :=
     conditionals self; tables := tables self; headers := headers self; metadata
     := metadata self; stacks := stacks self; parsers := parsers self; deparser
     := deparser self; entryPoints := entryPoints self; counters := counters
     self; entryPointLabels := v; egressEntry := egressEntry self;
     headersStructTypeName := headersStructTypeName self; headerStructName :=
     headerStructName self; metadataStructTypeName := metadataStructTypeName
     self; metadataStructName := metadataStructName self |}.

Definition set_egressEntry (v : option addr) (self : LLVMProgram) : LLVMProgram :=
  {| hlir := hlir self; name := name self; uniqueNameCounter :=
     uniqueNameCounter self; reservedPrefix := reservedPrefix self; packetName :=
     packetName self; dropBit := dropBit self; license := license self;
     offsetVariableName := offsetVariableName self; zeroKeyName := zeroKeyName
     self; errorName := errorName self; functionName := functionName self;
     egressPortName := egressPortName self; typeFactory := typeFactory self;
     errorCodes := errorCodes self; actions := actions self; conditionals :=
     conditionals self; tables := tables self; headers := headers self; metadata
     := metadata self; stacks := stacks self; parsers := parsers self; deparser
     := deparser self; entryPoints := entryPoints self; counters := counters
     self; entryPointLabels := entryPointLabels self; egressEntry := v;
     headersStructTypeName := headersStructTypeName self; headerStructName :=
     headerStructName self; metadataStructTypeName := metadataStructTypeName
     self; metadataStructName := metadataStructName self |}.

Definition set_structNames (a b c d : string) (self : LLVMProgram) : LLVMProgram :=
  {| hlir := hlir self; name := name self;
     uniqueNameCounter := uniqueNameCounter self;
     reservedPrefix := reservedPrefix self; packetName := packetName self;
     dropBit := dropBit self; license := license self;
     offsetVariableName := offsetVariableName self;
     zeroKeyName := zeroKeyName self; errorName := errorName self;
     functionName := functionName self; egressPortName := egressPortName self;
     typeFactory := typeFactory self; errorCodes := errorCodes self;
     actions := actions self; conditionals := conditionals self;
     tables := tables self; headers := headers self; metadata := metadata self;
     stacks := stacks self; parsers := parsers self; deparser := deparser self;
     entryPoints := entryPoints self; counters := counters self;
     entryPointLabels := entryPointLabels self; egressEntry := egressEntry self;
     headersStructTypeName := Some a; headerStructName := Some b;
     metadataStructTypeName := Some c; metadataStructName := Some d |}.

(** *** Methods run on [self]: a state-and-exception monad.  A raised
    exception keeps the state reached so far. *)

Definition M (A : Type) : Type := LLVMProgram -> result A * LLVMProgram.

Definition ret {A} (a : A) : M A := fun self => (Ok a, self).
Definition raise {A} (e : exn) : M A := fun self => (Raise e, self).
Definition bind {A B} (m : M A) (k : A -> M B) : M B :=
  fun self =>
    match m self with
    | (Ok a, self') => k a self'
    | (Raise e, self') => (Raise e, self')
    end.
Definition get : M LLVMProgram := fun self => (Ok self, self).
Definition modify (f : LLVMProgram -> LLVMProgram) : M unit :=
  fun self => (Ok tt, f self).

Notation "'do' x <- m ; k" := (bind m (fun x => k))
  (at level 10, x name, m at level 100, k at level 200, only parsing).
Notation "'do_' m ; k" := (bind m (fun _ => k))
  (at level 10, m at level 100, k at level 200, only parsing).

(** [for x in l: body(x)] *)
Fixpoint for_ {A} (l : list A) (body : A -> M unit) : M unit :=
  match l with
  | [] => ret tt
  | x :: l' => do_ body x; for_ l' body
  end.

(** The attribute assignments of [__init__] that precede [self.construct()]. *)
Definition init_attributes (name : string) (hlir : p4_hlir.HLIR) : LLVMProgram :=
  let reservedPrefix := "llvm_" in
  {| hlir := hlir;
     name := name;
     uniqueNameCounter := 0;
     reservedPrefix := reservedPrefix;
     packetName := reservedPrefix +:+ "packet";
     dropBit := reservedPrefix +:+ "drop";
     license := "MIT";
     offsetVariableName := reservedPrefix +:+ "packetOffsetInBits";
     zeroKeyName := reservedPrefix +:+ "zero";
     errorName := reservedPrefix +:+ "error";
     functionName := reservedPrefix +:+ "filter";
     egressPortName := "egress_port";
     typeFactory := Build_LLVMTypeFactory;
     errorCodes :=
       [ "p4_pe_no_error";
         "p4_pe_index_out_of_bounds";
         "p4_pe_out_of_packet";
         "p4_pe_header_too_long";
         "p4_pe_header_too_short";
         "p4_pe_unhandled_select";
         "p4_pe_checksum" ];
     actions := [];
     conditionals := [];
     tables := [];
     headers := [];
     metadata := [];
     stacks := [];
     parsers := [];
     deparser := None;
     entryPoints := [];
     counters := [];
     entryPointLabels := ∅;
     egressEntry := None;
     headersStructTypeName := None;
     headerStructName := None;
     metadataStructTypeName := None;
     metadataStructName := None |}.

(** [generateNewName(self, base)] *)
Definition generateNewName (base : string) : M string :=
  fun self =>
    let base := base +:+ "_" +:+ str (uniqueNameCounter self) in
    (Ok base, set_uniqueNameCounter (uniqueNameCounter self + 1) self).

(** [getLabel(self, p4node)] *)
Definition getLabel (p4node : option p4_hlir.p4_node) : M string :=
  match p4node with
  | None => ret "end"
  | Some nd =>
      let nm := p4_hlir.name nd in
      do_ (if p4_hlir.isinstance_p4_parse_state nd
           then modify (fun self =>
                  set_entryPointLabels (<[nm := nm]> (entryPointLabels self)) self)
           else ret tt);
      do self <- get;
      do_ (match entryPointLabels self !! nm with
           | None =>
               do label <- generateNewName nm;
               modify (fun self =>
                 set_entryPointLabels (<[nm := label]> (entryPointLabels self)) self)
           | Some _ => ret tt
           end);
      do self <- get;
      match entryPointLabels self !! nm with
      | Some label => ret label
      | None => raise (KeyError nm)
      end
  end.

(** The body of the loop over [hlir.p4_header_instances.values()]. *)
Definition construct_instance (h : p4_hlir.p4_header_instance) : M unit :=
  match p4_hlir.max_index h with
  | Some _ =>
      if bool_decide (p4_hlir.index h = Some 0%Z) then
        do indexVarName <- generateNewName (p4_hlir.base_name h +:+ "_index");
        modify (fun self =>
          set_stacks
            (stacks self ++ [new_LLVMHeaderStack h indexVarName (typeFactory self)])
            self)
      else ret tt
  | None =>
      if p4_hlir.metadata h then
        modify (fun self =>
          set_metadata (metadata self ++ [new_LLVMMetadata h (typeFactory self)]) self)
      else
        modify (fun self =>
          set_headers (headers self ++ [new_LLVMHeader h (typeFactory self)]) self)
  end.

(** [construct(self)].  The name [llvmConditional] is bound nowhere in
    llvmProgram.py: the module is not among its imports (llvmInstance,
    llvmParser, llvmDeparser, typeFactory, programSerializer and the
    exception classes of compilationException).  The body of the loop over
    the conditional nodes evaluates it first, so the first iteration of that
    loop raises NameError. *)
Definition construct : M unit :=
  do self <- get;
  do_ (if bool_decide (0 < length (p4_hlir.p4_field_list_calculations (hlir self)))
       then match values (p4_hlir.p4_field_list_calculations (hlir self)) with
            | c :: _ =>
                raise (NotSupportedException "{0} calculated field"
                         (p4_hlir.flc_name c))
            | [] => raise IndexError
            end
       else ret tt);
  do_ for_ (values (p4_hlir.p4_header_instances (hlir self))) construct_instance;
  do_ for_ (values (p4_hlir.p4_parse_states (hlir self))) (fun p =>
        modify (fun self =>
          set_parsers (parsers self ++ [ {| parser_hlirParser := p |} ]) self));
  do_ for_ (keys (p4_hlir.p4_ingress_ptr (hlir self))) (fun n =>
        modify (fun self => set_entryPoints (entryPoints self ++ [n]) self));
  do_ for_ (values (p4_hlir.p4_conditional_nodes (hlir self))) (fun n =>
        raise (NameError "llvmConditional"));
  do_ modify (fun self => set_egressEntry (p4_hlir.p4_egress_ptr (hlir self)) self);
  modify (fun self =>
    set_deparser (Some {| deparser_hlir := hlir self |}) self).

(** [LLVMProgram(name, hlir)]: the outcome and the object as [__init__]
    leaves it. *)
Definition LLVMProgram_init (name : string) (hlir : p4_hlir.HLIR)
    : result unit * LLVMProgram :=
  (do_ construct;
   modify (fun self =>
     set_structNames
       (reservedPrefix self +:+ "headers_t") (reservedPrefix self +:+ "headers")
       (reservedPrefix self +:+ "metadata_t") (reservedPrefix self +:+ "metadata")
       self))
    (init_attributes name hlir).

(** [isInternalAction], [isArrayElementInstance] *)
Definition isInternalAction (action : LLVMAction) : bool :=
  bool_decide (lineno action < 0)%Z.

Definition isArrayElementInstance (headerInstance : p4_hlir.p4_header_instance)
    : bool :=
  match p4_hlir.max_index headerInstance with Some _ => true | None => false end.

(** Successive calls [generateNewName(b)] for [b] in [bases], and successive
    calls [getLabel(n)] for [n] in [nodes], with the results in call order. *)
Fixpoint generateNewNames (bases : list string) : M (list string) :=
  match bases with
  | [] => ret []
  | b :: bases' =>
      do n <- generateNewName b;
      do ns <- generateNewNames bases';
      ret (n :: ns)
  end.

Fixpoint getLabels (nodes : list (option p4_hlir.p4_node)) : M (list string) :=
  match nodes with
  | [] => ret []
  | n :: nodes' =>
      do l <- getLabel n;
      do ls <- getLabels nodes';
      ret (l :: ls)
  end.

(** The classification of section 4.2 of the specification, in its words:
    array-indexed and zero index: a header stack; array-indexed otherwise:
    no wrapper; else metadata-flagged: metadata; else a header. *)
Inductive category : Type := Header | Metadata | HeaderStack.

#[global] Instance category_eq_dec : EqDecision category.
Proof. solve_decision. Defined.

Definition classify (h : p4_hlir.p4_header_instance) : option category :=
  if isArrayElementInstance h then
    if bool_decide (p4_hlir.index h = Some 0%Z) then Some HeaderStack else None
  else if p4_hlir.metadata h then Some Metadata
  else Some Header.

Definition classified_as (c : category) (h : p4_hlir.p4_header_instance) : bool :=
  bool_decide (classify h = Some c).

(** *** Lookups by name *)

(** [for h in l: if h.name == name: return h] *)
Fixpoint first_named {A} (name_of : A -> string) (name : string) (l : list A)
    : option A :=
  match l with
  | [] => None
  | h :: l' =>
      if bool_decide (name_of h = name) then Some h
      else first_named name_of name l'
  end.

Definition getStackInstance (name : string) (self : LLVMProgram)
    : result LLVMHeaderStack :=
  match first_named stk_name name (stacks self) with
  | Some h => Ok h
  | None =>
      Raise (CompilationException true
               "Could not locate header stack named {0}" name)
  end.

Definition getHeaderInstance (name : string) (self : LLVMProgram)
    : result LLVMHeader :=
  match first_named hdr_name name (headers self) with
  | Some h => Ok h
  | None =>
      Raise (CompilationException true
               "Could not locate header instance named {0}" name)
  end.

(** [getInstance] returns a header or a metadata wrapper. *)
Inductive instance : Type :=
  | a_header (h : LLVMHeader)
  | a_metadata (m : LLVMMetadata).

Definition getInstance (name : string) (self : LLVMProgram) : result instance :=
  match first_named hdr_name name (headers self) with
  | Some h => Ok (a_header h)
  | None =>
      match first_named md_name name (metadata self) with
      | Some h => Ok (a_metadata h)
      | None =>
          Raise (CompilationException true
                   "Could not locate instance named {0}" name)
      end
  end.

Definition getTable (name : string) (self : LLVMProgram) : result LLVMTable :=
  match first_named table_name name (tables self) with
  | Some t => Ok t
  | None =>
      Raise (CompilationException true "Could not locate table named {0}" name)
  end.

Definition getConditional (name : string) (self : LLVMProgram)
    : result LLVMConditional :=
  match first_named cond_name name (conditionals self) with
  | Some c => Ok c
  | None =>
      Raise (CompilationException true
               "Could not locate conditional named {0}" name)
  end.

(** *** Control-flow linearization *)

(** [generateControlFlowNode(self, serializer, node, nextEntryPoint)] has the
    body [pass]; the serializer is modelled as the sequence of the calls
    made with it, so that what a pass generates can be observed. *)
Definition serializer_t : Type := list (addr * option addr).

Definition generateControlFlowNode (serializer : serializer_t) (node : addr)
    (nextEntryPoint : option addr) : serializer_t :=
  serializer ++ [(node, nextEntryPoint)].

(** The variables of [generatePipelineInternal] while its loop runs, the
    serializer it writes to, and the argument tuples of its [print] calls. *)
Record loop_state : Type := {
  serializer : serializer_t;
  nodestoadd : gset (option addr);
  done : gset (option addr);
  stdout : list (list string)
}.

(** [todo = nodestoadd.pop()], for the element [todo] that the set hands out. *)
Definition pop (todo : option addr) (st : loop_state) : loop_state :=
  {| serializer := serializer st;
     nodestoadd := nodestoadd st ∖ {[todo]};
     done := done st;
     stdout := stdout st |}.

(** The loop body after the pop.  Reading an attribute of an object that is
    not in the store raises. *)
Definition loop_body (nodes : gmap addr p4_hlir.p4_node)
    (nextEntryPoint : option addr) (todo : option addr) (st : loop_state)
    : result loop_state :=
  if bool_decide (todo ∈ done st) then Ok st
  else
    match todo with
    | None => Ok st
    | Some a =>
        match nodes !! a with
        | None => Raise (AttributeError "name")
        | Some nd =>
            Ok {| stdout := stdout st ++ [["Generating "; p4_hlir.name nd]];
                  done := done st ∪ {[todo]};
                  serializer :=
                    generateControlFlowNode (serializer st) a nextEntryPoint;
                  nodestoadd :=
                    nodestoadd st ∪ list_to_set (values (p4_hlir.next_ nd)) |}
        end
    end.

(** [k] iterations of [while len(nodestoadd) > 0], whichever element each
    pop hands out. *)
Inductive iterations (nodes : gmap addr p4_hlir.p4_node)
    (nextEntryPoint : option addr) : nat -> loop_state -> loop_state -> Prop :=
  | iterations_O st : iterations nodes nextEntryPoint 0 st st
  | iterations_S k st todo st' st'' :
      todo ∈ nodestoadd st ->
      loop_body nodes nextEntryPoint todo (pop todo st) = Ok st' ->
      iterations nodes nextEntryPoint k st' st'' ->
      iterations nodes nextEntryPoint (S k) st st''.

(** The whole loop, to its exit or to the first exception. *)
Inductive while_nodestoadd (nodes : gmap addr p4_hlir.p4_node)
    (nextEntryPoint : option addr) : loop_state -> result loop_state -> Prop :=
  | while_exit st :
      nodestoadd st = ∅ ->
      while_nodestoadd nodes nextEntryPoint st (Ok st)
  | while_continue st todo st' r :
      todo ∈ nodestoadd st ->
      loop_body nodes nextEntryPoint todo (pop todo st) = Ok st' ->
      while_nodestoadd nodes nextEntryPoint st' r ->
      while_nodestoadd nodes nextEntryPoint st r
  | while_raise st todo e :
      todo ∈ nodestoadd st ->
      loop_body nodes nextEntryPoint todo (pop todo st) = Raise e ->
      while_nodestoadd nodes nextEntryPoint st (Raise e).

(** The state in which a pass enters its loop: [done = set()]. *)
Definition pass_start (serializer : serializer_t) (stdout : list (list string))
    (nodestoadd : gset (option addr)) : loop_state :=
  {| serializer := serializer; nodestoadd := nodestoadd; done := ∅;
     stdout := stdout |}.

(** [generatePipelineInternal(self, serializer, nodestoadd, nextEntryPoint)] *)
Definition generatePipelineInternal (nodes : gmap addr p4_hlir.p4_node)
    (serializer : serializer_t) (stdout : list (list string))
    (nodestoadd : gset (option addr)) (nextEntryPoint : option addr)
    (r : result loop_state) : Prop :=
  while_nodestoadd nodes nextEntryPoint
    (pass_start serializer stdout nodestoadd) r.

(** [generatePipeline(self, serializer)]: the ingress pass, then the egress
    pass on the same serializer. *)
Inductive generatePipeline (self : LLVMProgram) (serializer0 : serializer_t)
    (stdout0 : list (list string)) : result loop_state -> Prop :=
  | generatePipeline_egress st1 r :
      generatePipelineInternal (p4_hlir.p4_nodes (hlir self)) serializer0 stdout0
        (list_to_set (entryPoints self)) (egressEntry self) (Ok st1) ->
      generatePipelineInternal (p4_hlir.p4_nodes (hlir self))
        (serializer st1) (stdout st1) {[egressEntry self]} None r ->
      generatePipeline self serializer0 stdout0 r
  | generatePipeline_raise e :
      generatePipelineInternal (p4_hlir.p4_nodes (hlir self)) serializer0 stdout0
        (list_to_set (entryPoints self)) (egressEntry self) (Raise e) ->
      generatePipeline self serializer0 stdout0 (Raise e).

(** One admissible run, executable: every pop hands out the first element of
    the set's enumeration.  [None] is returned when the fuel runs out. *)
Fixpoint run_loop (fuel : nat) (nodes : gmap addr p4_hlir.p4_node)
    (nextEntryPoint : option addr) (st : loop_state)
    : option (result loop_state) :=
  match fuel with
  | O => None
  | S fuel' =>
      match elements (nodestoadd st) with
      | [] => Some (Ok st)
      | todo :: _ =>
          match loop_body nodes nextEntryPoint todo (pop todo st) with
          | Ok st' => run_loop fuel' nodes nextEntryPoint st'
          | Raise e => Some (Raise e)
          end
      end
  end.

Definition run_generatePipeline (fuel : nat) (self : LLVMProgram)
    (serializer0 : serializer_t) (stdout0 : list (list string))
    : option (result loop_state) :=
  match run_loop fuel (p4_hlir.p4_nodes (hlir self)) (egressEntry self)
          (pass_start serializer0 stdout0 (list_to_set (entryPoints self))) with
  | Some (Ok st1) =>
      run_loop fuel (p4_hlir.p4_nodes (hlir self)) None
        (pass_start (serializer st1) (stdout st1) {[egressEntry self]})
  | other => other
  end.

(** Nodes reachable from the seeds along [next_] edges. *)
Inductive reachable (nodes : gmap addr p4_hlir.p4_node)
    (seeds : gset (option addr)) : addr -> Prop :=
  | reachable_seed a : Some a ∈ seeds -> reachable nodes seeds a
  | reachable_next a nd b :
      reachable nodes seeds a ->
      nodes !! a = Some nd ->
      Some b ∈ values (p4_hlir.next_ nd) ->
      reachable nodes seeds b.

(** A reference is valid when it is [None] or the identity of a stored
    object; the store is closed when every [next_] value is valid. *)
Definition valid_ref (nodes : gmap addr p4_hlir.p4_node) (r : option addr)
    : Prop :=
  match r with None => True | Some a => is_Some (nodes !! a) end.

Definition closed (nodes : gmap addr p4_hlir.p4_node) : Prop :=
  map_Forall (fun _ nd => Forall (valid_ref nodes) (values (p4_hlir.next_ nd)))
    nodes.

#[global] Instance valid_ref_dec nodes r : Decision (valid_ref nodes r).
Proof. destruct r; simpl; apply _. Defined.

#[global] Instance closed_dec nodes : Decision (closed nodes).
Proof. unfold closed. apply _. Defined.

(** The references a pass can ever hold, and the bound on its iterations. *)
Definition refs_of (nodes : gmap addr p4_hlir.p4_node) : gset (option addr) :=
  {[None]} ∪ set_map Some (dom nodes).

Definition measure (nodes : gmap addr p4_hlir.p4_node) (st : loop_state) : nat :=
  size (refs_of nodes ∖ done st) * S (size (refs_of nodes)) + size (nodestoadd st).

(** ** p4c/utils.py *)

Module utils.

(** *** The width resolver over [config.jsondata] *)

(** The two tables of [config.jsondata] that the resolver reads, typed as
    the JSON schema has them: names are strings, a field is a pair of a
    name and a width. *)
Record header_type_t : Type := {
  ht_name : string;
  ht_fields : list (string * Z)
}.

Record header_t : Type := {
  h_name : string;
  h_header_type : string
}.

Record jsondata_t : Type := {
  header_types : list header_type_t;
  headers : list header_t
}.

(** [sum(l)] *)
Definition sum (l : list Z) : Z := fold_left Z.add l 0%Z.

(** [GetHeaderTypeWidth(header_type)]; Python's [None] is [None]. *)
Fixpoint GetHeaderTypeWidth_for (l : list header_type_t) (header_type : string)
    : option Z :=
  match l with
  | [] => None
  | h :: l' =>
      if bool_decide (ht_name h = header_type) then
        let fields := ht_fields h in
        let width := sum (map snd fields) in
        Some width
      else GetHeaderTypeWidth_for l' header_type
  end.

Definition GetHeaderTypeWidth (jsondata : jsondata_t) (header_type : string)
    : option Z :=
  GetHeaderTypeWidth_for (header_types jsondata) header_type.

(** [GetHeaderWidth(header)] *)
Fixpoint GetHeaderWidth_for (jsondata : jsondata_t) (l : list header_t)
    (header : string) : option Z :=
  match l with
  | [] => None
  | h :: l' =>
      if bool_decide (h_name h = header) then
        let hty := h_header_type h in
        GetHeaderTypeWidth jsondata hty
      else GetHeaderWidth_for jsondata l' header
  end.

Definition GetHeaderWidth (jsondata : jsondata_t) (header : string)
    : option Z :=
  GetHeaderWidth_for jsondata (headers jsondata) header.

(** [GetFieldWidth(field)]: the two loops assign without leaving the loop;
    the third iterates [fields], which raises when it still is [None]. *)
Fixpoint first_width (fields : list (string * Z)) (f1 : string) : option Z :=
  match fields with
  | [] => None
  | (f, width) :: fields' =>
      if bool_decide (f = f1) then Some width else first_width fields' f1
  end.

Definition GetFieldWidth (jsondata : jsondata_t) (field : string * string)
    : result (option Z) :=
  let hty : option string :=
    fold_left
      (fun hty h =>
         if bool_decide (h_name h = fst field) then Some (h_header_type h)
         else hty)
      (headers jsondata) None in
  let fields : option (list (string * Z)) :=
    fold_left
      (fun fields h =>
         if bool_decide (Some (ht_name h) = hty) then Some (ht_fields h)
         else fields)
      (header_types jsondata) None in
  match fields with
  | None => Raise (TypeError "'NoneType' object is not iterable")
  | Some fields => Ok (first_width fields (snd field))
  end.

(** [GetHeaderType(header)] *)
Fixpoint GetHeaderType_for (l : list header_t) (header : string)
    : option string :=
  match l with
  | [] => None
  | h :: l' =>
      if bool_decide (h_name h = header) then Some (h_header_type h)
      else GetHeaderType_for l' header
  end.

Definition GetHeaderType (jsondata : jsondata_t) (header : string)
    : option string :=
  GetHeaderType_for (headers jsondata) header.

(** *** The expression flattener over parsed JSON *)

(** A value as [json.load] returns it; a dictionary keeps its items in
    order, with distinct keys. *)
#[local] Unset Elimination Schemes.
Inductive json : Type :=
  | JNone
  | JBool (b : bool)
  | JInt (z : Z)
  | JStr (s : string)
  | JList (l : list json)
  | JDict (d : list (string * json)).
#[local] Set Elimination Schemes.

(** Python's truth value. *)
Definition truthy (j : json) : bool :=
  match j with
  | JNone => false
  | JBool b => b
  | JInt z => negb (Z.eqb z 0)
  | JStr s => negb (String.eqb s "")
  | JList l => match l with [] => false | _ => true end
  | JDict d => match d with [] => false | _ => true end
  end.

Fixpoint dict_get (d : list (string * json)) (k : string) : option json :=
  match d with
  | [] => None
  | (k', v) :: d' => if String.eqb k' k then Some v else dict_get d' k
  end.

(** [j[k]] for a string key [k]. *)
Definition getitem (j : json) (k : string) : result json :=
  match j with
  | JDict d =>
      match dict_get d k with
      | Some v => Ok v
      | None => Raise (KeyError k)
      end
  | JStr _ => Raise (TypeError "string indices must be integers")
  | JList _ => Raise (TypeError "list indices must be integers")
  | _ => Raise (TypeError "object is not subscriptable")
  end.

(** [j == s] for a string literal [s]. *)
Definition eq_str (j : json) (s : string) : bool :=
  match j with JStr s' => String.eqb s' s | _ => false end.

(** [sep.join(l)] *)
Fixpoint join (sep : string) (l : list json) : result string :=
  match l with
  | [] => Ok ""
  | JStr s :: l' =>
      match l' with
      | [] => Ok s
      | _ =>
          match join sep l' with
          | Ok r => Ok (s +:+ sep +:+ r)
          | Raise e => Raise e
          end
      end
  | _ :: _ => Raise (TypeError "sequence item: expected string")
  end.

(** The two lists that [build_expression] appends to, and what it prints. *)
Record be_state : Type := {
  sb : list json;
  metadata : list json;
  printed : list string
}.

(** A statement: [None] when the recursion budget is used up. *)
Definition stmt : Type := be_state -> option (result unit * be_state).

Definition skip : stmt := fun st => Some (Ok tt, st).
Definition throw (e : exn) : stmt := fun st => Some (Raise e, st).
Definition andthen (s1 s2 : stmt) : stmt :=
  fun st =>
    match s1 st with
    | Some (Ok _, st') => s2 st'
    | other => other
    end.
Definition eval (r : result json) (k : json -> stmt) : stmt :=
  match r with Ok v => k v | Raise e => throw e end.
Definition sb_append (v : json) : stmt :=
  fun st =>
    Some (Ok tt, {| sb := sb st ++ [v]; metadata := metadata st;
                    printed := printed st |}).
Definition metadata_append (v : json) : stmt :=
  fun st =>
    Some (Ok tt, {| sb := sb st; metadata := metadata st ++ [v];
                    printed := printed st |}).
Definition print (s : string) : stmt :=
  fun st =>
    Some (Ok tt, {| sb := sb st; metadata := metadata st;
                    printed := printed st ++ [s] |}).

Infix ";;" := andthen (at level 100, right associativity, only parsing).

(** Reading the name [value]: [build_expression] never assigns it, and
    utils.py binds no global of that name ([config], [os], [pprint] and
    the functions of the module are its globals), so the read raises. *)
Definition load_value : result json := Raise (NameError "value").

(** The branch shared by the types "header" and "field". *)
Definition append_joined (json_value : json) : stmt :=
  (match json_value with
   | JList l =>
       match join "$" l with
       | Ok s => sb_append (JStr s)
       | Raise e => throw e
       end
   | _ => sb_append json_value
   end) ;;
  metadata_append json_value.

(** [build_expression(json_data, sb, metadata)] *)
Fixpoint build_expression (fuel : nat) (json_data : json) : stmt :=
  match fuel with
  | O => fun _ => None
  | S fuel' =>
      if negb (truthy json_data) then skip
      else
        eval (getitem json_data "type") (fun json_type =>
        eval (getitem json_data "value") (fun json_value =>
        if eq_str json_type "expression" then
          eval (getitem json_value "op") (fun op =>
          eval (getitem json_value "left") (fun json_left =>
          eval (getitem json_value "right") (fun json_right =>
          sb_append (JStr "(") ;;
          if eq_str op "?" then
            eval (getitem json_data "cond") (fun json_cond =>
            eval load_value (fun value =>
            eval (getitem value "left") (fun l =>
            build_expression fuel' l ;;
            sb_append op ;;
            eval load_value (fun value =>
            eval (getitem value "right") (fun r =>
            build_expression fuel' r ;;
            sb_append (JStr ")"))))))
          else
            (if (eq_str op "+" || eq_str op "-")
                && match json_left with JNone => true | _ => false end
             then print "expr push back load const"
             else build_expression fuel' json_left) ;;
            sb_append op ;;
            build_expression fuel' json_right ;;
            sb_append (JStr ")"))))
        else if eq_str json_type "header" then append_joined json_value
        else if eq_str json_type "field" then append_joined json_value
        else if eq_str json_type "bool" then sb_append json_value
        else if eq_str json_type "hexstr" then sb_append json_value
        else if eq_str json_type "local" then sb_append json_value
        else if eq_str json_type "register" then sb_append json_value
        else skip))
  end.

(** *** Name conversion *)

(** A [str] is a sequence of bytes; characters are classified as the C
  locale does, which is how [title], [isalnum] and [lower] treat them. *)
Definition islower (c : ascii) : bool :=
Nat.leb 97 (nat_of_ascii c) && Nat.leb (nat_of_ascii c) 122.
Definition isupper (c : ascii) : bool :=
Nat.leb 65 (nat_of_ascii c) && Nat.leb (nat_of_ascii c) 90.
Definition isdigit (c : ascii) : bool :=
Nat.leb 48 (nat_of_ascii c) && Nat.leb (nat_of_ascii c) 57.
Definition isalnum (c : ascii) : bool := islower c || isupper c || isdigit c.
Definition toupper (c : ascii) : ascii :=
if islower c then ascii_of_nat (nat_of_ascii c - 32) else c.
Definition tolower (c : ascii) : ascii :=
if isupper c then ascii_of_nat (nat_of_ascii c + 32) else c.

(** [s.title()]: a cased character is made upper case when the character
  before it is not cased, and lower case when it is. *)
Fixpoint title_from (previous_is_cased : bool) (s : string) : string :=
match s with
| EmptyString => EmptyString
| String c s' =>
    if islower c then
      String (if previous_is_cased then c else toupper c) (title_from true s')
    else if isupper c then
      String (if previous_is_cased then tolower c else c) (title_from true s')
    else String c (title_from false s')
end.

Definition title (s : string) : string := title_from false s.

(** [''.join(x for x in s if p(x))] *)
Fixpoint join_if (p : ascii -> bool) (s : string) : string :=
match s with
| EmptyString => EmptyString
| String c s' => if p c then String c (join_if p s') else join_if p s'
end.

(** [CamelCase(name)] *)
Definition CamelCase (name : string) : string :=
let output := join_if isalnum (title name) in
output.

(** [camelCase(name)]: [output[0]] raises on the empty string. *)
Definition camelCase (name : string) : result string :=
let output := join_if isalnum (title name) in
match output with
| EmptyString => Raise IndexError
| String c rest => Ok (String (tolower c) rest)
end.

(** *** Parse states of [config.jsondata] *)

(** [j[i]] for an int [i]. *)
Definition getindex (j : json) (i : nat) : result json :=
match j with
| JList l =>
    match nth_error l i with
    | Some v => Ok v
    | None => Raise IndexError
    end
| JStr s =>
    match String.get i s with
    | Some c => Ok (JStr (String c EmptyString))
    | None => Raise IndexError
    end
| JDict _ => Raise (KeyError (str i))
| _ => Raise (TypeError "object is not subscriptable")
end.

(** The values that [for x in j] binds [x] to. *)
Fixpoint chars (s : string) : list json :=
match s with
| EmptyString => []
| String c s' => JStr (String c EmptyString) :: chars s'
end.

Definition iterate (j : json) : result (list json) :=
match j with
| JList l => Ok l
| JDict d => Ok (map (fun kv => JStr (fst kv)) d)
| JStr s => Ok (chars s)
| _ => Raise (TypeError "object is not iterable")
end.

Definition rbind {A B} (r : result A) (k : A -> result B) : result B :=
match r with Ok a => k a | Raise e => Raise e end.

(** [state_name_to_state(state_name)]; the Python [None] is [JNone]. *)
Fixpoint state_name_to_state_for (l : list json) (state_name : string)
  : result json :=
match l with
| [] => Ok JNone
| s :: l' =>
    rbind (getitem s "name") (fun n =>
    if eq_str n state_name then Ok s
    else state_name_to_state_for l' state_name)
end.

Definition state_name_to_state (jsondata : json) (state_name : string)
  : result json :=
rbind (getitem jsondata "parsers") (fun parsers =>
rbind (getindex parsers 0) (fun parser =>
rbind (getitem parser "parse_states") (fun parse_states =>
rbind (iterate parse_states) (fun l =>
state_name_to_state_for l state_name)))).

Section formatting.

(** What ["%s"] gives for a value that is not a string. *)
Variable str_of : json -> string.

(** ["%s[%d]" % (value, 0)] *)
Definition stack_element (value : json) : json :=
match value with
| JStr s => JStr (s +:+ "[0]")
| _ => JStr (str_of value +:+ "[0]")
end.

(** The loop of [state_to_header] over the parser ops. *)
Fixpoint state_to_header_for (ops : list json) (headers : list json)
  : result (list json) :=
match ops with
| [] => Ok headers
| op :: ops' =>
    rbind (getitem op "op") (fun o =>
    if eq_str o "extract" then
      rbind (getitem op "parameters") (fun ps =>
      rbind (getindex ps 0) (fun parameters =>
      rbind (getitem parameters "type") (fun ty =>
      if eq_str ty "regular" then
        rbind (getitem parameters "value") (fun value =>
        state_to_header_for ops' (headers ++ [value]))
      else
        rbind (getitem parameters "type") (fun ty' =>
        if eq_str ty' "stack" then
          rbind (getitem parameters "value") (fun value =>
          state_to_header_for ops' (headers ++ [stack_element value]))
        else state_to_header_for ops' headers))))
    else state_to_header_for ops' headers)
end.

(** [state_to_header(state_name)] *)
Definition state_to_header (jsondata : json) (state_name : string)
  : result (list json) :=
rbind (state_name_to_state jsondata state_name) (fun state =>
rbind (getitem state "parser_ops") (fun parser_ops =>
rbind (iterate parser_ops) (fun ops =>
state_to_header_for ops []))).

End formatting.

(** What [state_to_expression] returns: [(None, None, None)],
  [('expression', dst, src)] or [('field', dst, src[0])]. *)
Inductive expression_t : Type :=
| no_expression
| an_expression (dst src : list json)
| a_field (dst : list json) (src0 : json).

(** A computation that prints: [None] when the recursion budget of a call
  of [build_expression] is used up. *)
Definition printing (A : Type) : Type :=
list string -> option (result A * list string).

Definition pret {A} (a : A) : printing A := fun out => Some (Ok a, out).
Definition pbind {A B} (m : printing A) (k : A -> printing B) : printing B :=
fun out =>
  match m out with
  | Some (Ok a, out') => k a out'
  | Some (Raise e, out') => Some (Raise e, out')
  | None => None
  end.
Definition plift {A} (r : result A) : printing A :=
fun out => Some (r, out).

(** [build_expression(json_data, sb, metadata)] on the two lists given,
  returning them as the call leaves them. *)
Definition call_build_expression (fuel : nat) (json_data : json)
  (sb metadata : list json) : printing (list json * list json) :=
fun out =>
  match build_expression fuel json_data
          {| sb := sb; metadata := metadata; printed := out |} with
  | Some (Ok _, st) => Some (Ok (utils.sb st, utils.metadata st), printed st)
  | Some (Raise e, st) => Some (Raise e, printed st)
  | None => None
  end.

(** The loop of [state_to_expression] over the parser ops. *)
Fixpoint state_to_expression_for (fuel : nat) (ops : list json)
  : printing expression_t :=
match ops with
| [] => pret no_expression
| op :: ops' =>
    pbind (plift (getitem op "op")) (fun o =>
    if eq_str o "set" then
      pbind (plift (rbind (getitem op "parameters") (fun ps => getindex ps 0)))
        (fun exp0 =>
      pbind (call_build_expression fuel exp0 [] []) (fun dst =>
      pbind (plift (rbind (getitem op "parameters") (fun ps => getindex ps 1)))
        (fun exp1 =>
      pbind (plift (getitem exp1 "type")) (fun ty =>
      if eq_str ty "expression" then
        pbind (plift (getitem exp1 "value")) (fun v =>
        if truthy v then
          pbind (plift (getitem exp1 "value")) (fun v' =>
          pbind (call_build_expression fuel v' [] []) (fun src =>
          pret (an_expression (fst dst) (fst src))))
        else state_to_expression_for fuel ops')
      else
        pbind (call_build_expression fuel exp1 [] []) (fun src =>
        match snd src with
        | src0 :: _ => pret (a_field (fst dst) src0)
        | [] => plift (Raise IndexError)
        end)))))
    else state_to_expression_for fuel ops')
end.

(** [state_to_expression(state_name)] *)
Definition state_to_expression (fuel : nat) (jsondata : json)
  (state_name : string) : printing expression_t :=
pbind (plift (state_name_to_state jsondata state_name)) (fun state =>
pbind (plift (getitem state "parser_ops")) (fun parser_ops =>
pbind (plift (iterate parser_ops)) (fun ops =>
state_to_expression_for fuel ops))).

End utils.

(** * Vocabulary of the statements *)

(** Every label in the map was issued by [generateNewName] for its key. *)
Definition generated_labels (m : gmap string string) : Prop :=
  forall k v, m !! k = Some v -> exists c, v = k +:+ "_" +:+ str c.

(** What holds whenever the loop of a pass is about to test its condition:
    the pass was seeded with [seeds] and found [serializer0] in the
    serializer. *)
Record pass_inv (nodes : gmap addr p4_hlir.p4_node)
    (nextEntryPoint : option addr) (seeds : gset (option addr))
    (serializer0 : serializer_t) (st : loop_state) : Prop := {
  inv_pending : nodestoadd st ⊆ refs_of nodes;
  inv_done : done st ⊆ refs_of nodes;
  inv_done_node : None ∉ done st;
  inv_generated :
    exists gen,
      serializer st = serializer0 ++ gen
      /\ NoDup gen.*1
      /\ (forall a, a ∈ gen.*1 <-> Some a ∈ done st)
      /\ (forall c, c ∈ gen -> c.2 = nextEntryPoint);
  inv_reach :
    forall a, Some a ∈ done st ∪ nodestoadd st -> reachable nodes seeds a;
  inv_seeds : forall a, Some a ∈ seeds -> Some a ∈ done st ∪ nodestoadd st;
  inv_next :
    forall a nd b,
      Some a ∈ done st -> nodes !! a = Some nd ->
      Some b ∈ values (p4_hlir.next_ nd) ->
      Some b ∈ done st ∪ nodestoadd st
}.

(** What the loop over the header instances leaves behind. *)
Definition stack_wrappers (c : nat) (f : LLVMTypeFactory)
    (l : list p4_hlir.p4_header_instance) : list LLVMHeaderStack :=
  imap (fun i h =>
          new_LLVMHeaderStack h
            ((p4_hlir.base_name h +:+ "_index") +:+ "_" +:+ str (c + i)) f)
    (List.filter (classified_as HeaderStack) l).

Definition metadata_wrappers (f : LLVMTypeFactory)
    (l : list p4_hlir.p4_header_instance) : list LLVMMetadata :=
  map (fun h => new_LLVMMetadata h f) (List.filter (classified_as Metadata) l).

Definition header_wrappers (f : LLVMTypeFactory)
    (l : list p4_hlir.p4_header_instance) : list LLVMHeader :=
  map (fun h => new_LLVMHeader h f) (List.filter (classified_as Header) l).

(** The program after the loops of [construct] over the header instances,
    the parse states and the ingress entry points. *)
Definition collected (self : LLVMProgram) : LLVMProgram :=
  let insts := values (p4_hlir.p4_header_instances (hlir self)) in
  set_entryPoints
    (entryPoints self ++ keys (p4_hlir.p4_ingress_ptr (hlir self)))
    (set_parsers
       (parsers self
          ++ map Build_LLVMParser
               (values (p4_hlir.p4_parse_states (hlir self))))
       (set_headers
          (headers self ++ header_wrappers (typeFactory self) insts)
          (set_metadata
             (metadata self ++ metadata_wrappers (typeFactory self) insts)
             (set_stacks
                (stacks self
                   ++ stack_wrappers (uniqueNameCounter self)
                        (typeFactory self) insts)
                (set_uniqueNameCounter
                   (uniqueNameCounter self
                      + length (List.filter (classified_as HeaderStack) insts))
                   self))))).

(** The program that [construct] leaves when it returns. *)
Definition constructed (self : LLVMProgram) : LLVMProgram :=
  set_deparser (Some {| deparser_hlir := hlir self |})
    (set_egressEntry (p4_hlir.p4_egress_ptr (hlir self)) (collected self)).

(** The outcome of [construct] on a program without calculated field. *)
Definition construct_outcome (hlir : p4_hlir.HLIR) : result unit :=
  match p4_hlir.p4_conditional_nodes hlir with
  | [] => Ok tt
  | _ :: _ => Raise (NameError "llvmConditional")
  end.

(** [h] is the first element of [l] that bears the name. *)
Definition first_match {A} (name_of : A -> string) (name : string)
    (l : list A) (h : A) : Prop :=
  exists l1 l2,
    l = l1 ++ h :: l2 /\ name_of h = name
    /\ Forall (fun x => name_of x <> name) l1.

(** A method leaves [errorCodes] as it found it, whether it returns or
    raises. *)
Definition keeps_errorCodes {A} (m : M A) : Prop :=
  forall self, errorCodes (m self).2 = errorCodes self.

(** How often node [e] was generated in a sequence of calls. *)
Definition times_generated (e : addr) (calls : list (addr * option addr))
    : nat :=
  length (filter (fun c => c.1 = e) calls).

(** The state after [sb.append("(")]. *)
Definition opened (st : utils.be_state) : utils.be_state :=
  {| utils.sb := utils.sb st ++ [utils.JStr "("];
     utils.metadata := utils.metadata st;
     utils.printed := utils.printed st |}.

(** Labels issued for their key by [generateNewName] with a counter value
    of at least [c0]. *)
Definition issued_from (c0 : nat) (m : gmap string string) : Prop :=
  forall k v, m !! k = Some v -> exists c, c0 <= c /\ v = k +:+ "_" +:+ str c.

(** The arguments of the [print] call for node [a]. *)
Definition announcement (nodes : gmap addr p4_hlir.p4_node) (a : addr)
    : list string :=
  ["Generating "; from_option p4_hlir.name "" (nodes !! a)].

(** Node [a] is a seed, or a [next_] value of a node among [earlier]. *)
Definition introduced (nodes : gmap addr p4_hlir.p4_node)
    (seeds : gset (option addr)) (earlier : list addr) (a : addr) : Prop :=
  Some a ∈ seeds
  \/ exists b nd,
       b ∈ earlier /\ nodes !! b = Some nd
       /\ Some a ∈ values (p4_hlir.next_ nd).




(** The size of a JSON value, and the empty lists. *)
Fixpoint jsize (j : utils.json) : nat :=
  match j with
  | utils.JList l => S (list_sum (map jsize l))
  | utils.JDict d => S (list_sum (map (fun kv => jsize (snd kv)) d))
  | _ => 1
  end.

Definition nothing : utils.be_state :=
  {| utils.sb := []; utils.metadata := []; utils.printed := [] |}.

(** [st] with what [d] holds appended to its three lists. *)
Definition extended (st d : utils.be_state) : utils.be_state :=
  {| utils.sb := utils.sb st ++ utils.sb d;
     utils.metadata := utils.metadata st ++ utils.metadata d;
     utils.printed := utils.printed st ++ utils.printed d |}.

(** A statement only appends, and what it appends and whether it raises do
    not depend on what the lists hold. *)
Definition framed (s : utils.stmt) : Prop :=
  forall st,
    s st = match s nothing with
           | Some (r, d) => Some (r, extended st d)
           | None => None
           end.

(** A statement returns or raises. *)
Definition returns (s : utils.stmt) : Prop := forall st, s st <> None.

(** Every outcome of [s] is an outcome of [s']. *)
Definition refines (s s' : utils.stmt) : Prop :=
  forall st r, s st = Some r -> s' st = Some r.

(** Expressions without a ternary operator, as trees, and their JSON. *)
Inductive expr : Type :=
  | field_ref (path : list string)
  | header_ref (name : string)
  | constant (type : string) (value : utils.json)
  | unary (op : string) (rhs : expr)
  | binary (op : string) (lhs rhs : expr).

Fixpoint encode (e : expr) : utils.json :=
  match e with
  | field_ref path =>
      utils.JDict [("type", utils.JStr "field");
                   ("value", utils.JList (utils.JStr <$> path))]
  | header_ref name =>
      utils.JDict [("type", utils.JStr "header"); ("value", utils.JStr name)]
  | constant type value =>
      utils.JDict [("type", utils.JStr type); ("value", value)]
  | unary op rhs =>
      utils.JDict
        [("type", utils.JStr "expression");
         ("value",
          utils.JDict [("op", utils.JStr op); ("left", utils.JNone);
                       ("right", encode rhs)])]
  | binary op lhs rhs =>
      utils.JDict
        [("type", utils.JStr "expression");
         ("value",
          utils.JDict [("op", utils.JStr op); ("left", encode lhs);
                       ("right", encode rhs)])]
  end.

(** The leaves have one of the four constant types and no operator is "?". *)
Fixpoint flattens (e : expr) : bool :=
  match e with
  | field_ref _ | header_ref _ => true
  | constant type _ => bool_decide (type ∈ ["bool"; "hexstr"; "local"; "register"])
  | unary op rhs => negb (String.eqb op "?") && flattens rhs
  | binary op lhs rhs =>
      negb (String.eqb op "?") && flattens lhs && flattens rhs
  end.

Fixpoint height (e : expr) : nat :=
  match e with
  | unary _ rhs => S (height rhs)
  | binary _ lhs rhs => S (Nat.max (height lhs) (height rhs))
  | _ => 1
  end.

(** The parts of a path joined by "$". *)
Fixpoint dollar (path : list string) : string :=
  match path with
  | [] => ""
  | [s] => s
  | s :: path' => s +:+ "$" +:+ dollar path'
  end.

(** The fully parenthesised infix rendering, the fields and headers read,
    and the lines printed. *)
Fixpoint tokens (e : expr) : list utils.json :=
  match e with
  | field_ref path => [utils.JStr (dollar path)]
  | header_ref name => [utils.JStr name]
  | constant _ value => [value]
  | unary op rhs =>
      [utils.JStr "("; utils.JStr op] ++ tokens rhs ++ [utils.JStr ")"]
  | binary op lhs rhs =>
      [utils.JStr "("] ++ tokens lhs ++ [utils.JStr op] ++ tokens rhs
        ++ [utils.JStr ")"]
  end.

Fixpoint operands (e : expr) : list utils.json :=
  match e with
  | field_ref path => [utils.JList (utils.JStr <$> path)]
  | header_ref name => [utils.JStr name]
  | constant _ _ => []
  | unary _ rhs => operands rhs
  | binary _ lhs rhs => operands lhs ++ operands rhs
  end.

Fixpoint prints (e : expr) : list string :=
  match e with
  | unary op rhs =>
      (if String.eqb op "+" || String.eqb op "-"
       then ["expr push back load const"] else [])
        ++ prints rhs
  | binary _ lhs rhs => prints lhs ++ prints rhs
  | _ => []
  end.

(** The types that [build_expression] has a branch for. *)
Definition expression_types : list string :=
  ["expression"; "header"; "field"; "bool"; "hexstr"; "local"; "register"].

(** The parser ops that [state_to_header] is about, and their JSON. *)
Inductive parser_op : Type :=
  | extract (type value : string)
  | other (op : string) (parameters : utils.json).

Definition encode_op (o : parser_op) : utils.json :=
  match o with
  | extract type value =>
      utils.JDict
        [("op", utils.JStr "extract");
         ("parameters",
          utils.JList
            [utils.JDict [("type", utils.JStr type);
                          ("value", utils.JStr value)]])]
  | other op parameters =>
      utils.JDict [("op", utils.JStr op); ("parameters", parameters)]
  end.

Definition not_extract (o : parser_op) : Prop :=
  match o with
  | extract _ _ => True
  | other op _ => op <> "extract"
  end.

(** The entry of the result that an op accounts for. *)
Definition extracted (o : parser_op) : option utils.json :=
  match o with
  | extract type value =>
      if String.eqb type "regular" then Some (utils.JStr value)
      else if String.eqb type "stack" then Some (utils.JStr (value +:+ "[0]"))
      else None
  | other _ _ => None
  end.

(** A set op with its two parameters, and the second wrapping that the
    BMv2 JSON puts around an expression. *)
Definition set_op (dst src : utils.json) : utils.json :=
  utils.JDict [("op", utils.JStr "set"); ("parameters", utils.JList [dst; src])].

Definition wrapped (j : utils.json) : utils.json :=
  utils.JDict [("type", utils.JStr "expression"); ("value", j)].

(** The states have names that are strings. *)
Definition named_states (l : list utils.json) : Prop :=
  Forall (fun s => exists n, utils.getitem s "name" = Ok (utils.JStr n)) l.

(** [config.jsondata['parsers'][0]['parse_states']] is the list [l]. *)
Definition parse_states_of (jsondata : utils.json) (l : list utils.json) : Prop :=
  exists parsers parser,
    utils.getitem jsondata "parsers" = Ok parsers
    /\ utils.getindex parsers 0 = Ok parser
    /\ utils.getitem parser "parse_states" = Ok (utils.JList l).

(** An op that is not a set op. *)
Definition not_set (op : utils.json) : Prop :=
  exists o, utils.getitem op "op" = Ok o /\ utils.eq_str o "set" = false.

(** ** Concrete programs *)

Module Examples.

Definition empty_hlir : p4_hlir.HLIR :=
  {| p4_hlir.p4_field_list_calculations := [];
     p4_hlir.p4_header_instances := [];
     p4_hlir.p4_parse_states := [];
     p4_hlir.p4_ingress_ptr := [];
     p4_hlir.p4_conditional_nodes := [];
     p4_hlir.p4_egress_ptr := None;
     p4_hlir.p4_nodes := ∅ |}.

(** Three node objects that carry the same name. *)
Definition table_t : p4_hlir.p4_node :=
  {| p4_hlir.name := "t"; p4_hlir.class := p4_hlir.p4_table;
     p4_hlir.next_ := [] |}.
Definition cond_t : p4_hlir.p4_node :=
  {| p4_hlir.name := "t"; p4_hlir.class := p4_hlir.p4_conditional_node;
     p4_hlir.next_ := [] |}.
Definition state_t : p4_hlir.p4_node :=
  {| p4_hlir.name := "t"; p4_hlir.class := p4_hlir.p4_parse_state;
     p4_hlir.next_ := [] |}.
Definition table_u : p4_hlir.p4_node :=
  {| p4_hlir.name := "u"; p4_hlir.class := p4_hlir.p4_table;
     p4_hlir.next_ := [] |}.

(** A program with a header, a metadata instance and a two-element header
    stack, and no calculated field. *)
Definition ethernet : p4_hlir.p4_header_instance :=
  {| p4_hlir.hi_name := "ethernet"; p4_hlir.base_name := "ethernet";
     p4_hlir.max_index := None; p4_hlir.index := None;
     p4_hlir.metadata := false |}.
Definition meta : p4_hlir.p4_header_instance :=
  {| p4_hlir.hi_name := "meta"; p4_hlir.base_name := "meta";
     p4_hlir.max_index := None; p4_hlir.index := None;
     p4_hlir.metadata := true |}.
Definition vlan (i : Z) : p4_hlir.p4_header_instance :=
  {| p4_hlir.hi_name := "vlan[" +:+ (if Z.eqb i 0 then "0" else "1") +:+ "]";
     p4_hlir.base_name := "vlan";
     p4_hlir.max_index := Some 1%Z; p4_hlir.index := Some i;
     p4_hlir.metadata := false |}.

Definition hlir_instances : p4_hlir.HLIR :=
  {| p4_hlir.p4_field_list_calculations := [];
     p4_hlir.p4_header_instances :=
       [("ethernet", ethernet); ("vlan[0]", vlan 0); ("vlan[1]", vlan 1);
        ("meta", meta)];
     p4_hlir.p4_parse_states := [];
     p4_hlir.p4_ingress_ptr := [];
     p4_hlir.p4_conditional_nodes := [];
     p4_hlir.p4_egress_ptr := None;
     p4_hlir.p4_nodes := ∅ |}.

(** The same program with one calculated field added. *)
Definition hlir_calculated : p4_hlir.HLIR :=
  {| p4_hlir.p4_field_list_calculations :=
       [("ipv4_checksum", {| p4_hlir.flc_name := "ipv4_checksum" |})];
     p4_hlir.p4_header_instances :=
       [("ethernet", ethernet); ("vlan[0]", vlan 0); ("vlan[1]", vlan 1);
        ("meta", meta)];
     p4_hlir.p4_parse_states := [];
     p4_hlir.p4_ingress_ptr := [];
     p4_hlir.p4_conditional_nodes := [];
     p4_hlir.p4_egress_ptr := None;
     p4_hlir.p4_nodes := ∅ |}.

(** Control-flow graphs.  A diamond: a conditional with two tables that
    both continue with a fourth table, which ends the branch. *)
Definition node (name : string) (class : p4_hlir.p4_class)
    (next_ : list (string * option addr)) : p4_hlir.p4_node :=
  {| p4_hlir.name := name; p4_hlir.class := class; p4_hlir.next_ := next_ |}.

Definition diamond : gmap addr p4_hlir.p4_node :=
  list_to_map
    [ (1%positive,
       node "c1" p4_hlir.p4_conditional_node
         [("True", Some 2%positive); ("False", Some 3%positive)]);
      (2%positive, node "t2" p4_hlir.p4_table [("hit", Some 4%positive)]);
      (3%positive, node "t3" p4_hlir.p4_table [("miss", Some 4%positive)]);
      (4%positive, node "t4" p4_hlir.p4_table [("hit", None)]) ].

(** An ingress table t1 without successor and an egress entry eg. *)
Definition hlir_two_pass : p4_hlir.HLIR :=
  {| p4_hlir.p4_field_list_calculations := [];
     p4_hlir.p4_header_instances := [];
     p4_hlir.p4_parse_states := [];
     p4_hlir.p4_ingress_ptr := [(Some 1%positive, [])];
     p4_hlir.p4_conditional_nodes := [];
     p4_hlir.p4_egress_ptr := Some 2%positive;
     p4_hlir.p4_nodes :=
       list_to_map
         [ (1%positive, node "t1" p4_hlir.p4_table [("hit", None)]);
           (2%positive, node "eg" p4_hlir.p4_table []) ] |}.

(** The same, but t1 continues with the egress entry. *)
Definition hlir_shared : p4_hlir.HLIR :=
  {| p4_hlir.p4_field_list_calculations := [];
     p4_hlir.p4_header_instances := [];
     p4_hlir.p4_parse_states := [];
     p4_hlir.p4_ingress_ptr := [(Some 1%positive, [])];
     p4_hlir.p4_conditional_nodes := [];
     p4_hlir.p4_egress_ptr := Some 2%positive;
     p4_hlir.p4_nodes :=
       list_to_map
         [ (1%positive, node "t1" p4_hlir.p4_table [("hit", Some 2%positive)]);
           (2%positive, node "eg" p4_hlir.p4_table []) ] |}.

(** The instances of [hlir_instances] with the diamond as control flow:
    one conditional node, and the conditional as ingress entry point. *)
Definition hlir_conditional : p4_hlir.HLIR :=
  {| p4_hlir.p4_field_list_calculations := [];
     p4_hlir.p4_header_instances :=
       [("ethernet", ethernet); ("vlan[0]", vlan 0); ("vlan[1]", vlan 1);
        ("meta", meta)];
     p4_hlir.p4_parse_states := [];
     p4_hlir.p4_ingress_ptr := [(Some 1%positive, [])];
     p4_hlir.p4_conditional_nodes := [("c1", 1%positive)];
     p4_hlir.p4_egress_ptr := None;
     p4_hlir.p4_nodes := diamond |}.

Definition program_of (hlir : p4_hlir.HLIR) : LLVMProgram :=
  (LLVMProgram_init "prog" hlir).2.

(** A configuration with one header. *)
Definition jsondata : utils.jsondata_t :=
  {| utils.header_types :=
       [ {| utils.ht_name := "ethernet_t";
            utils.ht_fields :=
              [("dstAddr", 48%Z); ("srcAddr", 48%Z); ("etherType", 16%Z)] |} ];
     utils.headers :=
       [ {| utils.h_name := "ethernet"; utils.h_header_type := "ethernet_t" |} ] |}.

(** Expression nodes: [a + b], a ternary node as the BMv2 JSON has it (the
    condition inside "value"), and one that also has a key "cond" of its
    own. *)
Definition field (h f : string) : utils.json :=
  utils.JDict [("type", utils.JStr "field");
               ("value", utils.JList [utils.JStr h; utils.JStr f])].
Definition hexstr (s : string) : utils.json :=
  utils.JDict [("type", utils.JStr "hexstr"); ("value", utils.JStr s)].
Definition expression (op : string) (l r : utils.json)
    (more : list (string * utils.json)) : utils.json :=
  utils.JDict
    [("type", utils.JStr "expression");
     ("value",
      utils.JDict
        ([("op", utils.JStr op); ("left", l); ("right", r)] ++ more))].

Definition sum_expr : utils.json :=
  expression "+" (field "ipv4" "ttl") (hexstr "0x01") [].
Definition ternary_expr : utils.json :=
  expression "?" (hexstr "0x01") (hexstr "0x02")
    [("cond", field "meta" "flag")].
Definition ternary_cond_outside : utils.json :=
  utils.JDict
    [("type", utils.JStr "expression");
     ("value",
      utils.JDict
        [("op", utils.JStr "?"); ("left", hexstr "0x01");
         ("right", hexstr "0x02")]);
     ("cond", field "meta" "flag")].

Definition no_output : utils.be_state :=
  {| utils.sb := []; utils.metadata := []; utils.printed := [] |}.

(** A parser with two states: start extracts the ethernet header and the
    first element of the vlan stack and sets a field from a field; next
    sets a field from a constant. *)
Definition extract_op (type value : string) : utils.json :=
  utils.JDict
    [("op", utils.JStr "extract");
     ("parameters",
      utils.JList
        [utils.JDict [("type", utils.JStr type); ("value", utils.JStr value)]])].
Definition set (dst src : utils.json) : utils.json :=
  utils.JDict
    [("op", utils.JStr "set"); ("parameters", utils.JList [dst; src])].

Definition state_start : utils.json :=
  utils.JDict
    [("name", utils.JStr "start");
     ("parser_ops",
      utils.JList
        [extract_op "regular" "ethernet"; extract_op "stack" "vlan";
         set (field "meta" "ttl") (field "ipv4" "ttl")])].
Definition state_next : utils.json :=
  utils.JDict
    [("name", utils.JStr "next");
     ("parser_ops",
      utils.JList [set (field "meta" "flag") (hexstr "0x01")])].

Definition parser_config : utils.json :=
  utils.JDict
    [("parsers",
      utils.JList
        [utils.JDict
           [("parse_states", utils.JList [state_start; state_next])]])].

End Examples.

#[local] Set Warnings "-clear-no-such-hyp".

(** * Facts *)

(** ** The name registry *)

Section decimal.

Lemma append_nil s : "" +:+ s = s.
Proof. reflexivity. Qed.

Lemma append_cons x s t : String x s +:+ t = String x (s +:+ t).
Proof. reflexivity. Qed.

Lemma has_char_app c s1 s2 :
  has_char c (s1 +:+ s2) = has_char c s1 || has_char c s2.
Proof.
  induction s1 as [|x s1 IH]; [done|].
  rewrite append_cons. simpl. destruct (Ascii.eqb x c); simpl; auto.
Qed.

Lemma string_of_uint_no_underscore d :
  has_char "_" (NilEmpty.string_of_uint d) = false.
Proof. induction d; simpl; auto. Qed.

Lemma str_no_underscore n : has_char "_" (str n) = false.
Proof.
  unfold str, NilZero.string_of_uint.
  destruct (Nat.to_uint n) eqn:E; try apply string_of_uint_no_underscore.
  reflexivity.
Qed.

Lemma str_inj n m : str n = str m -> n = m.
Proof.
  unfold str. intros E.
  apply Unsigned.to_uint_inj.
  assert (Hn : forall k, Nat.to_uint k <> Nil).
  { intros k Hk. pose proof (Unsigned.of_to k) as H1.
    pose proof (Unsigned.to_of (Nat.to_uint k)) as H2.
    rewrite H1 in H2. rewrite Hk in H2 at 2. simpl in H2.
    rewrite Hk in H2. discriminate. }
  pose proof (NilZero.usu _ (Hn n)) as H1.
  pose proof (NilZero.usu _ (Hn m)) as H2.
  rewrite E in H1. congruence.
Qed.

(** A suffix without underscore is cut off at the last underscore. *)
Lemma suffix_split b1 b2 d1 d2 :
  has_char "_" d1 = false -> has_char "_" d2 = false ->
  b1 +:+ "_" +:+ d1 = b2 +:+ "_" +:+ d2 -> b1 = b2 /\ d1 = d2.
Proof.
  intros H1 H2. revert b2.
  induction b1 as [|x b1 IH]; intros [|y b2] E;
    rewrite ?append_cons, ?append_nil in E.
  - by injection E as ->.
  - injection E as <- E. subst d1.
    rewrite has_char_app, ?append_cons in H1. simpl in H1.
    rewrite orb_true_r in H1. discriminate.
  - injection E as -> E. subst d2.
    rewrite has_char_app, ?append_cons in H2. simpl in H2.
    rewrite orb_true_r in H2. discriminate.
  - injection E as -> E. destruct (IH _ E) as [-> ->]. done.
Qed.

Lemma newName_inj b1 b2 c1 c2 :
  b1 +:+ "_" +:+ str c1 = b2 +:+ "_" +:+ str c2 -> b1 = b2 /\ c1 = c2.
Proof.
  intros E.
  destruct (suffix_split _ _ _ _ (str_no_underscore c1) (str_no_underscore c2) E)
    as [-> E'].
  split; [done|]. by apply str_inj.
Qed.

End decimal.

Lemma generateNewName_eq base self :
  generateNewName base self
  = (Ok (base +:+ "_" +:+ str (uniqueNameCounter self)),
     set_uniqueNameCounter (uniqueNameCounter self + 1) self).
Proof. reflexivity. Qed.

Lemma set_uniqueNameCounter_twice v w self :
  set_uniqueNameCounter v (set_uniqueNameCounter w self)
  = set_uniqueNameCounter v self.
Proof. reflexivity. Qed.

Lemma set_uniqueNameCounter_id self :
  set_uniqueNameCounter (uniqueNameCounter self) self = self.
Proof. by destruct self. Qed.

Lemma generateNewNames_spec bases :
  forall self,
  exists names,
    generateNewNames bases self
    = (Ok names,
       set_uniqueNameCounter (uniqueNameCounter self + length bases) self)
    /\ length names = length bases
    /\ (forall i base, bases !! i = Some base ->
          names !! i = Some (base +:+ "_" +:+ str (uniqueNameCounter self + i))).
Proof.
  induction bases as [|b bases IH]; intros self.
  - exists []. simpl. rewrite Nat.add_0_r, set_uniqueNameCounter_id.
    split; [done|]. split; [done|]. intros i base Hi. by destruct i.
  - destruct (IH (set_uniqueNameCounter (uniqueNameCounter self + 1) self))
      as (names & Hrun & Hlen & Hnth).
    exists ((b +:+ "_" +:+ str (uniqueNameCounter self)) :: names).
    split; [|split].
    + cbn [generateNewNames]. unfold bind at 1. rewrite generateNewName_eq.
      unfold bind at 1. rewrite Hrun. unfold ret. simpl.
      rewrite set_uniqueNameCounter_twice.
      by replace (uniqueNameCounter self + 1 + length bases)
        with (uniqueNameCounter self + S (length bases)) by lia.
    + simpl. by rewrite Hlen.
    + intros [|i] base Hi; simpl in *.
      * injection Hi as ->. by rewrite Nat.add_0_r.
      * rewrite (Hnth _ _ Hi). simpl.
        by replace (uniqueNameCounter self + 1 + i)
          with (uniqueNameCounter self + S i) by lia.
Qed.

(** C4.  Any sequence of calls of generateNewName on one program, whatever
    the bases and however often one base recurs, returns pairwise distinct
    strings; the i-th call returns its base followed by an underscore and
    the decimal counter value, the suffixes of two different calls differ,
    the counter is 0 when the attributes are initialised and every call adds
    exactly one to it and changes nothing else. *)
Theorem generateNewName_fresh (name : string) (hlir : p4_hlir.HLIR)
    (bases : list string) (self : LLVMProgram) :
  uniqueNameCounter (init_attributes name hlir) = 0
  /\ (forall base,
        generateNewName base self
        = (Ok (base +:+ "_" +:+ str (uniqueNameCounter self)),
           set_uniqueNameCounter (uniqueNameCounter self + 1) self))
  /\ exists names self',
       generateNewNames bases self = (Ok names, self')
       /\ NoDup names
       /\ length names = length bases
       /\ (forall i base, bases !! i = Some base ->
             names !! i
             = Some (base +:+ "_" +:+ str (uniqueNameCounter self + i)))
       /\ (forall i j, i <> j ->
             "_" +:+ str (uniqueNameCounter self + i)
             <> "_" +:+ str (uniqueNameCounter self + j))
       /\ uniqueNameCounter self' = uniqueNameCounter self + length bases
       /\ self'
          = set_uniqueNameCounter (uniqueNameCounter self + length bases) self.
Proof.
  split; [reflexivity|]. split; [reflexivity|].
  destruct (generateNewNames_spec bases self) as (names & Hrun & Hlen & Hnth).
  exists names, (set_uniqueNameCounter (uniqueNameCounter self + length bases) self).
  repeat split; try done.
  - apply NoDup_alt. intros i j x Hi Hj.
    destruct (lookup_lt_is_Some_2 bases i) as [bi Hbi];
      [rewrite <- Hlen; by eapply lookup_lt_Some|].
    destruct (lookup_lt_is_Some_2 bases j) as [bj Hbj];
      [rewrite <- Hlen; by eapply lookup_lt_Some|].
    rewrite (Hnth _ _ Hbi) in Hi. rewrite (Hnth _ _ Hbj) in Hj.
    injection Hi as Hi. injection Hj as Hj. rewrite <- Hj in Hi.
    apply newName_inj in Hi as [_ Hi]. lia.
  - intros i j Hij E.
    assert (E' : "" +:+ "_" +:+ str (uniqueNameCounter self + i)
                 = "" +:+ "_" +:+ str (uniqueNameCounter self + j)) by exact E.
    apply newName_inj in E' as [_ E']. lia.
Qed.

(** ** Labels *)

Lemma set_entryPointLabels_id self :
  set_entryPointLabels (entryPointLabels self) self = self.
Proof. by destruct self. Qed.

Lemma getLabel_parse_state nd self :
  p4_hlir.isinstance_p4_parse_state nd = true ->
  getLabel (Some nd) self
  = (Ok (p4_hlir.name nd),
     set_entryPointLabels
       (<[p4_hlir.name nd := p4_hlir.name nd]> (entryPointLabels self)) self).
Proof.
  intros H. unfold getLabel, bind, modify, get, ret. rewrite H. simpl.
  rewrite lookup_insert_eq. simpl. by rewrite lookup_insert_eq.
Qed.

Lemma getLabel_known nd self v :
  p4_hlir.isinstance_p4_parse_state nd = false ->
  entryPointLabels self !! p4_hlir.name nd = Some v ->
  getLabel (Some nd) self = (Ok v, self).
Proof.
  intros H Hv. unfold getLabel, bind, modify, get, ret. rewrite H. simpl.
  rewrite Hv. simpl. by rewrite Hv.
Qed.

Lemma getLabel_new nd self :
  p4_hlir.isinstance_p4_parse_state nd = false ->
  entryPointLabels self !! p4_hlir.name nd = None ->
  getLabel (Some nd) self
  = (Ok (p4_hlir.name nd +:+ "_" +:+ str (uniqueNameCounter self)),
     set_entryPointLabels
       (<[p4_hlir.name nd
          := p4_hlir.name nd +:+ "_" +:+ str (uniqueNameCounter self)]>
          (entryPointLabels self))
       (set_uniqueNameCounter (uniqueNameCounter self + 1) self)).
Proof.
  intros H Hv. unfold getLabel, bind, modify, get, ret. rewrite H. simpl.
  rewrite Hv. unfold generateNewName. simpl. by rewrite lookup_insert_eq.
Qed.

(** What one call does, whatever the node. *)
Lemma getLabel_call nd self :
  exists label self1,
    getLabel (Some nd) self = (Ok label, self1)
    /\ entryPointLabels self1 !! p4_hlir.name nd = Some label
    /\ getLabel (Some nd) self1 = (Ok label, self1)
    /\ (forall k, k <> p4_hlir.name nd ->
          entryPointLabels self1 !! k = entryPointLabels self !! k).
Proof.
  destruct (p4_hlir.isinstance_p4_parse_state nd) eqn:Hps.
  - eexists _, _. split; [by apply getLabel_parse_state|].
    split; [simpl; by rewrite lookup_insert_eq|]. split.
    + rewrite getLabel_parse_state by done. simpl.
      rewrite insert_insert_eq. done.
    + intros k Hk. simpl. by rewrite lookup_insert_ne.
  - destruct (entryPointLabels self !! p4_hlir.name nd) as [v|] eqn:Hv.
    + exists v, self. repeat split; auto using getLabel_known.
    + eexists _, _. split; [by apply getLabel_new|].
      split; [simpl; by rewrite lookup_insert_eq|]. split.
      * apply getLabel_known; [done|]. simpl. by rewrite lookup_insert_eq.
      * intros k Hk. simpl. by rewrite lookup_insert_ne.
Qed.

Lemma getLabels_control_flow nodes :
  Forall (fun nd => p4_hlir.isinstance_p4_parse_state nd = false) nodes ->
  forall self,
    generated_labels (entryPointLabels self) ->
    exists labels self',
      getLabels (Some <$> nodes) self = (Ok labels, self')
      /\ generated_labels (entryPointLabels self')
      /\ entryPointLabels self ⊆ entryPointLabels self'
      /\ length labels = length nodes
      /\ (forall i ni li,
            nodes !! i = Some ni -> labels !! i = Some li ->
            entryPointLabels self' !! p4_hlir.name ni = Some li).
Proof.
  induction 1 as [|nd nodes Hnd Hnodes IH]; intros self Hgen.
  - exists [], self. repeat split; done.
  - destruct (entryPointLabels self !! p4_hlir.name nd) as [v|] eqn:Hv.
    + destruct (IH self Hgen) as (labels & self' & Hrun & Hgen' & Hsub & Hlen & Hnth).
      exists (v :: labels), self'. split; [|repeat split; try done].
      * cbn [fmap list_fmap getLabels]. unfold bind at 1.
        rewrite (getLabel_known _ _ _ Hnd Hv). unfold bind at 1.
        change (list_fmap _ _ Some nodes) with (Some <$> nodes).
        by rewrite Hrun.
      * simpl. by rewrite Hlen.
      * intros [|i] ni li Hi Hli; simpl in *.
        -- injection Hi as <-. injection Hli as <-.
           by eapply lookup_weaken.
        -- by eapply Hnth.
    + set (lbl := p4_hlir.name nd +:+ "_" +:+ str (uniqueNameCounter self)).
      set (self1 := set_entryPointLabels
                      (<[p4_hlir.name nd := lbl]> (entryPointLabels self))
                      (set_uniqueNameCounter (uniqueNameCounter self + 1) self)).
      assert (Hgen1 : generated_labels (entryPointLabels self1)).
      { intros k w. simpl. rewrite lookup_insert. case_decide as Hk.
        - intros [= <-]. subst k. by eexists.
        - apply Hgen. }
      destruct (IH self1 Hgen1)
        as (labels & self' & Hrun & Hgen' & Hsub & Hlen & Hnth).
      exists (lbl :: labels), self'. split; [|repeat split; try done].
      * cbn [fmap list_fmap getLabels]. unfold bind at 1.
        rewrite (getLabel_new _ _ Hnd Hv). unfold bind at 1.
        change (list_fmap _ _ Some nodes) with (Some <$> nodes).
        fold lbl. fold self1. by rewrite Hrun.
      * etrans; [|exact Hsub]. simpl. by apply insert_subseteq.
      * simpl. by rewrite Hlen.
      * intros [|i] ni li Hi Hli; simpl in *.
        -- injection Hi as <-. injection Hli as <-.
           eapply lookup_weaken; [|exact Hsub]. simpl.
           by rewrite lookup_insert_eq.
        -- by eapply Hnth.
Qed.

(** C3, as the code has it.  The label map is keyed by the node's name, not
    by its identity.  The end sentinel yields the literal "end" and leaves
    the program unchanged.  Every other call returns a label and records it
    under the node's name; calling again at once returns the same label and
    changes nothing; entries under other names are never touched.  For a
    node that is not a parse state an existing entry is returned as it is,
    with no change to the program; a parse state always gets its own name.
    Starting from an empty map, in any sequence of calls for nodes that are
    not parse states two calls return the same label exactly when their
    nodes bear the same name. *)
Theorem getLabel_keyed_by_name (nodes : list p4_hlir.p4_node)
    (self : LLVMProgram)
    (Hempty : entryPointLabels self = ∅)
    (Hnodes : Forall (fun nd => p4_hlir.isinstance_p4_parse_state nd = false)
                nodes) :
  (forall self0, getLabel None self0 = (Ok "end", self0))
  /\ (forall nd self0,
        exists label self1,
          getLabel (Some nd) self0 = (Ok label, self1)
          /\ entryPointLabels self1 !! p4_hlir.name nd = Some label
          /\ getLabel (Some nd) self1 = (Ok label, self1)
          /\ (forall k, k <> p4_hlir.name nd ->
                entryPointLabels self1 !! k = entryPointLabels self0 !! k))
  /\ (forall nd self0 v,
        p4_hlir.isinstance_p4_parse_state nd = false ->
        entryPointLabels self0 !! p4_hlir.name nd = Some v ->
        getLabel (Some nd) self0 = (Ok v, self0))
  /\ (forall nd self0,
        p4_hlir.isinstance_p4_parse_state nd = true ->
        (getLabel (Some nd) self0).1 = Ok (p4_hlir.name nd))
  /\ exists labels self',
       getLabels (Some <$> nodes) self = (Ok labels, self')
       /\ length labels = length nodes
       /\ (forall i j ni nj li lj,
             nodes !! i = Some ni -> nodes !! j = Some nj ->
             labels !! i = Some li -> labels !! j = Some lj ->
             (li = lj <-> p4_hlir.name ni = p4_hlir.name nj)).
Proof.
  split; [reflexivity|]. split; [apply getLabel_call|].
  split; [apply getLabel_known|].
  split; [intros nd self0 H; by rewrite getLabel_parse_state|].
  assert (Hgen : generated_labels (entryPointLabels self)).
  { rewrite Hempty. intros k v Hk. by rewrite lookup_empty in Hk. }
  destruct (getLabels_control_flow nodes Hnodes self Hgen)
    as (labels & self' & Hrun & Hgen' & _ & Hlen & Hnth).
  exists labels, self'. split; [done|]. split; [done|].
  intros i j ni nj li lj Hi Hj Hli Hlj.
  pose proof (Hnth _ _ _ Hi Hli) as Hmi.
  pose proof (Hnth _ _ _ Hj Hlj) as Hmj.
  split.
  - intros <-.
    destruct (Hgen' _ _ Hmi) as [c Hc]. destruct (Hgen' _ _ Hmj) as [c' Hc'].
    rewrite Hc in Hc'. by apply newName_inj in Hc' as [? _].
  - intros E. rewrite E in Hmi. congruence.
Qed.

(** Witness of C3: a table "t", a table "u" and a conditional "t", labelled
    on a fresh program. *)
Lemma getLabel_keyed_by_name_witness :
  exists labels self',
    getLabels (Some <$> [Examples.table_t; Examples.table_u; Examples.cond_t])
      (init_attributes "prog" Examples.empty_hlir)
    = (Ok labels, self')
    /\ length labels = 3.
Proof.
  destruct (getLabel_keyed_by_name
              [Examples.table_t; Examples.table_u; Examples.cond_t]
              (init_attributes "prog" Examples.empty_hlir))
    as (_ & _ & _ & _ & labels & self' & Hrun & Hlen & _).
  - reflexivity.
  - repeat constructor.
  - exists labels, self'. split; [exact Hrun | exact Hlen].
Defined.

(** C3, counterexample.  On a fresh program a table and a conditional that
    are distinct objects with the same name receive the same label "t_0";
    a parse state of that name then overwrites the entry with "t", and the
    table, asked again, is now labelled "t". *)
Lemma getLabel_not_keyed_by_identity :
  let self0 := init_attributes "prog" Examples.empty_hlir in
  let r1 := getLabel (Some Examples.table_t) self0 in
  let r2 := getLabel (Some Examples.cond_t) r1.2 in
  let r3 := getLabel (Some Examples.state_t) r2.2 in
  let r4 := getLabel (Some Examples.table_t) r3.2 in
  Examples.table_t <> Examples.cond_t
  /\ r1.1 = Ok "t_0" /\ r2.1 = Ok "t_0"
  /\ entryPointLabels r2.2 !! "t" = Some "t_0"
  /\ r3.1 = Ok "t"
  /\ entryPointLabels r3.2 !! "t" = Some "t"
  /\ r4.1 = Ok "t".
Proof.
  split; [discriminate|]. vm_compute. repeat split.
Qed.

(** ** Construction *)

Lemma for_modify {A} (f : A -> LLVMProgram -> LLVMProgram) (l : list A) self :
  for_ l (fun x => modify (f x)) self = (Ok tt, fold_left (fun s x => f x s) l self).
Proof.
  revert self. induction l as [|x l IH]; intros self; [done|].
  cbn [for_ fold_left]. unfold bind, modify at 1. apply IH.
Qed.

Lemma stack_wrappers_cons_stack c f h l :
  classified_as HeaderStack h = true ->
  stack_wrappers c f (h :: l)
  = new_LLVMHeaderStack h
      ((p4_hlir.base_name h +:+ "_index") +:+ "_" +:+ str c) f
    :: stack_wrappers (c + 1) f l.
Proof.
  intros H. unfold stack_wrappers. simpl. rewrite H. simpl.
  rewrite Nat.add_0_r. f_equal. apply imap_ext. intros i x _. simpl.
  by replace (c + 1 + i) with (c + S i) by lia.
Qed.

Lemma stack_wrappers_cons_other c f h l :
  classified_as HeaderStack h = false ->
  stack_wrappers c f (h :: l) = stack_wrappers c f l.
Proof. intros H. unfold stack_wrappers. simpl. by rewrite H. Qed.

Lemma classify_cases h :
  (classified_as HeaderStack h = true
     /\ classified_as Metadata h = false /\ classified_as Header h = false
     /\ (exists m, p4_hlir.max_index h = Some m) /\ p4_hlir.index h = Some 0%Z)
  \/ (classify h = None
     /\ classified_as HeaderStack h = false
     /\ classified_as Metadata h = false /\ classified_as Header h = false
     /\ (exists m, p4_hlir.max_index h = Some m) /\ p4_hlir.index h <> Some 0%Z)
  \/ (classified_as Metadata h = true
     /\ classified_as HeaderStack h = false /\ classified_as Header h = false
     /\ p4_hlir.max_index h = None /\ p4_hlir.metadata h = true)
  \/ (classified_as Header h = true
     /\ classified_as HeaderStack h = false /\ classified_as Metadata h = false
     /\ p4_hlir.max_index h = None /\ p4_hlir.metadata h = false).
Proof.
  unfold classified_as, classify, isArrayElementInstance.
  destruct (p4_hlir.max_index h) as [m|] eqn:Hm.
  - destruct (decide (p4_hlir.index h = Some 0%Z)) as [Hi|Hi].
    + rewrite (bool_decide_eq_true_2 _ Hi). left. repeat split; eauto.
    + rewrite (bool_decide_eq_false_2 _ Hi). right; left. repeat split; eauto.
  - destruct (p4_hlir.metadata h) eqn:Hmd.
    + right; right; left. repeat split; eauto.
    + right; right; right. repeat split; eauto.
Qed.

Lemma construct_instances_spec l :
  forall self,
    for_ l construct_instance self
    = (Ok tt,
       set_headers (headers self ++ header_wrappers (typeFactory self) l)
         (set_metadata (metadata self ++ metadata_wrappers (typeFactory self) l)
            (set_stacks
               (stacks self
                  ++ stack_wrappers (uniqueNameCounter self) (typeFactory self) l)
               (set_uniqueNameCounter
                  (uniqueNameCounter self
                     + length (List.filter (classified_as HeaderStack) l))
                  self)))).
Proof.
  induction l as [|h l IH]; intros self.
  - simpl. unfold ret, stack_wrappers, metadata_wrappers, header_wrappers. simpl.
    rewrite !app_nil_r, Nat.add_0_r. by destruct self.
  - cbn [for_]. unfold bind at 1.
    unfold header_wrappers, metadata_wrappers.
    destruct (classify_cases h)
      as [(Hs & Hm & Hh & [m Hmax] & Hidx)
         |[(Hn & Hs & Hm & Hh & [m Hmax] & Hidx)
         |[(Hm & Hs & Hh & Hmax & Hmd)|(Hh & Hs & Hm & Hmax & Hmd)]]].
    + rewrite (stack_wrappers_cons_stack _ _ _ _ Hs).
      unfold construct_instance at 1. rewrite Hmax.
      rewrite bool_decide_eq_true_2 by done.
      unfold bind at 1, generateNewName, modify. rewrite IH. simpl.
      rewrite Hs, Hm, Hh. simpl. rewrite <- app_assoc. simpl.
      by replace (uniqueNameCounter self + 1
                  + length (List.filter (classified_as HeaderStack) l))
        with (uniqueNameCounter self
              + S (length (List.filter (classified_as HeaderStack) l))) by lia.
    + rewrite (stack_wrappers_cons_other _ _ _ _ Hs).
      unfold construct_instance at 1. rewrite Hmax.
      rewrite bool_decide_eq_false_2 by done.
      unfold ret. rewrite IH. simpl. by rewrite Hs, Hm, Hh.
    + rewrite (stack_wrappers_cons_other _ _ _ _ Hs).
      unfold construct_instance at 1. rewrite Hmax, Hmd.
      unfold modify. rewrite IH. simpl. rewrite Hs, Hm, Hh. simpl.
      by rewrite <- app_assoc.
    + rewrite (stack_wrappers_cons_other _ _ _ _ Hs).
      unfold construct_instance at 1. rewrite Hmax, Hmd.
      unfold modify. rewrite IH. simpl. rewrite Hs, Hm, Hh. simpl.
      by rewrite <- app_assoc.
Qed.

Lemma fold_parsers l self :
  fold_left
    (fun s p => set_parsers (parsers s ++ [ {| parser_hlirParser := p |} ]) s)
    l self
  = set_parsers (parsers self ++ map Build_LLVMParser l) self.
Proof.
  revert self. induction l as [|p l IH]; intros self; simpl.
  - rewrite app_nil_r. by destruct self.
  - rewrite IH. simpl. by rewrite <- app_assoc.
Qed.

Lemma fold_entryPoints l self :
  fold_left (fun s n => set_entryPoints (entryPoints s ++ [n]) s) l self
  = set_entryPoints (entryPoints self ++ l) self.
Proof.
  revert self. induction l as [|p l IH]; intros self; simpl.
  - rewrite app_nil_r. by destruct self.
  - rewrite IH. simpl. by rewrite <- app_assoc.
Qed.

Lemma construct_loops self :
  p4_hlir.p4_field_list_calculations (hlir self) = [] ->
  construct self
  = (do_ for_ (values (p4_hlir.p4_conditional_nodes (hlir self))) (fun n =>
           raise (NameError "llvmConditional"));
     do_ modify (fun self =>
           set_egressEntry (p4_hlir.p4_egress_ptr (hlir self)) self);
     modify (fun self =>
       set_deparser (Some {| deparser_hlir := hlir self |}) self))
      (collected self).
Proof.
  intros Hcalc. unfold construct, bind at 1, get. unfold bind at 1.
  rewrite Hcalc. rewrite bool_decide_eq_false_2 by (simpl; lia).
  unfold ret at 1. unfold bind at 1. rewrite construct_instances_spec.
  unfold bind at 1. rewrite for_modify, fold_parsers.
  unfold bind at 1. rewrite for_modify, fold_entryPoints.
  reflexivity.
Qed.

Lemma construct_supported self :
  p4_hlir.p4_field_list_calculations (hlir self) = [] ->
  p4_hlir.p4_conditional_nodes (hlir self) = [] ->
  construct self = (Ok tt, constructed self).
Proof.
  intros Hcalc Hcond. rewrite (construct_loops _ Hcalc), Hcond.
  unfold bind, modify, constructed. simpl. reflexivity.
Qed.

Lemma construct_unbound self :
  p4_hlir.p4_field_list_calculations (hlir self) = [] ->
  p4_hlir.p4_conditional_nodes (hlir self) <> [] ->
  construct self = (Raise (NameError "llvmConditional"), collected self).
Proof.
  intros Hcalc Hcond. rewrite (construct_loops _ Hcalc).
  destruct (p4_hlir.p4_conditional_nodes (hlir self)) as [|[k n] l]; [done|].
  reflexivity.
Qed.

Lemma construct_without_calculated self :
  p4_hlir.p4_field_list_calculations (hlir self) = [] ->
  construct self
  = (construct_outcome (hlir self),
     match p4_hlir.p4_conditional_nodes (hlir self) with
     | [] => constructed self
     | _ :: _ => collected self
     end).
Proof.
  intros Hcalc. unfold construct_outcome.
  destruct (p4_hlir.p4_conditional_nodes (hlir self)) as [|kn l] eqn:Hcond.
  - by apply construct_supported.
  - apply construct_unbound; [done|]. by rewrite Hcond.
Qed.

Lemma construct_init_attributes name h :
  p4_hlir.p4_field_list_calculations h = [] ->
  exists self',
    construct (init_attributes name h) = (construct_outcome h, self')
    /\ stacks self'
       = stack_wrappers 0 Build_LLVMTypeFactory
           (values (p4_hlir.p4_header_instances h))
    /\ metadata self'
       = metadata_wrappers Build_LLVMTypeFactory
           (values (p4_hlir.p4_header_instances h))
    /\ headers self'
       = header_wrappers Build_LLVMTypeFactory
           (values (p4_hlir.p4_header_instances h))
    /\ uniqueNameCounter self'
       = length (List.filter (classified_as HeaderStack)
                   (values (p4_hlir.p4_header_instances h))).
Proof.
  intros Hcalc.
  rewrite (construct_without_calculated (init_attributes name h) Hcalc).
  change (hlir (init_attributes name h)) with h.
  destruct (p4_hlir.p4_conditional_nodes h); eexists; by repeat split.
Qed.

Lemma construct_raises_first self k c rest :
  p4_hlir.p4_field_list_calculations (hlir self) = (k, c) :: rest ->
  construct self
  = (Raise (NotSupportedException "{0} calculated field" (p4_hlir.flc_name c)),
     self).
Proof.
  intros Hcalc. unfold construct, bind at 1, get. unfold bind at 1.
  rewrite Hcalc. rewrite bool_decide_eq_true_2 by (simpl; lia).
  reflexivity.
Qed.

(** C5.  The loop of construct over the header instances classifies every
    set of instances totally and exclusively: the stacks are exactly the
    wrappers of the array-indexed instances with index zero, in order, each
    with the fresh index-variable name that the name registry issued for it
    (one per stack); the metadata are exactly the wrappers of the
    metadata-flagged instances that are not array-indexed; the headers are
    exactly the wrappers of all remaining instances that are not
    array-indexed; an array-indexed instance with another index has no
    wrapper; no instance falls into two classes.  On a program without
    calculated field construct runs this loop, and what it leaves in the
    three collections is what the loop left there, whether construct then
    returns or, the HLIR having a conditional node, raises the NameError of
    the unbound name llvmConditional. *)
Theorem construct_classifies (name : string) (hlir : p4_hlir.HLIR) :
  let self0 := init_attributes name hlir in
  let insts := values (p4_hlir.p4_header_instances hlir) in
  exists self1,
    for_ insts construct_instance self0 = (Ok tt, self1)
    /\ stacks self1
       = imap (fun i h =>
                 new_LLVMHeaderStack h
                   ((p4_hlir.base_name h +:+ "_index") +:+ "_" +:+ str i)
                   Build_LLVMTypeFactory)
           (List.filter (classified_as HeaderStack) insts)
    /\ metadata self1
       = map (fun h => new_LLVMMetadata h Build_LLVMTypeFactory)
           (List.filter (classified_as Metadata) insts)
    /\ headers self1
       = map (fun h => new_LLVMHeader h Build_LLVMTypeFactory)
           (List.filter (classified_as Header) insts)
    /\ uniqueNameCounter self1 = length (stacks self1)
    /\ length (stacks self1) + length (metadata self1) + length (headers self1)
       + length (List.filter (fun h => bool_decide (classify h = None)) insts)
       = length insts
    /\ (forall h,
          (classify h = Some HeaderStack <->
             p4_hlir.max_index h <> None /\ p4_hlir.index h = Some 0%Z)
          /\ (classify h = None <->
                p4_hlir.max_index h <> None /\ p4_hlir.index h <> Some 0%Z)
          /\ (classify h = Some Metadata <->
                p4_hlir.max_index h = None /\ p4_hlir.metadata h = true)
          /\ (classify h = Some Header <->
                p4_hlir.max_index h = None /\ p4_hlir.metadata h = false))
    /\ (p4_hlir.p4_field_list_calculations hlir = [] ->
        exists self',
          construct self0 = (construct_outcome hlir, self')
          /\ stacks self' = stacks self1
          /\ metadata self' = metadata self1
          /\ headers self' = headers self1
          /\ uniqueNameCounter self' = uniqueNameCounter self1).
Proof.
  intros self0 insts. eexists.
  split; [apply construct_instances_spec|].
  split; [reflexivity|]. split; [reflexivity|]. split; [reflexivity|].
  split; [|split; [|split]].
  - simpl. unfold stack_wrappers. by rewrite length_imap.
  - simpl. unfold stack_wrappers, metadata_wrappers, header_wrappers.
    rewrite length_imap, !length_map. fold insts.
    induction insts as [|h l IH]; [done|]. simpl.
    destruct (classify_cases h)
      as [(Hs & Hm & Hh & _)
         |[(Hn & Hs & Hm & Hh & _)
         |[(Hm & Hs & Hh & _)|(Hh & Hs & Hm & _)]]];
      rewrite Hs, Hm, Hh; unfold classified_as in *;
      repeat case_bool_decide; simpl; try congruence; lia.
  - intros h. unfold classify, isArrayElementInstance.
    destruct (p4_hlir.max_index h) as [m|];
      [case_bool_decide|destruct (p4_hlir.metadata h)];
      repeat split; try done; try tauto; intros [? ?]; congruence.
  - intros Hcalc.
    destruct (construct_init_attributes name hlir Hcalc)
      as (self' & Hrun & Hs & Hm & Hh & Hc).
    exists self'. unfold self0. rewrite Hrun, Hs, Hm, Hh, Hc.
    by repeat split.
Qed.

(** Witness of C5: a header, a two-element stack and a metadata instance,
    in a program with a conditional node. *)
Lemma construct_classifies_witness :
  exists self',
    construct (init_attributes "prog" Examples.hlir_conditional)
    = (Raise (NameError "llvmConditional"), self')
    /\ map stk_indexVar (stacks self') = ["vlan_index_0"]
    /\ map md_hlirInstance (metadata self') = [Examples.meta]
    /\ map hdr_hlirInstance (headers self') = [Examples.ethernet].
Proof.
  destruct (construct_classifies "prog" Examples.hlir_conditional)
    as (self1 & _ & Hs & Hm & Hh & _ & _ & _ & Hrun).
  destruct (Hrun eq_refl) as (self' & Hc & Hs' & Hm' & Hh' & _).
  exists self'. rewrite Hs', Hm', Hh', Hs, Hm, Hh.
  split; [exact Hc|]. by vm_compute.
Defined.

(** The same instances in a program without conditional node. *)
Example construct_returns :
  exists self',
    construct (init_attributes "prog" Examples.hlir_instances) = (Ok tt, self')
    /\ map stk_indexVar (stacks self') = ["vlan_index_0"]
    /\ map md_hlirInstance (metadata self') = [Examples.meta]
    /\ map hdr_hlirInstance (headers self') = [Examples.ethernet].
Proof. eexists. split; [reflexivity|]. by vm_compute. Qed.

(** C6.  Construction raises the unsupported-feature exception exactly when
    the HLIR has a calculated field, whatever else the HLIR holds, and the
    exception names the first calculated field; the check runs before
    anything is built, so the program is then still as its attributes were
    initialised, every collection empty, and the constructor of the class
    ends with the same exception and program.  Without calculated field
    construct never raises that exception: it returns, or raises the
    NameError of the unbound name llvmConditional when the HLIR has a
    conditional node. *)
Theorem construct_unsupported (name : string) (hlir : p4_hlir.HLIR) :
  let self0 := init_attributes name hlir in
  (forall fmt arg,
     (construct self0).1 = Raise (NotSupportedException fmt arg) <->
     exists k c rest,
       p4_hlir.p4_field_list_calculations hlir = (k, c) :: rest
       /\ fmt = "{0} calculated field" /\ arg = p4_hlir.flc_name c)
  /\ ((exists fmt arg,
         (construct self0).1 = Raise (NotSupportedException fmt arg)) <->
      p4_hlir.p4_field_list_calculations hlir <> [])
  /\ (p4_hlir.p4_field_list_calculations hlir <> [] ->
      (construct self0).2 = self0
      /\ LLVMProgram_init name hlir = construct self0)
  /\ (headers self0 = [] /\ metadata self0 = [] /\ stacks self0 = []
      /\ parsers self0 = [] /\ conditionals self0 = [] /\ tables self0 = []
      /\ actions self0 = [] /\ counters self0 = [] /\ entryPoints self0 = []
      /\ entryPointLabels self0 = ∅ /\ deparser self0 = None
      /\ egressEntry self0 = None)
  /\ (p4_hlir.p4_field_list_calculations hlir = [] ->
      (construct self0).1 = construct_outcome hlir).
Proof.
  intros self0.
  destruct (p4_hlir.p4_field_list_calculations hlir) as [|[k c] rest] eqn:Hcalc.
  - destruct (construct_init_attributes name hlir Hcalc) as (self' & Hrun & _).
    fold self0 in Hrun.
    assert (Hno : forall fmt arg,
              (construct self0).1 <> Raise (NotSupportedException fmt arg)).
    { intros fmt arg. rewrite Hrun. unfold construct_outcome. simpl.
      by destruct (p4_hlir.p4_conditional_nodes hlir). }
    split; [|split; [|split; [|split]]].
    + intros fmt arg. split; [by intros ?%Hno|].
      by intros (? & ? & ? & ? & _).
    + split; [by intros (fmt & arg & ?%Hno)|done].
    + done.
    + by repeat split.
    + intros _. by rewrite Hrun.
  - assert (Hrun := construct_raises_first self0 k c rest Hcalc).
    split; [|split; [|split; [|split]]].
    + intros fmt arg. rewrite Hrun. simpl. split.
      * intros [= <- <-]. by exists k, c, rest.
      * intros (k' & c' & rest' & [= -> -> ->] & -> & ->). done.
    + rewrite Hrun. simpl. split; [done|]. intros _. by eexists _, _.
    + intros _. split; [by rewrite Hrun|].
      unfold LLVMProgram_init, bind. fold self0. by rewrite Hrun.
    + by repeat split.
    + done.
Qed.

(** Witness of C6: a program with one calculated field, the same program
    without it, and a program with a conditional node. *)
Lemma construct_unsupported_witness :
  (construct (init_attributes "prog" Examples.hlir_calculated)).1
  = Raise (NotSupportedException "{0} calculated field" "ipv4_checksum")
  /\ (construct (init_attributes "prog" Examples.hlir_calculated)).2
     = init_attributes "prog" Examples.hlir_calculated
  /\ (construct (init_attributes "prog" Examples.hlir_instances)).1 = Ok tt
  /\ (construct (init_attributes "prog" Examples.hlir_conditional)).1
     = Raise (NameError "llvmConditional").
Proof.
  destruct (construct_unsupported "prog" Examples.hlir_calculated)
    as (Hraise & _ & Hstate & _).
  destruct (construct_unsupported "prog" Examples.hlir_instances)
    as (_ & _ & _ & _ & Hok).
  destruct (construct_unsupported "prog" Examples.hlir_conditional)
    as (_ & _ & _ & _ & Hname).
  split; [|split; [|split]].
  - apply Hraise. by eexists _, _, _.
  - apply Hstate. discriminate.
  - apply Hok. reflexivity.
  - apply Hname. reflexivity.
Defined.

(** ** Lookups *)

Lemma first_named_Some {A} (name_of : A -> string) name l h :
  first_named name_of name l = Some h <-> first_match name_of name l h.
Proof.
  induction l as [|x l IH]; simpl.
  - split; [done|]. intros (l1 & l2 & E & _). by destruct l1.
  - case_bool_decide as Hx.
    + split.
      * intros [= ->]. by exists [], l.
      * intros ([|y l1] & l2 & E & Hn & Hl1); simplify_eq/=; [done|].
        by inversion Hl1.
    + rewrite IH. split.
      * intros (l1 & l2 & -> & Hn & Hl1). exists (x :: l1), l2.
        split; [done|]. split; [done|]. by constructor.
      * intros ([|y l1] & l2 & E & Hn & Hl1); simplify_eq/=.
        exists l1, l2. split; [done|]. split; [done|]. by inversion Hl1.
Qed.

Lemma first_named_None {A} (name_of : A -> string) name l :
  first_named name_of name l = None <-> Forall (fun x => name_of x <> name) l.
Proof.
  induction l as [|x l IH]; simpl; [done|].
  case_bool_decide as Hx.
  - split; [done|]. intros H. by inversion H.
  - rewrite IH. split; [by constructor|]. intros H. by inversion H.
Qed.

Lemma lookup_result {A} (name_of : A -> string) name l (e : exn) :
  let r := match first_named name_of name l with
           | Some h => Ok h
           | None => Raise e
           end in
  (forall h, r = Ok h <-> first_match name_of name l h)
  /\ (forall e', r = Raise e' <->
        e' = e /\ Forall (fun x => name_of x <> name) l).
Proof.
  simpl. destruct (first_named name_of name l) as [h0|] eqn:E.
  - split.
    + intros h. rewrite <- first_named_Some, E. split; congruence.
    + intros e'. rewrite <- first_named_None, E. split; [done|]. by intros [_ ?].
  - split.
    + intros h. rewrite <- first_named_Some, E. split; congruence.
    + intros e'. rewrite <- first_named_None, E. split; [|intros [-> _]; done].
      by intros [= <-].
Qed.

(** C7.  Each lookup returns the first element of its collection that bears
    the name, getInstance taking the headers before the metadata, and raises
    the compilation exception with the message of its entity kind and the
    requested name exactly when no element of the scanned collections bears
    the name. *)
Theorem lookups_first_match (name : string) (self : LLVMProgram) :
  (forall h, getStackInstance name self = Ok h <->
             first_match stk_name name (stacks self) h)
  /\ (forall e, getStackInstance name self = Raise e <->
        e = CompilationException true
              "Could not locate header stack named {0}" name
        /\ Forall (fun x => stk_name x <> name) (stacks self))
  /\ (forall h, getHeaderInstance name self = Ok h <->
                first_match hdr_name name (headers self) h)
  /\ (forall e, getHeaderInstance name self = Raise e <->
        e = CompilationException true
              "Could not locate header instance named {0}" name
        /\ Forall (fun x => hdr_name x <> name) (headers self))
  /\ (forall h, getInstance name self = Ok (a_header h) <->
                first_match hdr_name name (headers self) h)
  /\ (forall m, getInstance name self = Ok (a_metadata m) <->
                Forall (fun x => hdr_name x <> name) (headers self)
                /\ first_match md_name name (metadata self) m)
  /\ (forall e, getInstance name self = Raise e <->
        e = CompilationException true "Could not locate instance named {0}" name
        /\ Forall (fun x => hdr_name x <> name) (headers self)
        /\ Forall (fun x => md_name x <> name) (metadata self))
  /\ (forall t, getTable name self = Ok t <->
                first_match table_name name (tables self) t)
  /\ (forall e, getTable name self = Raise e <->
        e = CompilationException true "Could not locate table named {0}" name
        /\ Forall (fun x => table_name x <> name) (tables self))
  /\ (forall c, getConditional name self = Ok c <->
                first_match cond_name name (conditionals self) c)
  /\ (forall e, getConditional name self = Raise e <->
        e = CompilationException true
              "Could not locate conditional named {0}" name
        /\ Forall (fun x => cond_name x <> name) (conditionals self)).
Proof.
  split; [apply lookup_result|]. split; [apply lookup_result|].
  split; [apply lookup_result|]. split; [apply lookup_result|].
  split; [|split; [|split]].
  - intros h. unfold getInstance. rewrite <- first_named_Some.
    destruct (first_named hdr_name name (headers self)); [split; congruence|].
    destruct (first_named md_name name (metadata self)); split; congruence.
  - intros m. unfold getInstance.
    rewrite <- first_named_Some, <- first_named_None.
    destruct (first_named hdr_name name (headers self));
      [split; [done|by intros [? _]]|].
    destruct (first_named md_name name (metadata self)).
    + split; [by intros [= ->]|by intros [_ [= ->]]].
    + split; [done|by intros [_ ?]].
  - intros e. unfold getInstance. rewrite <- !first_named_None.
    destruct (first_named hdr_name name (headers self));
      [split; [done|by intros (_ & ? & _)]|].
    destruct (first_named md_name name (metadata self)).
    + split; [done|by intros (_ & _ & ?)].
    + split; [by intros [= <-]|by intros (-> & _)].
  - split; [apply lookup_result|]. split; [apply lookup_result|].
    split; apply lookup_result.
Qed.

(** ** The error codes *)

Lemma keeps_ret {A} (a : A) : keeps_errorCodes (ret a).
Proof. done. Qed.

Lemma keeps_raise {A} e : keeps_errorCodes (@raise A e).
Proof. done. Qed.

Lemma keeps_get : keeps_errorCodes get.
Proof. done. Qed.

Lemma keeps_bind {A B} (m : M A) (k : A -> M B) :
  keeps_errorCodes m -> (forall a, keeps_errorCodes (k a)) ->
  keeps_errorCodes (bind m k).
Proof.
  intros Hm Hk self. unfold bind. specialize (Hm self).
  destruct (m self) as [[a|e] self1]; simpl in *; [|done].
  by rewrite Hk.
Qed.

Lemma keeps_modify f :
  (forall self, errorCodes (f self) = errorCodes self) ->
  keeps_errorCodes (modify f).
Proof. intros H self. apply H. Qed.

Lemma keeps_for {A} (l : list A) body :
  (forall x, keeps_errorCodes (body x)) -> keeps_errorCodes (for_ l body).
Proof.
  intros H. induction l as [|x l IH]; simpl; [apply keeps_ret|].
  apply keeps_bind; auto.
Qed.

Lemma keeps_generateNewName base : keeps_errorCodes (generateNewName base).
Proof. done. Qed.

Create HintDb keeps.
#[local] Hint Resolve keeps_ret keeps_raise keeps_get keeps_modify keeps_for
  keeps_generateNewName : keeps.

Ltac keeps :=
  repeat first
    [ apply keeps_bind; [|intros ?]
    | apply keeps_for; intros ?
    | apply keeps_modify; intros ?; reflexivity
    | match goal with
      | |- keeps_errorCodes (if ?b then _ else _) => destruct b
      | |- keeps_errorCodes (match ?x with _ => _ end) => destruct x
      end
    | solve [auto with keeps] ].

Lemma keeps_getLabel n : keeps_errorCodes (getLabel n).
Proof. unfold getLabel. keeps. Qed.

Lemma keeps_construct : keeps_errorCodes construct.
Proof. unfold construct, construct_instance. keeps. Qed.

(** C8.  The error codes of a program are the seven names below, in this
    order, from the initialisation of its attributes on; construct, the
    constructor as a whole, generateNewName and getLabel, which are the
    methods that assign attributes of the program, leave the list as it is,
    whether they return or raise. *)
Theorem errorCodes_fixed (name : string) (hlir : p4_hlir.HLIR) :
  errorCodes (init_attributes name hlir)
  = [ "p4_pe_no_error"; "p4_pe_index_out_of_bounds"; "p4_pe_out_of_packet";
      "p4_pe_header_too_long"; "p4_pe_header_too_short";
      "p4_pe_unhandled_select"; "p4_pe_checksum" ]
  /\ length (errorCodes (init_attributes name hlir)) = 7
  /\ errorCodes (LLVMProgram_init name hlir).2
     = errorCodes (init_attributes name hlir)
  /\ (forall self, errorCodes (construct self).2 = errorCodes self)
  /\ (forall base self,
        errorCodes (generateNewName base self).2 = errorCodes self)
  /\ (forall p4node self, errorCodes (getLabel p4node self).2 = errorCodes self).
Proof.
  split; [reflexivity|]. split; [reflexivity|]. split; [|split; [|split]].
  - unfold LLVMProgram_init.
    apply (keeps_bind construct); [apply keeps_construct|].
    intros _. by apply keeps_modify.
  - apply keeps_construct.
  - intros base. apply keeps_generateNewName.
  - intros n. apply keeps_getLabel.
Qed.

(** ** Control-flow linearization *)

Section pass.

Variable nodes : gmap addr p4_hlir.p4_node.
Variable nextEntryPoint : option addr.
Variable seeds : gset (option addr).
Variable serializer0 : serializer_t.

Hypothesis nodes_closed : closed nodes.

Lemma elem_of_refs_of r : r ∈ refs_of nodes <-> valid_ref nodes r.
Proof.
  unfold refs_of, valid_ref. rewrite elem_of_union, elem_of_singleton.
  rewrite elem_of_map. destruct r as [a|].
  - split.
    + intros [?|(b & [= ->] & Hb)]; [done|]. by apply elem_of_dom.
    + intros Ha. right. exists a. split; [done|]. by apply elem_of_dom.
  - split; [done|]. by left.
Qed.

Lemma next_valid a nd r :
  nodes !! a = Some nd -> r ∈ values (p4_hlir.next_ nd) -> r ∈ refs_of nodes.
Proof.
  intros Ha Hr. apply elem_of_refs_of.
  pose proof (nodes_closed a nd Ha) as Hall. simpl in Hall.
  rewrite Forall_forall in Hall. by apply Hall.
Qed.

Lemma pass_inv_start stdout0 :
  seeds ⊆ refs_of nodes -> pass_inv nodes nextEntryPoint seeds serializer0 (pass_start serializer0 stdout0 seeds).
Proof.
  intros Hseeds. split; simpl.
  - done.
  - set_solver.
  - set_solver.
  - exists []. rewrite app_nil_r. split; [done|]. split; [constructor|].
    split; [|intros c Hc; by apply elem_of_nil in Hc].
    intros a. simpl. rewrite elem_of_nil. set_solver.
  - intros a Ha. apply reachable_seed. set_solver.
  - set_solver.
  - set_solver.
Qed.

(** An element that is popped and found visited, or null, is dropped. *)
Lemma loop_body_discard todo st :
  todo ∈ done st \/ todo = None -> loop_body nodes nextEntryPoint todo st = Ok st.
Proof.
  intros [H| ->]; unfold loop_body.
  - by rewrite bool_decide_eq_true_2.
  - by case_bool_decide.
Qed.

Lemma loop_body_visit a nd st :
  Some a ∉ done st -> nodes !! a = Some nd ->
  loop_body nodes nextEntryPoint (Some a) st
  = Ok {| stdout := stdout st ++ [["Generating "; p4_hlir.name nd]];
          done := done st ∪ {[Some a]};
          serializer :=
            generateControlFlowNode (serializer st) a nextEntryPoint;
          nodestoadd :=
            nodestoadd st ∪ list_to_set (values (p4_hlir.next_ nd)) |}.
Proof.
  intros Hd Ha. unfold loop_body. rewrite bool_decide_eq_false_2 by done.
  by rewrite Ha.
Qed.

Lemma measure_discard todo st :
  todo ∈ nodestoadd st -> measure nodes (pop todo st) < measure nodes st.
Proof.
  intros Hin. unfold measure. simpl.
  assert (size (nodestoadd st ∖ {[todo]}) < size (nodestoadd st)); [|lia].
  apply subset_size. set_solver.
Qed.

Lemma measure_visit todo st st' :
  nodestoadd st' ⊆ refs_of nodes ->
  todo ∈ refs_of nodes -> todo ∉ done st ->
  done st' = done st ∪ {[todo]} ->
  measure nodes st' < measure nodes st.
Proof.
  intros Hsub Hin Hnot Hdone. unfold measure. rewrite Hdone.
  assert (H1 : size (refs_of nodes ∖ (done st ∪ {[todo]}))
               < size (refs_of nodes ∖ done st)).
  { apply subset_size. set_solver. }
  assert (H2 : size (nodestoadd st') <= size (refs_of nodes))
    by by apply subseteq_size.
  nia.
Qed.

(** One iteration, whichever element is popped: no exception, the
    invariant again, and a smaller measure. *)
Lemma pass_inv_step st todo :
  pass_inv nodes nextEntryPoint seeds serializer0 st -> todo ∈ nodestoadd st ->
  exists st',
    loop_body nodes nextEntryPoint todo (pop todo st) = Ok st'
    /\ pass_inv nodes nextEntryPoint seeds serializer0 st' /\ measure nodes st' < measure nodes st.
Proof.
  intros [Hpend Hdone Hnone (gen & Hser & Hnd & Hgen & Hnep) Hreach Hseeds Hnext] Hin.
  destruct (decide (todo ∈ done st)) as [Hvis|Hvis].
  { exists (pop todo st). split; [by apply loop_body_discard; left|].
    split; [|by apply measure_discard].
    split; simpl; try done.
    - set_solver.
    - by exists gen.
    - intros a Ha. apply Hreach. set_solver.
    - intros a Ha. specialize (Hseeds a Ha).
      destruct (decide (Some a = todo)) as [<-|]; set_solver.
    - intros a nd b Ha Hnd' Hb. specialize (Hnext a nd b Ha Hnd' Hb).
      destruct (decide (Some b = todo)) as [<-|]; set_solver. }
  destruct todo as [a|].
  2:{ exists (pop None st). split; [by apply loop_body_discard; right|].
      split; [|by apply measure_discard].
      split; simpl; try done.
      - set_solver.
      - by exists gen.
      - intros a Ha. apply Hreach. set_solver.
      - intros a Ha. specialize (Hseeds a Ha). set_solver.
      - intros a nd b Ha Hnd' Hb. specialize (Hnext a nd b Ha Hnd' Hb).
        set_solver. }
  assert (Hvalid : Some a ∈ refs_of nodes) by set_solver.
  apply elem_of_refs_of in Hvalid as [nd Ha].
  eexists. split; [by apply loop_body_visit|].
  assert (Hnextsub : (list_to_set (values (p4_hlir.next_ nd)) : gset _)
                     ⊆ refs_of nodes).
  { intros r Hr. apply elem_of_list_to_set in Hr. by eapply next_valid. }
  split.
  - split; simpl.
    + set_solver.
    + assert (Some a ∈ refs_of nodes) by set_solver. set_solver.
    + set_solver.
    + exists (gen ++ [(a, nextEntryPoint)]).
      unfold generateControlFlowNode. rewrite Hser, <- app_assoc.
      split; [done|]. rewrite fmap_app. simpl. split; [|split].
      * apply NoDup_app. split; [done|]. split; [|apply NoDup_singleton].
        intros x Hx Hx'. apply list_elem_of_singleton in Hx' as ->.
        apply Hgen in Hx. done.
      * intros x. rewrite elem_of_app, list_elem_of_singleton, Hgen. set_solver.
      * intros c Hc. apply elem_of_app in Hc as [Hc|Hc]; [by apply Hnep|].
        by apply list_elem_of_singleton in Hc as ->.
    + intros b Hb.
      apply elem_of_union in Hb as [Hb|Hb].
      * apply elem_of_union in Hb as [Hb|Hb]; [apply Hreach; set_solver|].
        apply elem_of_singleton in Hb as [= ->]. apply Hreach. set_solver.
      * apply elem_of_union in Hb as [Hb|Hb]; [apply Hreach; set_solver|].
        apply elem_of_list_to_set in Hb.
        eapply reachable_next; [|exact Ha|exact Hb]. apply Hreach. set_solver.
    + intros b Hb. specialize (Hseeds b Hb).
      destruct (decide (b = a)) as [->|]; set_solver.
    + intros b nd' c Hb Hnd' Hc.
      apply elem_of_union in Hb as [Hb|Hb].
      * specialize (Hnext b nd' c Hb Hnd' Hc).
        destruct (decide (c = a)) as [->|]; set_solver.
      * apply elem_of_singleton in Hb as [= ->]. simplify_eq.
        apply elem_of_union. right. apply elem_of_union. right.
        by apply elem_of_list_to_set.
  - eapply Nat.lt_trans; [|by apply (measure_discard (Some a))].
    eapply (measure_visit (Some a) (pop (Some a) st)); simpl; try done.
    + set_solver.
    + apply elem_of_refs_of. by eexists.
Qed.

Lemma while_correct st r :
  pass_inv nodes nextEntryPoint seeds serializer0 st -> while_nodestoadd nodes nextEntryPoint st r ->
  exists st', r = Ok st' /\ pass_inv nodes nextEntryPoint seeds serializer0 st' /\ nodestoadd st' = ∅.
Proof.
  intros Hinv Hrun. induction Hrun as [st Hempty|st todo st' r Hin Hbody _ IH|st todo e Hin Hbody].
  - by exists st.
  - destruct (pass_inv_step st todo Hinv Hin) as (st1 & Hbody1 & Hinv1 & _).
    rewrite Hbody in Hbody1. injection Hbody1 as <-. by apply IH.
  - destruct (pass_inv_step st todo Hinv Hin) as (st1 & Hbody1 & _).
    congruence.
Qed.

Lemma iterations_bound k st st' :
  pass_inv nodes nextEntryPoint seeds serializer0 st -> iterations nodes nextEntryPoint k st st' ->
  pass_inv nodes nextEntryPoint seeds serializer0 st' /\ k + measure nodes st' <= measure nodes st.
Proof.
  intros Hinv Hrun. induction Hrun as [st|k st todo st1 st' Hin Hbody _ IH].
  - split; [done|lia].
  - destruct (pass_inv_step st todo Hinv Hin) as (st2 & Hbody2 & Hinv2 & Hlt).
    rewrite Hbody in Hbody2. injection Hbody2 as <-.
    destruct (IH Hinv2) as [? ?]. split; [done|lia].
Qed.

Lemma run_loop_total fuel :
  forall st, pass_inv nodes nextEntryPoint seeds serializer0 st -> measure nodes st < fuel ->
  exists st', run_loop fuel nodes nextEntryPoint st = Some (Ok st').
Proof.
  induction fuel as [|fuel IH]; intros st Hinv Hfuel; [lia|].
  simpl. destruct (elements (nodestoadd st)) as [|todo l] eqn:Hel.
  - by exists st.
  - assert (Hin : todo ∈ nodestoadd st).
    { apply elem_of_elements. rewrite Hel. by left. }
    destruct (pass_inv_step st todo Hinv Hin) as (st1 & Hbody & Hinv1 & Hlt).
    rewrite Hbody. apply IH; [done|lia].
Qed.

Lemma final_reachable st :
  pass_inv nodes nextEntryPoint seeds serializer0 st -> nodestoadd st = ∅ ->
  forall a, Some a ∈ done st <-> reachable nodes seeds a.
Proof.
  intros Hinv Hempty a. split.
  - intros Ha. apply (inv_reach _ _ _ _ _ Hinv). set_solver.
  - induction 1 as [a Ha|a nd b _ IH Hnd Hb].
    + pose proof (inv_seeds _ _ _ _ _ Hinv a Ha) as H. rewrite Hempty in H. set_solver.
    + pose proof (inv_next _ _ _ _ _ Hinv a nd b IH Hnd Hb) as H.
      rewrite Hempty in H. set_solver.
Qed.

End pass.

Lemma run_loop_sound nodes nextEntryPoint fuel :
  forall st r,
    run_loop fuel nodes nextEntryPoint st = Some r ->
    while_nodestoadd nodes nextEntryPoint st r.
Proof.
  induction fuel as [|fuel IH]; intros st r; [done|].
  simpl. destruct (elements (nodestoadd st)) as [|todo l] eqn:Hel.
  - intros [= <-]. apply while_exit.
    apply leibniz_equiv. by apply elements_empty_inv.
  - assert (Hin : todo ∈ nodestoadd st).
    { apply elem_of_elements. rewrite Hel. by left. }
    destruct (loop_body nodes nextEntryPoint todo (pop todo st)) as [st'|e] eqn:Hb.
    + intros Hrun. eapply while_continue; eauto.
    + intros [= <-]. by eapply while_raise.
Qed.

(** Every run of one pass returns, and what it has generated. *)
Lemma pass_correct nodes serializer0 stdout0 seeds nextEntryPoint :
  closed nodes -> seeds ⊆ refs_of nodes ->
  forall r,
    generatePipelineInternal nodes serializer0 stdout0 seeds nextEntryPoint r ->
    exists st gen,
      r = Ok st
      /\ nodestoadd st = ∅
      /\ serializer st = serializer0 ++ gen
      /\ NoDup gen.*1
      /\ (forall a, a ∈ gen.*1 <-> reachable nodes seeds a)
      /\ (forall c, c ∈ gen -> c.2 = nextEntryPoint)
      /\ (forall a, Some a ∈ done st <-> reachable nodes seeds a)
      /\ None ∉ done st.
Proof.
  intros Hclosed Hseeds r Hrun.
  assert (Hinv : pass_inv nodes nextEntryPoint seeds serializer0
                   (pass_start serializer0 stdout0 seeds))
    by by apply pass_inv_start.
  destruct (while_correct _ _ _ _ Hclosed _ _ Hinv Hrun)
    as (st & -> & Hinv' & Hempty).
  destruct (inv_generated _ _ _ _ _ Hinv') as (gen & Hser & Hnd & Hgen & Hnep).
  pose proof (final_reachable _ _ _ _ Hclosed st Hinv' Hempty) as Hfin.
  exists st, gen. repeat split; try done.
  - intros Ha. by apply Hfin, Hgen.
  - intros Ha. by apply Hgen, Hfin.
  - by apply Hfin.
  - by apply Hfin.
  - apply (inv_done_node _ _ _ _ _ Hinv').
Qed.

Lemma pass_exists nodes serializer0 stdout0 seeds nextEntryPoint :
  closed nodes -> seeds ⊆ refs_of nodes ->
  let start := pass_start serializer0 stdout0 seeds in
  exists st,
    run_loop (S (measure nodes start)) nodes nextEntryPoint start = Some (Ok st)
    /\ generatePipelineInternal nodes serializer0 stdout0 seeds nextEntryPoint
         (Ok st).
Proof.
  intros Hclosed Hseeds start.
  assert (Hinv : pass_inv nodes nextEntryPoint seeds serializer0 start)
    by by apply pass_inv_start.
  destruct (run_loop_total _ _ _ _ Hclosed (S (measure nodes start)) start Hinv)
    as [st Hst]; [lia|].
  exists st. split; [done|]. by apply run_loop_sound in Hst.
Qed.

(** Everything a pass ever holds in its two sets is reachable from its
    seeds. *)
Lemma pass_holds_reachable nodes serializer0 stdout0 seeds nextEntryPoint :
  closed nodes -> seeds ⊆ refs_of nodes ->
  forall k st,
    iterations nodes nextEntryPoint k (pass_start serializer0 stdout0 seeds) st ->
    forall a, Some a ∈ done st ∪ nodestoadd st -> reachable nodes seeds a.
Proof.
  intros Hclosed Hseeds k st Hrun.
  assert (Hinv : pass_inv nodes nextEntryPoint seeds serializer0
                   (pass_start serializer0 stdout0 seeds))
    by by apply pass_inv_start.
  destruct (iterations_bound _ _ _ _ Hclosed _ _ _ Hinv Hrun) as [Hinv' _].
  apply (inv_reach _ _ _ _ _ Hinv').
Qed.

(** C1.  On a store of node objects whose references are all valid, for any
    seed set: every run of generatePipelineInternal, whichever element each
    pop hands out, returns without exception with an empty pending set,
    having called the node generator exactly once for each node reachable
    from the seeds, with the given fallthrough target, and for no other
    node; no sequence of loop iterations is longer than the bound, and a run
    exists; in every state the loop reaches, every element of the pending
    set is processed without exception; and an element that is popped and
    is already visited, or is the null marker, leaves the state after the
    pop unchanged. *)
Theorem generatePipelineInternal_once (nodes : gmap addr p4_hlir.p4_node)
    (serializer0 : serializer_t) (stdout0 : list (list string))
    (seeds : gset (option addr)) (nextEntryPoint : option addr)
    (Hclosed : closed nodes) (Hseeds : seeds ⊆ refs_of nodes) :
  let start := pass_start serializer0 stdout0 seeds in
  (forall r,
     generatePipelineInternal nodes serializer0 stdout0 seeds nextEntryPoint r ->
     exists st gen,
       r = Ok st
       /\ nodestoadd st = ∅
       /\ serializer st = serializer0 ++ gen
       /\ NoDup gen.*1
       /\ (forall a, a ∈ gen.*1 <-> reachable nodes seeds a)
       /\ (forall c, c ∈ gen -> c.2 = nextEntryPoint)
       /\ (forall a, Some a ∈ done st <-> reachable nodes seeds a)
       /\ None ∉ done st)
  /\ (forall k st,
        iterations nodes nextEntryPoint k start st -> k <= measure nodes start)
  /\ (exists st,
        run_loop (S (measure nodes start)) nodes nextEntryPoint start
        = Some (Ok st)
        /\ generatePipelineInternal nodes serializer0 stdout0 seeds
             nextEntryPoint (Ok st))
  /\ (forall k st todo,
        iterations nodes nextEntryPoint k start st -> todo ∈ nodestoadd st ->
        exists st', loop_body nodes nextEntryPoint todo (pop todo st) = Ok st')
  /\ (forall st todo,
        todo ∈ done st \/ todo = None ->
        loop_body nodes nextEntryPoint todo st = Ok st).
Proof.
  intros start.
  assert (Hinv : pass_inv nodes nextEntryPoint seeds serializer0 start)
    by by apply pass_inv_start.
  split; [|split; [|split; [|split]]].
  - by apply pass_correct.
  - intros k st Hrun.
    destruct (iterations_bound _ _ _ _ Hclosed _ _ _ Hinv Hrun). lia.
  - by apply pass_exists.
  - intros k st todo Hrun Hin.
    destruct (iterations_bound _ _ _ _ Hclosed _ _ _ Hinv Hrun) as [Hinv' _].
    destruct (pass_inv_step _ _ _ _ Hclosed st todo Hinv' Hin) as (st' & ? & _).
    by exists st'.
  - intros st todo. apply loop_body_discard.
Qed.

(** Witness of C1: the diamond, seeded with its conditional. *)
Lemma generatePipelineInternal_once_witness :
  exists st,
    run_loop 32 Examples.diamond None (pass_start [] [] {[Some 1%positive]})
    = Some (Ok st)
    /\ generatePipelineInternal Examples.diamond [] [] {[Some 1%positive]} None
         (Ok st).
Proof.
  destruct (generatePipelineInternal_once Examples.diamond [] []
              {[Some 1%positive]} None) as (_ & _ & Hrun & _).
  - compute_done.
  - compute_done.
  - exact Hrun.
Defined.

(** The run of the diamond in which each pop hands out the first element:
    the table on which both branches converge is generated once. *)
Example diamond_run :
  (fun r => match r with
            | Some (Ok st) => Some (serializer st, stdout st)
            | _ => None
            end)
    (run_loop 32 Examples.diamond None (pass_start [] [] {[Some 1%positive]}))
  = Some ([(1%positive, None); (2%positive, None); (4%positive, None);
           (3%positive, None)],
          [["Generating "; "c1"]; ["Generating "; "t2"]; ["Generating "; "t4"];
           ["Generating "; "t3"]]).
Proof. by vm_compute. Qed.

Lemma times_generated_app e l1 l2 :
  times_generated e (l1 ++ l2) = times_generated e l1 + times_generated e l2.
Proof. unfold times_generated. by rewrite filter_app, length_app. Qed.

Lemma times_generated_absent e l : e ∉ l.*1 -> times_generated e l = 0.
Proof.
  unfold times_generated. induction l as [|c l IH]; [done|].
  rewrite fmap_cons, not_elem_of_cons. intros [Hc Hl].
  rewrite filter_cons_False by congruence. by apply IH.
Qed.

Lemma times_generated_once e l :
  NoDup l.*1 -> e ∈ l.*1 -> times_generated e l = 1.
Proof.
  induction l as [|c l IH]; [by rewrite elem_of_nil|].
  rewrite fmap_cons, NoDup_cons, elem_of_cons. intros [Hc Hnd] [->|He].
  - unfold times_generated. rewrite filter_cons_True by done. simpl.
    f_equal. by apply times_generated_absent.
  - unfold times_generated. rewrite filter_cons_False.
    + by apply IH.
    + intros <-. done.
Qed.

Lemma generated_elem (e : addr) (calls : serializer_t) nep :
  e ∈ calls.*1 -> (forall c, c ∈ calls -> c.2 = nep) -> (e, nep) ∈ calls.
Proof.
  intros He Hnep. apply list_elem_of_fmap in He as ([a n] & -> & Hc).
  specialize (Hnep _ Hc). simpl in *. by subst.
Qed.

(** Both passes of [generatePipeline] return, and what they generate. *)
Lemma generatePipeline_correct self serializer0 stdout0 :
  closed (p4_hlir.p4_nodes (hlir self)) ->
  list_to_set (entryPoints self) ⊆ refs_of (p4_hlir.p4_nodes (hlir self)) ->
  egressEntry self ∈ refs_of (p4_hlir.p4_nodes (hlir self)) ->
  forall r,
    generatePipeline self serializer0 stdout0 r ->
    exists st gen1 gen2,
      r = Ok st
      /\ serializer st = serializer0 ++ gen1 ++ gen2
      /\ NoDup gen1.*1 /\ NoDup gen2.*1
      /\ (forall a, a ∈ gen1.*1 <->
            reachable (p4_hlir.p4_nodes (hlir self))
              (list_to_set (entryPoints self)) a)
      /\ (forall a, a ∈ gen2.*1 <->
            reachable (p4_hlir.p4_nodes (hlir self)) {[egressEntry self]} a)
      /\ (forall c, c ∈ gen1 -> c.2 = egressEntry self)
      /\ (forall c, c ∈ gen2 -> c.2 = None).
Proof.
  intros Hclosed Hentry Hegress r Hrun.
  assert (Hseeds2 : ({[egressEntry self]} : gset (option addr))
                    ⊆ refs_of (p4_hlir.p4_nodes (hlir self))) by set_solver.
  destruct Hrun as [st1 r Hpass1 Hpass2|e Hpass1].
  - destruct (pass_correct _ _ _ _ _ Hclosed Hentry _ Hpass1)
      as (st1' & gen1 & [= <-] & _ & Hser1 & Hnd1 & Hgen1 & Hnep1 & _).
    destruct (pass_correct _ _ _ _ _ Hclosed Hseeds2 _ Hpass2)
      as (st2 & gen2 & -> & _ & Hser2 & Hnd2 & Hgen2 & Hnep2 & _).
    exists st2, gen1, gen2. rewrite Hser2, Hser1, <- app_assoc. done.
  - destruct (pass_correct _ _ _ _ _ Hclosed Hentry _ Hpass1)
      as (st1' & gen1 & [=] & _).
Qed.

Lemma generatePipeline_exists self serializer0 stdout0 :
  closed (p4_hlir.p4_nodes (hlir self)) ->
  list_to_set (entryPoints self) ⊆ refs_of (p4_hlir.p4_nodes (hlir self)) ->
  egressEntry self ∈ refs_of (p4_hlir.p4_nodes (hlir self)) ->
  exists st, generatePipeline self serializer0 stdout0 (Ok st).
Proof.
  intros Hclosed Hentry Hegress.
  assert (Hseeds2 : ({[egressEntry self]} : gset (option addr))
                    ⊆ refs_of (p4_hlir.p4_nodes (hlir self))) by set_solver.
  destruct (pass_exists _ serializer0 stdout0 _ (egressEntry self) Hclosed Hentry)
    as (st1 & _ & Hpass1).
  destruct (pass_exists _ (serializer st1) (stdout st1) _ None Hclosed Hseeds2)
    as (st2 & _ & Hpass2).
  exists st2. by eapply generatePipeline_egress.
Qed.

(** C2, as the code has it.  For a program whose egress entry is a node
    that is not reachable from the ingress entry points: every run of
    generatePipeline returns; the ingress pass generates no call for the
    egress entry, passes it as the fallthrough target of every node it
    generates, and never holds it in its pending or visited set; the egress
    pass generates it with no fallthrough target; in total it is generated
    exactly once. *)
Theorem generatePipeline_egress_once (self : LLVMProgram)
    (serializer0 : serializer_t) (stdout0 : list (list string)) (e : addr)
    (Hclosed : closed (p4_hlir.p4_nodes (hlir self)))
    (Hentry : list_to_set (entryPoints self)
              ⊆ refs_of (p4_hlir.p4_nodes (hlir self)))
    (Hegress : egressEntry self = Some e)
    (Hstored : is_Some (p4_hlir.p4_nodes (hlir self) !! e))
    (Hapart : ~ reachable (p4_hlir.p4_nodes (hlir self))
                  (list_to_set (entryPoints self)) e) :
  (forall r,
     generatePipeline self serializer0 stdout0 r ->
     exists st gen1 gen2,
       r = Ok st
       /\ serializer st = serializer0 ++ gen1 ++ gen2
       /\ (e ∉ gen1.*1)
       /\ (forall c, c ∈ gen1 -> c.2 = Some e)
       /\ (e, None) ∈ gen2
       /\ (forall c, c ∈ gen2 -> c.2 = None)
       /\ times_generated e (gen1 ++ gen2) = 1)
  /\ (forall k st,
        iterations (p4_hlir.p4_nodes (hlir self)) (Some e) k
          (pass_start serializer0 stdout0 (list_to_set (entryPoints self))) st ->
        (Some e ∉ nodestoadd st) /\ (Some e ∉ done st))
  /\ (exists st, generatePipeline self serializer0 stdout0 (Ok st)).
Proof.
  assert (Hvalid : egressEntry self ∈ refs_of (p4_hlir.p4_nodes (hlir self))).
  { rewrite Hegress. unfold refs_of. apply elem_of_union. right.
    apply elem_of_map. exists e. split; [done|]. by apply elem_of_dom. }
  split; [|split].
  - intros r Hrun.
    destruct (generatePipeline_correct _ _ _ Hclosed Hentry Hvalid r Hrun)
      as (st & gen1 & gen2 & -> & Hser & Hnd1 & Hnd2 & Hgen1 & Hgen2 & Hnep1 & Hnep2).
    rewrite Hegress in *.
    assert (He1 : e ∉ gen1.*1) by (intros He; by apply Hapart, Hgen1).
    assert (He2 : e ∈ gen2.*1).
    { apply Hgen2. apply reachable_seed. set_solver. }
    exists st, gen1, gen2. repeat split; try done.
    + by apply generated_elem.
    + rewrite times_generated_app, (times_generated_absent _ _ He1).
      by rewrite (times_generated_once _ _ Hnd2 He2).
  - intros k st Hrun.
    pose proof (pass_holds_reachable _ _ _ _ _ Hclosed Hentry k st Hrun e) as Hr.
    split; intros He; apply Hapart, Hr; set_solver.
  - by apply generatePipeline_exists.
Qed.

Lemma two_pass_apart a :
  reachable (p4_hlir.p4_nodes Examples.hlir_two_pass) {[Some 1%positive]} a ->
  a = 1%positive.
Proof.
  induction 1 as [a Ha|a nd b _ -> Hnd Hb].
  - apply elem_of_singleton in Ha. congruence.
  - vm_compute in Hnd. injection Hnd as <-. simpl in Hb.
    apply list_elem_of_singleton in Hb. discriminate.
Qed.

(** Witness of C2: ingress table t1 without successor, egress entry eg. *)
Lemma generatePipeline_egress_once_witness :
  exists st,
    generatePipeline (Examples.program_of Examples.hlir_two_pass) [] [] (Ok st).
Proof.
  destruct (generatePipeline_egress_once
              (Examples.program_of Examples.hlir_two_pass) [] [] 2%positive)
    as (_ & _ & Hrun).
  - compute_done.
  - compute_done.
  - reflexivity.
  - compute_done.
  - intros H. apply two_pass_apart in H. discriminate.
  - exact Hrun.
Defined.

(** The run of that program in which each pop hands out the first element. *)
Example two_pass_run :
  (fun r => match r with Some (Ok st) => Some (serializer st) | _ => None end)
    (run_generatePipeline 16 (Examples.program_of Examples.hlir_two_pass) [] [])
  = Some [(1%positive, Some 2%positive); (2%positive, None)].
Proof. by vm_compute. Qed.

(** C2, counterexample.  When the ingress table continues with the egress
    entry, every run of generatePipeline generates the egress entry twice:
    the ingress pass holds it in its pending and visited sets and generates
    it, and the egress pass generates it again. *)
Lemma generatePipeline_egress_twice :
  let self := Examples.program_of Examples.hlir_shared in
  egressEntry self = Some 2%positive
  /\ (exists st, generatePipeline self [] [] (Ok st))
  /\ (forall r,
        generatePipeline self [] [] r ->
        exists st, r = Ok st /\ times_generated 2%positive (serializer st) = 2)
  /\ (fun r => match r with Some (Ok st) => Some (serializer st) | _ => None end)
       (run_generatePipeline 16 self [] [])
     = Some [(1%positive, Some 2%positive); (2%positive, Some 2%positive);
             (2%positive, None)].
Proof.
  intros self.
  assert (Hclosed : closed (p4_hlir.p4_nodes (hlir self))) by compute_done.
  assert (Hentry : list_to_set (entryPoints self)
                   ⊆ refs_of (p4_hlir.p4_nodes (hlir self))) by compute_done.
  assert (Hvalid : egressEntry self ∈ refs_of (p4_hlir.p4_nodes (hlir self)))
    by compute_done.
  split; [reflexivity|]. split; [by apply generatePipeline_exists|].
  split; [|by vm_compute].
  intros r Hrun.
  destruct (generatePipeline_correct _ _ _ Hclosed Hentry Hvalid r Hrun)
    as (st & gen1 & gen2 & -> & Hser & Hnd1 & Hnd2 & Hgen1 & Hgen2 & _).
  exists st. split; [done|]. rewrite Hser. simpl.
  rewrite times_generated_app.
  rewrite (times_generated_once _ _ Hnd1), (times_generated_once _ _ Hnd2);
    [done| |].
  - apply Hgen2. apply reachable_seed. by apply elem_of_singleton.
  - apply Hgen1.
    eapply (reachable_next _ _ 1%positive _ 2%positive).
    + apply reachable_seed. compute_done.
    + reflexivity.
    + simpl. by left.
Qed.

(** ** p4c/utils.py *)

Lemma GetFieldWidth_hty_unknown (l : list utils.header_t) (name : string)
    (hty : option string) :
  Forall (fun h => utils.h_name h <> name) l ->
  fold_left
    (fun hty h =>
       if bool_decide (utils.h_name h = name) then Some (utils.h_header_type h)
       else hty)
    l hty
  = hty.
Proof.
  revert hty. induction l as [|h l IH]; intros hty Hl; [done|].
  inversion_clear Hl as [|? ? Hh Hl']. cbn [fold_left].
  rewrite bool_decide_eq_false_2 by done. by apply IH.
Qed.

Lemma GetFieldWidth_fields_unset (l : list utils.header_type_t)
    (fields : option (list (string * Z))) :
  fold_left
    (fun fields h =>
       if bool_decide (Some (utils.ht_name h) = None) then Some (utils.ht_fields h)
       else fields)
    l fields
  = fields.
Proof.
  revert fields. induction l as [|h l IH]; intros fields; [done|].
  cbn [fold_left]. rewrite bool_decide_eq_false_2 by done. by apply IH.
Qed.

Lemma GetHeaderWidth_unknown jsondata l header :
  Forall (fun h => utils.h_name h <> header) l ->
  utils.GetHeaderWidth_for jsondata l header = None.
Proof.
  induction 1 as [|h l Hh _ IH]; [done|].
  simpl. by rewrite bool_decide_eq_false_2.
Qed.

Lemma GetHeaderTypeWidth_unknown l header_type :
  Forall (fun h => utils.ht_name h <> header_type) l ->
  utils.GetHeaderTypeWidth_for l header_type = None.
Proof.
  induction 1 as [|h l Hh _ IH]; [done|].
  simpl. by rewrite bool_decide_eq_false_2.
Qed.

(** C10.  For a field pair whose header name no configured header bears,
    GetFieldWidth raises: its variable fields is still None when the last
    loop iterates it.  GetHeaderWidth returns None for the same header name,
    and GetHeaderTypeWidth returns None for a header type name that no
    configured header type bears. *)
Theorem GetFieldWidth_unknown_header_raises (jsondata : utils.jsondata_t)
    (field : string * string)
    (Hunknown : Forall (fun h => utils.h_name h <> field.1)
                  (utils.headers jsondata)) :
  utils.GetFieldWidth jsondata field
  = Raise (TypeError "'NoneType' object is not iterable")
  /\ utils.GetHeaderWidth jsondata field.1 = None
  /\ (forall header_type,
        Forall (fun h => utils.ht_name h <> header_type)
          (utils.header_types jsondata) ->
        utils.GetHeaderTypeWidth jsondata header_type = None).
Proof.
  split; [|split].
  - unfold utils.GetFieldWidth.
    rewrite (GetFieldWidth_hty_unknown _ _ _ Hunknown).
    by rewrite GetFieldWidth_fields_unset.
  - by apply GetHeaderWidth_unknown.
  - intros header_type. apply GetHeaderTypeWidth_unknown.
Qed.

(** Witness of C10: one header, and a field of a header that is not there. *)
Lemma GetFieldWidth_unknown_header_raises_witness :
  utils.GetFieldWidth Examples.jsondata ("ipv4", "ttl")
  = Raise (TypeError "'NoneType' object is not iterable")
  /\ utils.GetHeaderWidth Examples.jsondata "ipv4" = None.
Proof.
  destruct (GetFieldWidth_unknown_header_raises Examples.jsondata ("ipv4", "ttl"))
    as (H1 & H2 & _).
  - repeat constructor; by vm_compute.
  - split; [exact H1 | exact H2].
Defined.

(** For a header that is configured the three functions return widths. *)
Example widths_of_ethernet :
  utils.GetFieldWidth Examples.jsondata ("ethernet", "etherType") = Ok (Some 16%Z)
  /\ utils.GetHeaderWidth Examples.jsondata "ethernet" = Some 112%Z
  /\ utils.GetHeaderTypeWidth Examples.jsondata "ethernet_t" = Some 112%Z.
Proof. by vm_compute. Qed.

(** *** build_expression on a ternary node *)

(** C9, as the code has it.  For a JSON expression node whose operator is
    "?", build_expression raises, whatever the recursion budget: a KeyError
    when the value lacks "left" or "right", with nothing appended;
    otherwise it appends "(" to the output list and then raises a KeyError
    for the key "cond" when the node has no such key of its own, and a
    NameError for the name value, which is not in scope, when it has one.
    Nothing else is appended, so no ternary node yields flattened output. *)
Theorem build_expression_ternary_raises (fuel : nat)
    (d : list (string * utils.json)) (json_value : utils.json)
    (st : utils.be_state)
    (Htype : utils.dict_get d "type" = Some (utils.JStr "expression"))
    (Hvalue : utils.dict_get d "value" = Some json_value)
    (Hop : utils.getitem json_value "op" = Ok (utils.JStr "?")) :
  utils.build_expression (S fuel) (utils.JDict d) st
  = Some
      match utils.getitem json_value "left", utils.getitem json_value "right" with
      | Raise e, _ => (Raise e, st)
      | Ok _, Raise e => (Raise e, st)
      | Ok _, Ok _ =>
          (Raise (match utils.dict_get d "cond" with
                  | Some _ => NameError "value"
                  | None => KeyError "cond"
                  end),
           opened st)
      end.
Proof.
  assert (Hd : utils.truthy (utils.JDict d) = true) by by destruct d.
  cbn [utils.build_expression]. rewrite Hd. cbn [negb].
  cbn [utils.getitem]. rewrite Htype, Hvalue. cbn [utils.eval].
  change (utils.eq_str (utils.JStr "expression") "expression") with true.
  cbn match. rewrite Hop. cbn [utils.eval].
  destruct (utils.getitem json_value "left") as [l|e]; [|reflexivity].
  destruct (utils.getitem json_value "right") as [r|e]; [|reflexivity].
  cbn [utils.eval].
  change (utils.eq_str (utils.JStr "?") "?") with true.
  unfold utils.andthen, utils.sb_append. cbn match.
  destruct (utils.dict_get d "cond"); reflexivity.
Qed.

(** Witness of C9: a ternary node that has a key "cond" of its own. *)
Lemma build_expression_ternary_raises_witness :
  utils.build_expression 1 Examples.ternary_cond_outside Examples.no_output
  = Some (Raise (NameError "value"), opened Examples.no_output).
Proof.
  etrans; [eapply build_expression_ternary_raises; reflexivity|].
  reflexivity.
Defined.

(** C9, counterexample.  A ternary node in the shape of the BMv2 JSON, its
    condition inside "value": the call raises the KeyError for "cond" and
    the name value is never read.  With any budget the outcome is the same,
    and [a + b] is flattened. *)
Lemma build_expression_ternary_KeyError :
  utils.build_expression 1 Examples.ternary_expr Examples.no_output
  = Some (Raise (KeyError "cond"), opened Examples.no_output)
  /\ utils.build_expression 5 Examples.ternary_expr Examples.no_output
     <> Some (Raise (NameError "value"), opened Examples.no_output)
  /\ option_map (fun r => utils.sb r.2)
       (utils.build_expression 5 Examples.sum_expr Examples.no_output)
     = Some [utils.JStr "("; utils.JStr "ipv4$ttl"; utils.JStr "+";
             utils.JStr "0x01"; utils.JStr ")"].
Proof. split; [by vm_compute|]. split; [by vm_compute|]. by vm_compute. Qed.

(** * Further properties *)

(** ** More on construction and the name registry *)

(** X1 (construct appends).  On a program without calculated field
    construct only appends: the instance wrappers, one parser per parse
    state and the ingress entry points go, in HLIR order, behind what the
    collections hold, and the counter grows by the number of stacks;
    conditionals, tables, actions, counters and labels are left alone.  When
    the HLIR has no conditional node construct then returns, with the egress
    entry and the deparser set; when it has one, construct raises the
    NameError of the unbound name llvmConditional and leaves the egress
    entry and the deparser as they were.  So a second call appends a second
    copy of every wrapper. *)
Theorem construct_appends (self : LLVMProgram)
    (Hcalc : p4_hlir.p4_field_list_calculations (hlir self) = []) :
  let h := hlir self in
  let insts := values (p4_hlir.p4_header_instances h) in
  exists self',
    construct self = (construct_outcome h, self')
    /\ hlir self' = h
    /\ parsers self'
       = parsers self ++ map Build_LLVMParser (values (p4_hlir.p4_parse_states h))
    /\ entryPoints self' = entryPoints self ++ keys (p4_hlir.p4_ingress_ptr h)
    /\ headers self' = headers self ++ header_wrappers (typeFactory self) insts
    /\ metadata self'
       = metadata self ++ metadata_wrappers (typeFactory self) insts
    /\ stacks self'
       = stacks self
           ++ stack_wrappers (uniqueNameCounter self) (typeFactory self) insts
    /\ uniqueNameCounter self'
       = uniqueNameCounter self
         + length (List.filter (classified_as HeaderStack) insts)
    /\ conditionals self' = conditionals self
    /\ tables self' = tables self /\ actions self' = actions self
    /\ counters self' = counters self
    /\ entryPointLabels self' = entryPointLabels self
    /\ (egressEntry self', deparser self')
       = match p4_hlir.p4_conditional_nodes h with
         | [] => (p4_hlir.p4_egress_ptr h, Some {| deparser_hlir := h |})
         | _ :: _ => (egressEntry self, deparser self)
         end
    /\ exists self'',
         construct self' = (construct_outcome h, self'')
         /\ length (parsers self'')
            = length (parsers self)
              + 2 * length (p4_hlir.p4_parse_states h)
         /\ length (headers self'')
            = length (headers self)
              + 2 * length (List.filter (classified_as Header) insts).
Proof.
  intros h insts.
  pose proof (construct_without_calculated self Hcalc) as Hrun. fold h in Hrun.
  destruct (p4_hlir.p4_conditional_nodes h) as [|kn l] eqn:Hcond.
  - exists (constructed self). split; [exact Hrun|].
    repeat (split; [reflexivity|]).
    assert (Hcalc' : p4_hlir.p4_field_list_calculations
                       (hlir (constructed self)) = []) by exact Hcalc.
    pose proof (construct_without_calculated _ Hcalc') as Hrun'.
    change (hlir (constructed self)) with h in Hrun'. rewrite Hcond in Hrun'.
    exists (constructed (constructed self)). split; [exact Hrun'|].
    split.
    + simpl. unfold values. rewrite !length_app, !length_map. fold h. lia.
    + simpl. unfold header_wrappers. rewrite !length_app, !length_map.
      fold h. fold insts. lia.
  - exists (collected self). split; [exact Hrun|].
    repeat (split; [reflexivity|]).
    assert (Hcalc' : p4_hlir.p4_field_list_calculations
                       (hlir (collected self)) = []) by exact Hcalc.
    pose proof (construct_without_calculated _ Hcalc') as Hrun'.
    change (hlir (collected self)) with h in Hrun'. rewrite Hcond in Hrun'.
    exists (collected (collected self)). split; [exact Hrun'|].
    split.
    + simpl. unfold values. rewrite !length_app, !length_map. fold h. lia.
    + simpl. unfold header_wrappers. rewrite !length_app, !length_map.
      fold h. fold insts. lia.
Qed.

(** Witness: the program with a header, a stack, a metadata instance and a
    conditional node. *)
Lemma construct_appends_witness :
  exists self',
    construct (init_attributes "prog" Examples.hlir_conditional)
    = (Raise (NameError "llvmConditional"), self')
    /\ length (headers self') = 1
    /\ entryPoints self' = [Some 1%positive]
    /\ conditionals self' = [].
Proof.
  destruct (construct_appends (init_attributes "prog" Examples.hlir_conditional)
              eq_refl)
    as (self' & Hrun & _ & _ & He & Hh & _ & _ & _ & Hc & _).
  exists self'. split; [exact Hrun|]. by rewrite Hh, He, Hc.
Defined.

(** The same program without the conditional node. *)
Example construct_twice :
  exists self' self'',
    construct (init_attributes "prog" Examples.hlir_instances) = (Ok tt, self')
    /\ construct self' = (Ok tt, self'')
    /\ stk_indexVar <$> stacks self'' = ["vlan_index_0"; "vlan_index_1"]
    /\ length (headers self'') = 2.
Proof.
  exists (construct (init_attributes "prog" Examples.hlir_instances)).2,
    (construct (construct (init_attributes "prog" Examples.hlir_instances)).2).2.
  by vm_compute.
Qed.

(** What the constructor returns, when it returns. *)
Lemma LLVMProgram_init_Ok name hlir self :
  LLVMProgram_init name hlir = (Ok tt, self) ->
  p4_hlir.p4_field_list_calculations hlir = []
  /\ p4_hlir.p4_conditional_nodes hlir = []
  /\ self
     = set_structNames "llvm_headers_t" "llvm_headers" "llvm_metadata_t"
         "llvm_metadata" (constructed (init_attributes name hlir)).
Proof.
  unfold LLVMProgram_init, bind.
  destruct (p4_hlir.p4_field_list_calculations hlir) as [|[k c] rest] eqn:Hcalc.
  - destruct (p4_hlir.p4_conditional_nodes hlir) as [|kn l] eqn:Hcond.
    + rewrite (construct_supported (init_attributes name hlir) Hcalc Hcond).
      unfold modify. intros [= <-]. done.
    + rewrite (construct_unbound (init_attributes name hlir) Hcalc);
        [done|]. simpl. by rewrite Hcond.
  - by rewrite (construct_raises_first (init_attributes name hlir) k c rest Hcalc).
Qed.

Lemma getLabels_issued_from c0 nodes :
  Forall (fun nd => p4_hlir.isinstance_p4_parse_state nd = false) nodes ->
  forall self,
    issued_from c0 (entryPointLabels self) -> c0 <= uniqueNameCounter self ->
    exists labels self',
      getLabels (Some <$> nodes) self = (Ok labels, self')
      /\ issued_from c0 (entryPointLabels self')
      /\ entryPointLabels self ⊆ entryPointLabels self'
      /\ uniqueNameCounter self <= uniqueNameCounter self'
      /\ stacks self' = stacks self
      /\ length labels = length nodes
      /\ (forall i ni li,
            nodes !! i = Some ni -> labels !! i = Some li ->
            entryPointLabels self' !! p4_hlir.name ni = Some li).
Proof.
  induction 1 as [|nd nodes Hnd Hnodes IH]; intros self Hgen Hc0.
  - exists [], self. repeat split; done.
  - destruct (entryPointLabels self !! p4_hlir.name nd) as [v|] eqn:Hv.
    + destruct (IH self Hgen Hc0)
        as (labels & self' & Hrun & Hgen' & Hsub & Hle & Hst & Hlen & Hnth).
      exists (v :: labels), self'. split; [|repeat split; try done].
      * cbn [fmap list_fmap getLabels]. unfold bind at 1.
        rewrite (getLabel_known _ _ _ Hnd Hv). unfold bind at 1.
        change (list_fmap _ _ Some nodes) with (Some <$> nodes).
        by rewrite Hrun.
      * simpl. by rewrite Hlen.
      * intros [|i] ni li Hi Hli; simpl in *.
        -- injection Hi as <-. injection Hli as <-.
           by eapply lookup_weaken.
        -- by eapply Hnth.
    + set (lbl := p4_hlir.name nd +:+ "_" +:+ str (uniqueNameCounter self)).
      set (self1 := set_entryPointLabels
                      (<[p4_hlir.name nd := lbl]> (entryPointLabels self))
                      (set_uniqueNameCounter (uniqueNameCounter self + 1) self)).
      assert (Hgen1 : issued_from c0 (entryPointLabels self1)).
      { intros k w. simpl. rewrite lookup_insert. case_decide as Hk.
        - intros [= <-]. subst k. by eexists.
        - apply Hgen. }
      destruct (IH self1 Hgen1 ltac:(simpl; lia))
        as (labels & self' & Hrun & Hgen' & Hsub & Hle & Hst & Hlen & Hnth).
      exists (lbl :: labels), self'. split; [|repeat split; try done].
      * cbn [fmap list_fmap getLabels]. unfold bind at 1.
        rewrite (getLabel_new _ _ Hnd Hv). unfold bind at 1.
        change (list_fmap _ _ Some nodes) with (Some <$> nodes).
        fold lbl. fold self1. by rewrite Hrun.
      * etrans; [|exact Hsub]. simpl. by apply insert_subseteq.
      * simpl in Hle. lia.
      * simpl. by rewrite Hlen.
      * intros [|i] ni li Hi Hli; simpl in *.
        -- injection Hi as <-. injection Hli as <-.
           eapply lookup_weaken; [|exact Hsub]. simpl.
           by rewrite lookup_insert_eq.
        -- by eapply Hnth.
Qed.

Lemma stack_wrappers_indexVar c f l i s :
  stack_wrappers c f l !! i = Some s ->
  exists base, stk_indexVar s = base +:+ "_" +:+ str (c + i)
               /\ i < length (stack_wrappers c f l).
Proof.
  intros Hi. pose proof (lookup_lt_Some _ _ _ Hi) as Hlt.
  unfold stack_wrappers in Hi. rewrite list_lookup_imap in Hi.
  destruct (List.filter (classified_as HeaderStack) l !! i) as [h|];
    [|done].
  injection Hi as <-. simpl. by eexists.
Qed.

(** X2 (fresh across methods).  After the constructor has returned, the
    index variables of the stacks are pairwise distinct, and every label
    that getLabel then issues for control-flow nodes that are not parse
    states differs from all of them. *)
Theorem names_distinct_across_methods (name : string) (hlir : p4_hlir.HLIR)
    (self : LLVMProgram) (nodes : list p4_hlir.p4_node)
    (Hinit : LLVMProgram_init name hlir = (Ok tt, self))
    (Hnodes : Forall (fun nd => p4_hlir.isinstance_p4_parse_state nd = false)
                nodes) :
  NoDup (stk_indexVar <$> stacks self)
  /\ uniqueNameCounter self = length (stacks self)
  /\ exists labels self',
       getLabels (Some <$> nodes) self = (Ok labels, self')
       /\ stacks self' = stacks self
       /\ (forall l, l ∈ labels -> l ∉ stk_indexVar <$> stacks self').
Proof.
  apply LLVMProgram_init_Ok in Hinit as (Hcalc & Hcond & ->).
  set (insts := values (p4_hlir.p4_header_instances hlir)).
  assert (Hstacks :
            stacks (set_structNames "llvm_headers_t" "llvm_headers"
                      "llvm_metadata_t" "llvm_metadata"
                      (constructed (init_attributes name hlir)))
            = stack_wrappers 0 Build_LLVMTypeFactory insts) by reflexivity.
  assert (Hcount :
            uniqueNameCounter
              (set_structNames "llvm_headers_t" "llvm_headers"
                 "llvm_metadata_t" "llvm_metadata"
                 (constructed (init_attributes name hlir)))
            = length (stack_wrappers 0 Build_LLVMTypeFactory insts)).
  { unfold stack_wrappers. by rewrite length_imap. }
  assert (Hlabels :
            entryPointLabels
              (set_structNames "llvm_headers_t" "llvm_headers"
                 "llvm_metadata_t" "llvm_metadata"
                 (constructed (init_attributes name hlir)))
            = ∅) by reflexivity.
  set (self := set_structNames _ _ _ _ _) in *.
  split; [|split; [by rewrite Hstacks|]].
  - rewrite Hstacks. apply NoDup_alt. intros i j x Hi Hj.
    rewrite list_lookup_fmap in Hi, Hj.
    destruct (stack_wrappers 0 Build_LLVMTypeFactory insts !! i)
      as [si|] eqn:Hsi; [|done].
    destruct (stack_wrappers 0 Build_LLVMTypeFactory insts !! j)
      as [sj|] eqn:Hsj; [|done].
    simpl in Hi, Hj. injection Hi as <-. injection Hj as Hx.
    apply stack_wrappers_indexVar in Hsi as (bi & Hbi & _).
    apply stack_wrappers_indexVar in Hsj as (bj & Hbj & _).
    rewrite Hbi, Hbj in Hx. by apply newName_inj in Hx as [_ ?].
  - destruct (getLabels_issued_from (uniqueNameCounter self) nodes Hnodes self)
      as (labels & self' & Hrun & Hgen & _ & _ & Hst & Hlen & Hnth); [|done|].
    { intros k v Hk. by rewrite Hlabels, lookup_empty in Hk. }
    exists labels, self'. split; [done|]. split; [done|].
    intros l Hl Hin. rewrite Hst, Hstacks in Hin.
    apply list_elem_of_lookup in Hl as [i Hi].
    destruct (lookup_lt_is_Some_2 nodes i) as [ni Hni];
      [rewrite <- Hlen; by eapply lookup_lt_Some|].
    pose proof (Hnth _ _ _ Hni Hi) as Hm.
    destruct (Hgen _ _ Hm) as (c & Hc & ->).
    apply list_elem_of_fmap in Hin as (s & Hs & Hin).
    apply list_elem_of_lookup in Hin as [j Hj].
    apply stack_wrappers_indexVar in Hj as (b & Hb & Hlt).
    rewrite Hb in Hs. apply newName_inj in Hs as [_ ->].
    rewrite Hcount in Hc. simpl in Hc. lia.
Qed.

(** Witness: the program with one stack, and two tables labelled on it. *)
Lemma names_distinct_across_methods_witness :
  NoDup (stk_indexVar
           <$> stacks (Examples.program_of Examples.hlir_instances))
  /\ uniqueNameCounter (Examples.program_of Examples.hlir_instances) = 1.
Proof.
  destruct (names_distinct_across_methods "prog" Examples.hlir_instances
              (Examples.program_of Examples.hlir_instances)
              [Examples.table_t; Examples.table_u])
    as (H1 & H2 & _).
  - by vm_compute.
  - repeat constructor.
  - split; [exact H1 | exact H2].
Defined.

(** The labels issued on that program do not meet the index variable. *)
Example labels_after_construct :
  (getLabels (Some <$> [Examples.table_t; Examples.table_u])
     (Examples.program_of Examples.hlir_instances)).1
  = Ok ["t_1"; "u_2"]
  /\ stk_indexVar <$> stacks (Examples.program_of Examples.hlir_instances)
     = ["vlan_index_0"].
Proof. by vm_compute. Qed.

(** X3 (the registry only grows).  getLabel adds one to the counter exactly
    when it creates the label of a node that is not a parse state and whose
    name has no label yet, and leaves the counter alone otherwise;
    generateNewName always adds one and does not touch the labels;
    construct never lowers the counter and does not touch the labels.  None
    of them removes a label. *)
Theorem registry_grows (self : LLVMProgram) :
  (forall p4node,
     uniqueNameCounter (getLabel p4node self).2
     = uniqueNameCounter self
       + (match p4node with
          | Some nd =>
              if p4_hlir.isinstance_p4_parse_state nd then 0
              else match entryPointLabels self !! p4_hlir.name nd with
                   | None => 1
                   | Some _ => 0
                   end
          | None => 0
          end)
     /\ dom (entryPointLabels self) ⊆ dom (entryPointLabels (getLabel p4node self).2))
  /\ (forall base,
        uniqueNameCounter (generateNewName base self).2
        = uniqueNameCounter self + 1
        /\ entryPointLabels (generateNewName base self).2 = entryPointLabels self)
  /\ uniqueNameCounter self <= uniqueNameCounter (construct self).2
  /\ entryPointLabels (construct self).2 = entryPointLabels self.
Proof.
  split; [|split; [|split]].
  - intros [nd|]; [|simpl; split; [lia|done]].
    destruct (p4_hlir.isinstance_p4_parse_state nd) eqn:Hps.
    + rewrite (getLabel_parse_state _ _ Hps). simpl. split; [lia|].
      rewrite dom_insert_L. set_solver.
    + destruct (entryPointLabels self !! p4_hlir.name nd) as [v|] eqn:Hv.
      * rewrite (getLabel_known _ _ _ Hps Hv). simpl. split; [lia|done].
      * rewrite (getLabel_new _ _ Hps Hv). simpl. split; [done|].
        rewrite dom_insert_L. set_solver.
  - intros base. by split.
  - destruct (p4_hlir.p4_field_list_calculations (hlir self))
      as [|[k c] rest] eqn:Hcalc.
    + rewrite (construct_without_calculated _ Hcalc).
      destruct (p4_hlir.p4_conditional_nodes (hlir self)); simpl; lia.
    + by rewrite (construct_raises_first _ k c rest Hcalc).
  - destruct (p4_hlir.p4_field_list_calculations (hlir self))
      as [|[k c] rest] eqn:Hcalc.
    + rewrite (construct_without_calculated _ Hcalc).
      by destruct (p4_hlir.p4_conditional_nodes (hlir self)).
    + by rewrite (construct_raises_first _ k c rest Hcalc).
Qed.

(** ** More on the control-flow linearization *)

Lemma loop_body_Ok nodes nextEntryPoint todo st st' :
  loop_body nodes nextEntryPoint todo st = Ok st' ->
  (st' = st /\ (todo ∈ done st \/ todo = None))
  \/ exists a nd,
       todo = Some a /\ (Some a ∉ done st) /\ nodes !! a = Some nd
       /\ st' = {| stdout := stdout st ++ [["Generating "; p4_hlir.name nd]];
                   done := done st ∪ {[Some a]};
                   serializer :=
                     generateControlFlowNode (serializer st) a nextEntryPoint;
                   nodestoadd :=
                     nodestoadd st ∪ list_to_set (values (p4_hlir.next_ nd)) |}.
Proof.
  unfold loop_body. case_bool_decide as Hd.
  - intros [= <-]. left. split; [done|by left].
  - destruct todo as [a|]; [|intros [= <-]; left; split; [done|by right]].
    destruct (nodes !! a) as [nd|] eqn:Ha; [|done].
    intros [= <-]. right. by exists a, nd.
Qed.

(** A property that every iteration keeps holds when the loop exits. *)
Lemma while_keeps nodes nextEntryPoint (I : loop_state -> Prop) :
  (forall st todo st',
     I st -> todo ∈ nodestoadd st ->
     loop_body nodes nextEntryPoint todo (pop todo st) = Ok st' -> I st') ->
  forall st r,
    while_nodestoadd nodes nextEntryPoint st r ->
    I st -> forall st', r = Ok st' -> I st'.
Proof.
  intros Hstep st r Hrun.
  induction Hrun as [st Hempty|st todo st1 r Hin Hbody _ IH|st todo e Hin Hbody];
    intros HI st'.
  - by intros [= <-].
  - apply IH. by eapply Hstep.
  - done.
Qed.

(** X4 (nothing to do).  A pass whose seed set is empty, or holds only None,
    returns on any store without a call of the node generator and without
    printing; so for a program without egress entry, what generatePipeline
    leaves in the serializer is what its ingress pass left there. *)
Theorem pass_without_nodes (nodes : gmap addr p4_hlir.p4_node)
    (serializer0 : serializer_t) (stdout0 : list (list string))
    (seeds : gset (option addr)) (nextEntryPoint : option addr)
    (Hseeds : seeds ⊆ {[None]}) :
  (forall r,
     generatePipelineInternal nodes serializer0 stdout0 seeds nextEntryPoint r ->
     exists st,
       r = Ok st /\ serializer st = serializer0 /\ stdout st = stdout0
       /\ done st = ∅ /\ nodestoadd st = ∅)
  /\ (exists st,
        generatePipelineInternal nodes serializer0 stdout0 seeds nextEntryPoint
          (Ok st))
  /\ (forall self r,
        p4_hlir.p4_nodes (hlir self) = nodes -> egressEntry self = None ->
        generatePipeline self serializer0 stdout0 r ->
        forall st,
          r = Ok st ->
          exists st1,
            generatePipelineInternal nodes serializer0 stdout0
              (list_to_set (entryPoints self)) None (Ok st1)
            /\ serializer st = serializer st1 /\ stdout st = stdout st1).
Proof.
  assert (Hpass : forall nep st r,
            while_nodestoadd nodes nep st r ->
            nodestoadd st ⊆ {[None]} -> done st = ∅ ->
            exists st',
              r = Ok st' /\ serializer st' = serializer st
              /\ stdout st' = stdout st /\ done st' = ∅ /\ nodestoadd st' = ∅).
  { intros nep st r Hrun.
    induction Hrun as [st Hempty|st todo st1 r Hin Hbody _ IH|st todo e Hin Hbody];
      intros Hsub Hdone.
    - by exists st.
    - assert (todo = None) as -> by set_solver.
      rewrite loop_body_discard in Hbody by by right.
      injection Hbody as <-.
      destruct IH as (st' & -> & ? & ? & ? & ?); [simpl; set_solver|done|].
      by exists st'.
    - assert (todo = None) as -> by set_solver.
      rewrite loop_body_discard in Hbody by by right. done. }
  split; [|split].
  - intros r Hrun.
    destruct (Hpass _ _ _ Hrun Hseeds eq_refl) as (st & ? & ?). by exists st.
  - destruct (decide (seeds = ∅)) as [->|Hne].
    + eexists. by apply while_exit.
    + assert (Hnone : None ∈ seeds).
      { apply set_choose_L in Hne as [x Hx].
        pose proof (Hseeds x Hx) as ->%elem_of_singleton. done. }
      assert (seeds = {[None]}) as -> by set_solver.
      eexists. eapply (while_continue _ _ _ None).
      * simpl. set_solver.
      * apply loop_body_discard. by right.
      * apply while_exit. simpl. set_solver.
  - intros self r Hnodes Hegress Hrun st ->.
    inversion Hrun as [st1 r' Hpass1 Hpass2|]; subst.
    rewrite Hegress in *.
    destruct (Hpass _ _ _ Hpass2 (reflexivity _) eq_refl)
      as (st' & [= <-] & ? & ? & _).
    by exists st1.
Qed.

(** Witness: the egress pass of a program whose egress entry is None. *)
Lemma pass_without_nodes_witness :
  exists st,
    generatePipelineInternal Examples.diamond [] [] {[None]} None (Ok st).
Proof.
  destruct (pass_without_nodes Examples.diamond [] [] {[None]} None)
    as (_ & H & _).
  - reflexivity.
  - exact H.
Defined.

Lemma generated_pairs (gen : serializer_t) nep :
  (forall c, c ∈ gen -> c.2 = nep) -> gen = (fun a => (a, nep)) <$> gen.*1.
Proof.
  induction gen as [|[a n] gen IH]; [done|]. intros H.
  pose proof (H (a, n) ltac:(by left)) as Hn. simpl in Hn. subst n.
  rewrite !fmap_cons. simpl. f_equal. apply IH.
  intros c Hc. apply H. by right.
Qed.

(** X5 (order of the pops).  Two runs of one pass, whatever elements their
    pops hand out, generate the same nodes: the calls of one run are a
    permutation of the calls of the other, and both runs end with the same
    visited set. *)
Theorem pass_order_independent (nodes : gmap addr p4_hlir.p4_node)
    (serializer0 : serializer_t) (stdout0 : list (list string))
    (seeds : gset (option addr)) (nextEntryPoint : option addr)
    (st1 st2 : loop_state)
    (Hclosed : closed nodes) (Hseeds : seeds ⊆ refs_of nodes)
    (Hrun1 : generatePipelineInternal nodes serializer0 stdout0 seeds
               nextEntryPoint (Ok st1))
    (Hrun2 : generatePipelineInternal nodes serializer0 stdout0 seeds
               nextEntryPoint (Ok st2)) :
  exists gen1 gen2,
    serializer st1 = serializer0 ++ gen1
    /\ serializer st2 = serializer0 ++ gen2
    /\ gen1 ≡ₚ gen2
    /\ done st1 = done st2
    /\ length gen1 = size (done st1).
Proof.
  destruct (pass_correct _ _ _ _ _ Hclosed Hseeds _ Hrun1)
    as (st1' & gen1 & [= <-] & _ & Hser1 & Hnd1 & Hgen1 & Hnep1 & Hdone1 & Hn1).
  destruct (pass_correct _ _ _ _ _ Hclosed Hseeds _ Hrun2)
    as (st2' & gen2 & [= <-] & _ & Hser2 & Hnd2 & Hgen2 & Hnep2 & Hdone2 & Hn2).
  exists gen1, gen2. split; [done|]. split; [done|].
  assert (Hperm : gen1.*1 ≡ₚ gen2.*1).
  { apply NoDup_Permutation; [done..|]. intros a. by rewrite Hgen1, Hgen2. }
  split; [|split].
  - rewrite (generated_pairs gen1 _ Hnep1), (generated_pairs gen2 _ Hnep2).
    by apply fmap_Permutation.
  - apply set_eq. intros [a|]; [by rewrite Hdone1, Hdone2|]. split; done.
  - assert (Hset : done st1 = list_to_set (Some <$> gen1.*1)).
    { apply set_eq. intros [a|].
      - split; intros H.
        + apply elem_of_list_to_set, list_elem_of_fmap. exists a.
          split; [done|]. by apply Hgen1, Hdone1.
        + apply elem_of_list_to_set, list_elem_of_fmap in H
            as (b & [= ->] & Hb).
          by apply Hdone1, Hgen1.
      - split; [done|]. intros H.
        by apply elem_of_list_to_set, list_elem_of_fmap in H
          as (b & [=] & _). }
    rewrite Hset, size_list_to_set.
    + by rewrite !length_fmap.
    + apply NoDup_fmap; [|done]. by intros ? ? [=].
Qed.

(** Witness: the run of the diamond in which each pop hands out the first
    element, in both places. *)
Lemma pass_order_independent_witness :
  exists st1 st2 gen1 gen2,
    serializer st1 = [] ++ gen1 /\ serializer st2 = [] ++ gen2
    /\ gen1 ≡ₚ gen2.
Proof.
  assert (H1 : exists st1,
            generatePipelineInternal Examples.diamond [] []
              {[Some 1%positive]} None (Ok st1)).
  { eexists. apply (run_loop_sound _ _ 32). by vm_compute. }
  destruct H1 as [st1 H1].
  destruct (pass_order_independent Examples.diamond [] [] {[Some 1%positive]}
              None st1 st1) as (gen1 & gen2 & Hs1 & Hs2 & Hp & _).
  - compute_done.
  - compute_done.
  - exact H1.
  - exact H1.
  - by exists st1, st1, gen1, gen2.
Defined.

Lemma times_generated_le e l : NoDup l.*1 -> times_generated e l <= 1.
Proof.
  intros Hnd. destruct (decide (e ∈ l.*1)) as [He|He].
  - by rewrite times_generated_once.
  - rewrite times_generated_absent by done. lia.
Qed.

(** X6 (how often a node is generated).  In every run of generatePipeline
    that returns, a node is generated once for each of the two passes that
    reaches it: twice when it is reachable from the ingress entry points
    and from the egress entry, once when from one of them only, never
    otherwise; the calls of the ingress pass carry the egress entry as
    fallthrough target and come first, those of the egress pass carry
    None. *)
Theorem generatePipeline_counts (self : LLVMProgram)
    (serializer0 : serializer_t) (stdout0 : list (list string))
    (st : loop_state)
    (Hclosed : closed (p4_hlir.p4_nodes (hlir self)))
    (Hentry : list_to_set (entryPoints self)
              ⊆ refs_of (p4_hlir.p4_nodes (hlir self)))
    (Hegress : egressEntry self ∈ refs_of (p4_hlir.p4_nodes (hlir self)))
    (Hrun : generatePipeline self serializer0 stdout0 (Ok st)) :
  let ingress :=
    reachable (p4_hlir.p4_nodes (hlir self)) (list_to_set (entryPoints self)) in
  let egress :=
    reachable (p4_hlir.p4_nodes (hlir self)) {[egressEntry self]} in
  exists gen1 gen2,
    serializer st = serializer0 ++ gen1 ++ gen2
    /\ (forall c, c ∈ gen1 -> c.2 = egressEntry self)
    /\ (forall c, c ∈ gen2 -> c.2 = None)
    /\ (forall a,
          (ingress a -> egress a -> times_generated a (gen1 ++ gen2) = 2)
          /\ (ingress a -> ~ egress a -> times_generated a (gen1 ++ gen2) = 1)
          /\ (~ ingress a -> egress a -> times_generated a (gen1 ++ gen2) = 1)
          /\ (~ ingress a -> ~ egress a ->
              times_generated a (gen1 ++ gen2) = 0)
          /\ times_generated a (gen1 ++ gen2) <= 2).
Proof.
  intros ingress egress.
  destruct (generatePipeline_correct _ _ _ Hclosed Hentry Hegress _ Hrun)
    as (st' & gen1 & gen2 & [= <-] & Hser & Hnd1 & Hnd2 & Hgen1 & Hgen2
        & Hnep1 & Hnep2).
  exists gen1, gen2. split; [done|]. split; [done|]. split; [done|].
  intros a. rewrite times_generated_app.
  repeat split.
  - intros Hi He.
    by rewrite !times_generated_once by (done || by apply Hgen1 || by apply Hgen2).
  - intros Hi He. rewrite (times_generated_once _ gen1) by (done || by apply Hgen1).
    rewrite times_generated_absent; [done|]. intros H. by apply He, Hgen2.
  - intros Hi He. rewrite (times_generated_once _ gen2) by (done || by apply Hgen2).
    rewrite times_generated_absent; [done|]. intros H. by apply Hi, Hgen1.
  - intros Hi He. rewrite !times_generated_absent; [done| |].
    + intros H. by apply He, Hgen2.
    + intros H. by apply Hi, Hgen1.
  - pose proof (times_generated_le a gen1 Hnd1).
    pose proof (times_generated_le a gen2 Hnd2). lia.
Qed.

(** Witness: the program whose ingress table continues with the egress
    entry. *)
Lemma generatePipeline_counts_witness :
  exists st gen1 gen2,
    generatePipeline (Examples.program_of Examples.hlir_shared) [] [] (Ok st)
    /\ serializer st = [] ++ gen1 ++ gen2.
Proof.
  assert (Hclosed : closed (p4_hlir.p4_nodes
                              (hlir (Examples.program_of Examples.hlir_shared))))
    by compute_done.
  assert (Hentry :
            list_to_set (entryPoints (Examples.program_of Examples.hlir_shared))
            ⊆ refs_of (p4_hlir.p4_nodes
                         (hlir (Examples.program_of Examples.hlir_shared))))
    by compute_done.
  assert (Hegress :
            egressEntry (Examples.program_of Examples.hlir_shared)
            ∈ refs_of (p4_hlir.p4_nodes
                         (hlir (Examples.program_of Examples.hlir_shared))))
    by compute_done.
  destruct (generatePipeline_exists _ [] [] Hclosed Hentry Hegress) as [st Hrun].
  destruct (generatePipeline_counts _ [] [] st Hclosed Hentry Hegress Hrun)
    as (gen1 & gen2 & Hser & _).
  by exists st, gen1, gen2.
Defined.

Lemma pass_start_run nodes serializer0 stdout0 seeds nextEntryPoint
    (I : loop_state -> Prop) st :
  (forall st todo st',
     I st -> todo ∈ nodestoadd st ->
     loop_body nodes nextEntryPoint todo (pop todo st) = Ok st' -> I st') ->
  I (pass_start serializer0 stdout0 seeds) ->
  generatePipelineInternal nodes serializer0 stdout0 seeds nextEntryPoint
    (Ok st) ->
  I st.
Proof.
  intros Hstep Hstart Hrun.
  by eapply (while_keeps nodes nextEntryPoint I Hstep _ _ Hrun Hstart).
Qed.

(** X7 (announcements).  In every run of a pass that returns, on any store,
    the lines printed and the calls of the node generator go in step: one
    print per generated node, in the order of the calls, each with the
    node's name. *)
Theorem pass_announces (nodes : gmap addr p4_hlir.p4_node)
    (serializer0 : serializer_t) (stdout0 : list (list string))
    (seeds : gset (option addr)) (nextEntryPoint : option addr)
    (st : loop_state)
    (Hrun : generatePipelineInternal nodes serializer0 stdout0 seeds
              nextEntryPoint (Ok st)) :
  exists gen,
    serializer st = serializer0 ++ gen
    /\ stdout st = stdout0 ++ (announcement nodes <$> gen.*1)
    /\ length (stdout st) = length stdout0 + length gen.
Proof.
  cut (exists gen,
         serializer st = serializer0 ++ gen
         /\ stdout st = stdout0 ++ (announcement nodes <$> gen.*1)).
  { intros (gen & Hs & Ho). exists gen. split; [done|]. split; [done|].
    by rewrite Ho, length_app, !length_fmap. }
  apply (pass_start_run _ _ _ _ _
           (fun st => exists gen,
              serializer st = serializer0 ++ gen
              /\ stdout st = stdout0 ++ (announcement nodes <$> gen.*1))
           st) in Hrun; [done| |].
  - clear. intros st todo st' (gen & Hs & Ho) Hin Hbody.
    apply loop_body_Ok in Hbody as [[-> _]|(a & nd & -> & Hd & Ha & ->)].
    + by exists gen.
    + exists (gen ++ [(a, nextEntryPoint)]). unfold pop.
      cbn [serializer stdout].
      unfold generateControlFlowNode. rewrite Hs, Ho, <- !app_assoc.
      split; [done|]. rewrite !fmap_app. do 2 f_equal.
      simpl. unfold announcement. by rewrite Ha.
  - exists []. simpl. by rewrite !app_nil_r.
Qed.

(** Witness: the run of the diamond. *)
Lemma pass_announces_witness :
  exists st gen,
    serializer st = [] ++ gen
    /\ stdout st = [] ++ (announcement Examples.diamond <$> gen.*1).
Proof.
  assert (H1 : exists st1,
            generatePipelineInternal Examples.diamond [] []
              {[Some 1%positive]} None (Ok st1)).
  { eexists. apply (run_loop_sound _ _ 32). by vm_compute. }
  destruct H1 as [st1 H1].
  destruct (pass_announces _ _ _ _ _ _ H1) as (gen & H2 & H3 & _).
  by exists st1, gen.
Defined.

(** X8 (predecessors first).  In every run of a pass that returns, on any
    store, every generated node is a seed of the pass or a next_ value of
    a node that was generated before it. *)
Theorem pass_generates_after_predecessor (nodes : gmap addr p4_hlir.p4_node)
    (serializer0 : serializer_t) (stdout0 : list (list string))
    (seeds : gset (option addr)) (nextEntryPoint : option addr)
    (st : loop_state)
    (Hrun : generatePipelineInternal nodes serializer0 stdout0 seeds
              nextEntryPoint (Ok st)) :
  exists gen,
    serializer st = serializer0 ++ gen
    /\ forall i a,
         gen.*1 !! i = Some a ->
         introduced nodes seeds (take i gen.*1) a.
Proof.
  cut (exists gen,
         serializer st = serializer0 ++ gen
         /\ (forall i a, gen.*1 !! i = Some a ->
               introduced nodes seeds (take i gen.*1) a)
         /\ (forall a, Some a ∈ nodestoadd st ->
               introduced nodes seeds gen.*1 a)).
  { intros (gen & ? & ? & _). by exists gen. }
  apply (pass_start_run _ _ _ _ _
           (fun st => exists gen,
              serializer st = serializer0 ++ gen
              /\ (forall i a, gen.*1 !! i = Some a ->
                    introduced nodes seeds (take i gen.*1) a)
              /\ (forall a, Some a ∈ nodestoadd st ->
                    introduced nodes seeds gen.*1 a))
           st) in Hrun; [done| |].
  - clear. intros st todo st' (gen & Hs & Hgen & Hpend) Hin Hbody.
    apply loop_body_Ok in Hbody as [[-> _]|(a & nd & -> & Hd & Ha & ->)].
    + exists gen. split; [done|]. split; [done|].
      intros a Ha. apply Hpend. simpl in Ha. set_solver.
    + exists (gen ++ [(a, nextEntryPoint)]). simpl.
      unfold generateControlFlowNode. rewrite Hs, <- app_assoc.
      split; [done|]. rewrite fmap_app. simpl. split.
      * intros i b Hi.
        destruct (decide (i < length gen.*1)) as [Hlt|Hge].
        -- rewrite lookup_app_l in Hi by done.
           rewrite take_app_le by lia. by apply Hgen.
        -- rewrite lookup_app_r in Hi by lia.
           destruct (i - length gen.*1) as [|k] eqn:Ek; [|by destruct k].
           injection Hi as <-.
           assert (i = length gen.*1) as -> by lia.
           rewrite take_app_length. by apply Hpend.
      * intros b Hb. apply elem_of_union in Hb as [Hb|Hb].
        -- destruct (Hpend b) as [Hseed|(c & ndc & Hc & Hndc & Hnext)];
             [simpl in Hb; set_solver|by left|].
           right. exists c, ndc. split; [|done]. apply elem_of_app. by left.
        -- apply elem_of_list_to_set in Hb.
           right. exists a, nd. split; [|done].
           apply elem_of_app. right. by left.
  - exists []. simpl. rewrite app_nil_r. split; [done|]. split; [done|].
    intros a Ha. by left.
Qed.

(** Witness: the run of the diamond. *)
Lemma pass_generates_after_predecessor_witness :
  exists st gen,
    serializer st = [] ++ gen
    /\ forall i a,
         gen.*1 !! i = Some a ->
         introduced Examples.diamond {[Some 1%positive]} (take i gen.*1) a.
Proof.
  assert (H1 : exists st1,
            generatePipelineInternal Examples.diamond [] []
              {[Some 1%positive]} None (Ok st1)).
  { eexists. apply (run_loop_sound _ _ 32). by vm_compute. }
  destruct H1 as [st1 H1].
  destruct (pass_generates_after_predecessor _ _ _ _ _ _ H1) as (gen & H2 & H3).
  by exists st1, gen.
Defined.

(** ** p4c/utils.py: name conversion *)





















(** The two conversions on a name with separators. *)
Example CamelCase_example :
  utils.CamelCase "ipv4_option-timestamp 2" = "Ipv4OptionTimestamp2"
  /\ utils.camelCase "ipv4_option-timestamp 2" = Ok "ipv4OptionTimestamp2"
  /\ utils.camelCase "__" = Raise IndexError.
Proof. by vm_compute. Qed.

(** ** p4c/utils.py: the width resolver *)

Lemma sum_cons x l : utils.sum (x :: l) = (x + utils.sum l)%Z.
Proof.
  unfold utils.sum. simpl.
  assert (H : forall l a, fold_left Z.add l a = (a + fold_left Z.add l 0)%Z).
  { clear. induction l as [|y l IH]; intros a; cbn [fold_left]; [lia|].
    rewrite (IH (a + y)%Z), (IH (0 + y)%Z). lia. }
  cbn [fold_left]. by rewrite H.
Qed.

Lemma GetHeaderType_for_first l header :
  utils.GetHeaderType_for l header
  = utils.h_header_type <$> first_named utils.h_name header l.
Proof.
  induction l as [|h l IH]; [done|]. simpl. by case_bool_decide.
Qed.

Lemma GetHeaderTypeWidth_for_first l header_type :
  utils.GetHeaderTypeWidth_for l header_type
  = (fun t => utils.sum (map snd (utils.ht_fields t)))
      <$> first_named utils.ht_name header_type l.
Proof.
  induction l as [|h l IH]; [done|]. simpl. by case_bool_decide.
Qed.

Lemma GetHeaderWidth_for_first jsondata l header :
  utils.GetHeaderWidth_for jsondata l header
  = match first_named utils.h_name header l with
    | Some h => utils.GetHeaderTypeWidth jsondata (utils.h_header_type h)
    | None => None
    end.
Proof.
  induction l as [|h l IH]; [done|]. simpl. by case_bool_decide.
Qed.

Lemma GetHeaderWidth_by_first (jsondata : utils.jsondata_t) (header : string) :
  utils.GetHeaderWidth jsondata header
  = match first_named utils.h_name header (utils.headers jsondata) with
    | Some h =>
        match first_named utils.ht_name (utils.h_header_type h)
                (utils.header_types jsondata) with
        | Some t => Some (utils.sum (map snd (utils.ht_fields t)))
        | None => None
        end
    | None => None
    end.
Proof.
  unfold utils.GetHeaderWidth. rewrite GetHeaderWidth_for_first.
  destruct (first_named utils.h_name header (utils.headers jsondata)) as [h|];
    [|done].
  unfold utils.GetHeaderTypeWidth. rewrite GetHeaderTypeWidth_for_first.
  by destruct (first_named utils.ht_name (utils.h_header_type h)
                 (utils.header_types jsondata)).
Qed.

(** X11 (GetHeaderWidth).  GetHeaderWidth is GetHeaderType followed by
    GetHeaderTypeWidth.  GetHeaderType gives the type name of the first
    header that bears the name; GetHeaderTypeWidth gives the sum of the
    field widths of the first header type that bears the type name (0 for a
    type without fields); so GetHeaderWidth gives the sum of the field
    widths of the first type that bears the type name of the first header
    that bears the name, and None exactly when the header is unknown or no
    type bears its type name. *)
Theorem GetHeaderWidth_composes (jsondata : utils.jsondata_t) (header : string) :
  utils.GetHeaderWidth jsondata header
  = match utils.GetHeaderType jsondata header with
    | Some hty => utils.GetHeaderTypeWidth jsondata hty
    | None => None
    end
  /\ utils.GetHeaderType jsondata header
     = utils.h_header_type
         <$> first_named utils.h_name header (utils.headers jsondata)
  /\ (forall hty,
        utils.GetHeaderTypeWidth jsondata hty
        = (fun t => utils.sum (map snd (utils.ht_fields t)))
            <$> first_named utils.ht_name hty (utils.header_types jsondata))
  /\ utils.GetHeaderWidth jsondata header
     = match first_named utils.h_name header (utils.headers jsondata) with
       | Some h =>
           match first_named utils.ht_name (utils.h_header_type h)
                   (utils.header_types jsondata) with
           | Some t => Some (utils.sum (map snd (utils.ht_fields t)))
           | None => None
           end
       | None => None
       end
  /\ (utils.sum [] = 0%Z
      /\ forall x l, utils.sum (x :: l) = (x + utils.sum l)%Z)
  /\ (utils.GetHeaderWidth jsondata header = None <->
      utils.GetHeaderType jsondata header = None
      \/ exists hty,
           utils.GetHeaderType jsondata header = Some hty
           /\ Forall (fun t => utils.ht_name t <> hty)
                (utils.header_types jsondata))
  /\ (forall t,
        utils.ht_fields t = [] ->
        first_named utils.ht_name (utils.ht_name t) (utils.header_types jsondata)
        = Some t ->
        utils.GetHeaderTypeWidth jsondata (utils.ht_name t) = Some 0%Z).
Proof.
  unfold utils.GetHeaderWidth, utils.GetHeaderType, utils.GetHeaderTypeWidth.
  rewrite GetHeaderWidth_for_first, GetHeaderType_for_first.
  split; [|split; [|split; [|split; [|split; [|split]]]]].
  - by destruct (first_named utils.h_name header (utils.headers jsondata)).
  - done.
  - intros hty. apply GetHeaderTypeWidth_for_first.
  - destruct (first_named utils.h_name header (utils.headers jsondata)) as [h|];
      [|done].
    unfold utils.GetHeaderTypeWidth. rewrite GetHeaderTypeWidth_for_first.
    by destruct (first_named utils.ht_name (utils.h_header_type h)
                   (utils.header_types jsondata)).
  - split; [done|]. apply sum_cons.
  - destruct (first_named utils.h_name header (utils.headers jsondata)) as [h|];
      simpl.
    + unfold utils.GetHeaderTypeWidth. rewrite GetHeaderTypeWidth_for_first.
      destruct (first_named utils.ht_name (utils.h_header_type h)
                  (utils.header_types jsondata)) eqn:Et; simpl.
      * split; [done|]. intros [?|(hty & [= <-] & Hall)]; [done|].
        apply first_named_None in Hall. congruence.
      * split; [|done]. intros _. right. eexists. split; [done|].
        by apply first_named_None.
    + split; [by left|done].
  - intros t Hf Ht. rewrite GetHeaderTypeWidth_for_first, Ht. simpl.
    by rewrite Hf.
Qed.

Lemma fold_assign {A B} (p : A -> bool) (g : A -> B) (l : list A)
    (init : option B) :
  fold_left (fun acc x => if p x then Some (g x) else acc) l init
  = match List.find p (rev l) with
    | Some x => Some (g x)
    | None => init
    end.
Proof.
  revert init. induction l as [|x l IH] using rev_ind; intros init; [done|].
  rewrite fold_left_app, rev_app_distr. simpl.
  destruct (p x); [done|]. apply IH.
Qed.

Lemma find_first_named {A} (name_of : A -> string) (name : string) (l : list A) :
  List.find (fun x => bool_decide (name_of x = name)) l
  = first_named name_of name l.
Proof. induction l as [|x l IH]; [done|]. simpl. by case_bool_decide. Qed.

Lemma find_never {A} (p : A -> bool) (l : list A) :
  (forall x, p x = false) -> List.find p l = None.
Proof. intros H. induction l as [|x l IH]; [done|]. simpl. by rewrite H. Qed.

Lemma GetFieldWidth_by_last (jsondata : utils.jsondata_t)
    (field : string * string) :
  utils.GetFieldWidth jsondata field
  = match first_named utils.h_name field.1 (rev (utils.headers jsondata)) with
    | None => Raise (TypeError "'NoneType' object is not iterable")
    | Some h =>
        match first_named utils.ht_name (utils.h_header_type h)
                (rev (utils.header_types jsondata)) with
        | None => Raise (TypeError "'NoneType' object is not iterable")
        | Some t => Ok (utils.first_width (utils.ht_fields t) field.2)
        end
    end.
Proof.
  unfold utils.GetFieldWidth.
  rewrite (fold_assign (fun h => bool_decide (utils.h_name h = field.1))
             utils.h_header_type).
  rewrite find_first_named.
  destruct (first_named utils.h_name field.1 (rev (utils.headers jsondata)))
    as [h|].
  - rewrite (fold_assign
               (fun t => bool_decide
                           (Some (utils.ht_name t) = Some (utils.h_header_type h)))
               utils.ht_fields).
    replace (List.find _ (rev (utils.header_types jsondata)))
      with (first_named utils.ht_name (utils.h_header_type h)
              (rev (utils.header_types jsondata))).
    + by destruct (first_named utils.ht_name _ _).
    + rewrite <- find_first_named.
      induction (rev (utils.header_types jsondata)) as [|t l IH]; [done|].
      simpl. rewrite IH.
      destruct (decide (utils.ht_name t = utils.h_header_type h)) as [E|E].
      * rewrite !bool_decide_eq_true_2; congruence.
      * rewrite !bool_decide_eq_false_2; congruence.
  - rewrite (fold_assign
               (fun t => bool_decide (Some (utils.ht_name t) = None))
               utils.ht_fields).
    by rewrite find_never.
Qed.



Lemma first_named_unique {A} (name_of : A -> string) (l : list A) x :
  NoDup (map name_of l) -> x ∈ l ->
  first_named name_of (name_of x) l = Some x.
Proof.
  induction l as [|y l IH]; [by rewrite elem_of_nil|].
  simpl. rewrite NoDup_cons, elem_of_cons. intros [Hy Hnd] [->|Hx].
  - by rewrite bool_decide_eq_true_2.
  - rewrite bool_decide_eq_false_2; [by apply IH|].
    intros E. apply Hy. rewrite E. apply list_elem_of_In, in_map.
    by apply list_elem_of_In.
Qed.

Lemma first_named_elem {A} (name_of : A -> string) name (l : list A) x :
  first_named name_of name l = Some x -> x ∈ l /\ name_of x = name.
Proof.
  intros H. apply first_named_Some in H as (l1 & l2 & -> & Hn & _).
  split; [|done]. apply elem_of_app. right. by left.
Qed.

Lemma first_named_rev {A} (name_of : A -> string) name (l : list A) :
  NoDup (map name_of l) ->
  first_named name_of name (rev l) = first_named name_of name l.
Proof.
  intros Hnd.
  destruct (first_named name_of name l) as [x|] eqn:E.
  - apply first_named_elem in E as [Hx <-].
    apply first_named_unique.
    + rewrite map_rev. apply NoDup_ListNoDup, List.NoDup_rev.
      by apply NoDup_ListNoDup.
    + apply list_elem_of_In. apply -> in_rev. by apply list_elem_of_In.
  - apply first_named_None. apply first_named_None in E.
    rewrite Forall_forall in *. intros y Hy. apply E.
    apply list_elem_of_In, in_rev. by apply list_elem_of_In.
Qed.

Lemma first_width_elem fields f w :
  utils.first_width fields f = Some w -> (f, w) ∈ fields.
Proof.
  induction fields as [|[f' w'] fields IH]; [done|]. simpl.
  case_bool_decide as E.
  - intros [= <-]. subst. by left.
  - intros H. right. by apply IH.
Qed.

Lemma first_width_unique fields f w :
  NoDup (map fst fields) -> (f, w) ∈ fields ->
  utils.first_width fields f = Some w.
Proof.
  induction fields as [|[f' w'] fields IH]; [by rewrite elem_of_nil|].
  simpl. rewrite NoDup_cons, elem_of_cons. intros [Hf Hnd] [[= <- <-]|Hin].
  - by rewrite bool_decide_eq_true_2.
  - rewrite bool_decide_eq_false_2; [by apply IH|].
    intros ->. apply Hf. apply list_elem_of_In.
    change f with (fst (f, w)). apply in_map. by apply list_elem_of_In.
Qed.

Lemma sum_bound (fields : list (string * Z)) f w :
  Forall (fun fw => (0 <= fw.2)%Z) fields -> (f, w) ∈ fields ->
  (0 <= w <= utils.sum (map snd fields))%Z.
Proof.
  induction 1 as [|[f' w'] fields Hw Hall IH]; [by rewrite elem_of_nil|].
  simpl in *. rewrite sum_cons, elem_of_cons.
  assert (0 <= utils.sum (map snd fields))%Z.
  { clear -Hall. induction Hall as [|[? ?] ? ? ? IH]; [done|].
    simpl in *. rewrite sum_cons. lia. }
  intros [[= <- <-]|Hin]; [lia|]. specialize (IH Hin). lia.
Qed.

(** X13 (widths agree).  When header names and header type names are unique,
    GetFieldWidth raises exactly when GetHeaderWidth returns None; a width
    it returns belongs to a field of the header's type, whose widths sum up
    to GetHeaderWidth, and with widths that are not negative it lies
    between 0 and the width of the header. *)
Theorem GetFieldWidth_agrees_with_GetHeaderWidth (jsondata : utils.jsondata_t)
    (field : string * string)
    (Hheaders : NoDup (map utils.h_name (utils.headers jsondata)))
    (Htypes : NoDup (map utils.ht_name (utils.header_types jsondata))) :
  ((exists e, utils.GetFieldWidth jsondata field = Raise e)
   <-> utils.GetHeaderWidth jsondata field.1 = None)
  /\ (forall w,
        utils.GetFieldWidth jsondata field = Ok (Some w) ->
        exists t,
          t ∈ utils.header_types jsondata
          /\ utils.GetHeaderType jsondata field.1 = Some (utils.ht_name t)
          /\ (field.2, w) ∈ utils.ht_fields t
          /\ utils.GetHeaderWidth jsondata field.1
             = Some (utils.sum (map snd (utils.ht_fields t)))
          /\ (Forall (fun fw => (0 <= fw.2)%Z) (utils.ht_fields t) ->
              (0 <= w <= utils.sum (map snd (utils.ht_fields t)))%Z)).
Proof.
  rewrite GetFieldWidth_by_last.
  unfold utils.GetHeaderWidth, utils.GetHeaderType, utils.GetHeaderTypeWidth.
  rewrite GetHeaderWidth_for_first, GetHeaderType_for_first.
  rewrite (first_named_rev _ _ _ Hheaders).
  destruct (first_named utils.h_name field.1 (utils.headers jsondata)) as [h|];
    [|split; [split; [done|by eexists]|done]].
  unfold utils.GetHeaderTypeWidth. rewrite GetHeaderTypeWidth_for_first.
  rewrite (first_named_rev _ _ _ Htypes).
  destruct (first_named utils.ht_name (utils.h_header_type h)
              (utils.header_types jsondata)) as [t|] eqn:Et;
    [|split; [split; [done|by eexists]|done]].
  simpl. split; [split; [by intros [? ?]|done]|].
  intros w [= Hw]. apply first_named_elem in Et as [Ht Hn].
  apply first_width_elem in Hw.
  exists t. rewrite Hn. split; [done|]. split; [done|]. split; [done|].
  split; [done|]. intros Hall. by eapply sum_bound.
Qed.

(** Witness: the configuration with the ethernet header. *)
Lemma GetFieldWidth_agrees_with_GetHeaderWidth_witness :
  (exists e, utils.GetFieldWidth Examples.jsondata ("ethernet", "etherType")
             = Raise e)
  <-> utils.GetHeaderWidth Examples.jsondata "ethernet" = None.
Proof.
  destruct (GetFieldWidth_agrees_with_GetHeaderWidth Examples.jsondata
              ("ethernet", "etherType")) as [H _].
  - vm_compute. repeat constructor; set_solver.
  - vm_compute. repeat constructor; set_solver.
  - exact H.
Defined.

(** X14 (sum of the fields).  When header names, header type names and the
    field names within each type are unique and GetHeaderWidth returns a
    width for a header, the header has a type, GetFieldWidth returns for
    every field of that type the width the type lists for it and returns a
    width for no other field name, and the width of the header is the sum
    of these field widths over the field list of the type. *)
Theorem GetHeaderWidth_sums_GetFieldWidth (jsondata : utils.jsondata_t)
    (header : string) (W : Z)
    (Hheaders : NoDup (map utils.h_name (utils.headers jsondata)))
    (Htypes : NoDup (map utils.ht_name (utils.header_types jsondata)))
    (Hfields : Forall (fun t => NoDup (map fst (utils.ht_fields t)))
                 (utils.header_types jsondata))
    (Hwidth : utils.GetHeaderWidth jsondata header = Some W) :
  exists h t,
    first_named utils.h_name header (utils.headers jsondata) = Some h
    /\ first_named utils.ht_name (utils.h_header_type h)
         (utils.header_types jsondata) = Some t
    /\ NoDup (map fst (utils.ht_fields t))
    /\ Forall (fun fw =>
                 utils.GetFieldWidth jsondata (header, fw.1) = Ok (Some fw.2))
         (utils.ht_fields t)
    /\ (forall f w,
          utils.GetFieldWidth jsondata (header, f) = Ok (Some w) <->
          (f, w) ∈ utils.ht_fields t)
    /\ W = utils.sum (map snd (utils.ht_fields t))
    /\ Some W
       = utils.sum
           <$> mapM (fun fw =>
                       match utils.GetFieldWidth jsondata (header, fw.1) with
                       | Ok w => w
                       | Raise _ => None
                       end)
                 (utils.ht_fields t).
Proof.
  revert Hwidth. rewrite GetHeaderWidth_by_first.
  destruct (first_named utils.h_name header (utils.headers jsondata))
    as [h|] eqn:Eh; [|done].
  destruct (first_named utils.ht_name (utils.h_header_type h)
              (utils.header_types jsondata)) as [t|] eqn:Et; [|done].
  intros [= <-].
  assert (Hget : forall f,
            utils.GetFieldWidth jsondata (header, f)
            = Ok (utils.first_width (utils.ht_fields t) f)).
  { intros f. rewrite GetFieldWidth_by_last. simpl.
    by rewrite (first_named_rev _ _ _ Hheaders), Eh,
      (first_named_rev _ _ _ Htypes), Et. }
  assert (Hnd : NoDup (map fst (utils.ht_fields t))).
  { rewrite Forall_forall in Hfields. apply Hfields.
    by apply first_named_elem in Et as [? _]. }
  assert (Hall : Forall (fun fw =>
                   utils.GetFieldWidth jsondata (header, fw.1) = Ok (Some fw.2))
                   (utils.ht_fields t)).
  { apply Forall_forall. intros [f w] Hin. simpl. rewrite Hget.
    f_equal. by apply first_width_unique. }
  exists h, t. split; [done|]. split; [done|]. split; [done|].
  split; [done|]. split; [|split; [done|]].
  - intros f w. rewrite Hget. split.
    + intros [= H]. by apply first_width_elem.
    + intros H. f_equal. by apply first_width_unique.
  - clear -Hall. induction Hall as [|[f w] l Hx _ IH]; [done|].
    cbn [mapM]. rewrite Hx. cbn [mbind option_bind snd map].
    destruct (mapM _ l) as [ws|]; [|done]. simpl in IH. injection IH as IH.
    simpl. f_equal. by rewrite !sum_cons, IH.
Qed.

(** Witness: the ethernet header, 48 + 48 + 16 bits. *)
Lemma GetHeaderWidth_sums_GetFieldWidth_witness :
  exists fields,
    Forall (fun fw => utils.GetFieldWidth Examples.jsondata ("ethernet", fw.1)
                      = Ok (Some fw.2)) fields
    /\ 112%Z = utils.sum (map snd fields).
Proof.
  destruct (GetHeaderWidth_sums_GetFieldWidth Examples.jsondata "ethernet" 112)
    as (h & t & _ & _ & _ & H1 & _ & H2 & _).
  - vm_compute. repeat constructor; set_solver.
  - vm_compute. repeat constructor; set_solver.
  - vm_compute. repeat constructor; set_solver.
  - reflexivity.
  - exists (utils.ht_fields t). split; [exact H1 | exact H2].
Defined.

(** ** p4c/utils.py: build_expression *)

Lemma extended_nothing st : extended st nothing = st.
Proof. destruct st. unfold extended. simpl. by rewrite !app_nil_r. Qed.

Lemma nothing_extended d : extended nothing d = d.
Proof. by destruct d. Qed.

Lemma extended_assoc st d1 d2 :
  extended (extended st d1) d2 = extended st (extended d1 d2).
Proof. unfold extended. simpl. by rewrite !app_assoc. Qed.

Lemma framed_skip : framed utils.skip.
Proof. intros st. unfold utils.skip. by rewrite extended_nothing. Qed.

Lemma framed_throw e : framed (utils.throw e).
Proof. intros st. unfold utils.throw. by rewrite extended_nothing. Qed.

Lemma framed_out : framed (fun _ => None).
Proof. done. Qed.

Lemma framed_sb_append v : framed (utils.sb_append v).
Proof.
  intros st. unfold utils.sb_append, extended. simpl. by rewrite !app_nil_r.
Qed.

Lemma framed_metadata_append v : framed (utils.metadata_append v).
Proof.
  intros st. unfold utils.metadata_append, extended. simpl.
  by rewrite !app_nil_r.
Qed.

Lemma framed_print s : framed (utils.print s).
Proof.
  intros st. unfold utils.print, extended. simpl. by rewrite !app_nil_r.
Qed.

Lemma framed_andthen s1 s2 :
  framed s1 -> framed s2 -> framed (utils.andthen s1 s2).
Proof.
  intros H1 H2 st. unfold utils.andthen. rewrite (H1 st).
  destruct (s1 nothing) as [[[[]|e] d1]|]; [|done..].
  rewrite (H2 (extended st d1)), (H2 d1).
  destruct (s2 nothing) as [[r d2]|]; [|done].
  by rewrite extended_assoc.
Qed.

Lemma framed_eval r k : (forall v, framed (k v)) -> framed (utils.eval r k).
Proof. intros H. destruct r; simpl; [apply H|apply framed_throw]. Qed.

Ltac framed_step :=
  first
    [ assumption
    | apply framed_skip | apply framed_throw | apply framed_out
    | apply framed_sb_append | apply framed_metadata_append
    | apply framed_print
    | apply framed_andthen
    | apply framed_eval; intros ?
    | match goal with
      | |- framed (if ?b then _ else _) => destruct b
      | |- framed (match ?x with _ => _ end) => destruct x
      end ].

Lemma framed_append_joined v : framed (utils.append_joined v).
Proof. unfold utils.append_joined. repeat framed_step. Qed.

Lemma framed_build_expression fuel :
  forall json_data, framed (utils.build_expression fuel json_data).
Proof.
  induction fuel as [|fuel IH]; intros json_data; [apply framed_out|].
  cbn [utils.build_expression].
  repeat first [apply IH | apply framed_append_joined | framed_step].
Qed.

(** X15 (append only).  build_expression only appends to its two lists and to
    what is printed; what it appends, and whether and what it raises, do not
    depend on what the lists hold when it is called. *)
Theorem build_expression_appends (fuel : nat) (json_data : utils.json)
    (st : utils.be_state) :
  utils.build_expression fuel json_data st
  = match utils.build_expression fuel json_data nothing with
    | Some (r, d) => Some (r, extended st d)
    | None => None
    end
  /\ (forall r st',
        utils.build_expression fuel json_data st = Some (r, st') ->
        utils.sb st `prefix_of` utils.sb st'
        /\ utils.metadata st `prefix_of` utils.metadata st'
        /\ utils.printed st `prefix_of` utils.printed st').
Proof.
  pose proof (framed_build_expression fuel json_data st) as H.
  split; [done|]. intros r st'. rewrite H.
  destruct (utils.build_expression fuel json_data nothing) as [[r' d]|];
    [|done].
  intros [= <- <-]. simpl. repeat split; by apply prefix_app_r.
Qed.

Lemma dict_get_size d k v :
  utils.dict_get d k = Some v -> jsize v < jsize (utils.JDict d).
Proof.
  induction d as [|[k' v'] d IH]; [done|]. simpl.
  destruct (String.eqb k' k).
  - intros [= ->]. lia.
  - intros H. specialize (IH H). simpl in IH. lia.
Qed.

Lemma getitem_size j k v : utils.getitem j k = Ok v -> jsize v < jsize j.
Proof.
  destruct j as [| | | | |d]; try done. simpl.
  destruct (utils.dict_get d k) eqn:E; [|done].
  intros [= <-]. by apply dict_get_size in E.
Qed.

Lemma returns_skip : returns utils.skip.
Proof. done. Qed.

Lemma returns_throw e : returns (utils.throw e).
Proof. done. Qed.

Lemma returns_sb_append v : returns (utils.sb_append v).
Proof. done. Qed.

Lemma returns_metadata_append v : returns (utils.metadata_append v).
Proof. done. Qed.

Lemma returns_print s : returns (utils.print s).
Proof. done. Qed.

Lemma returns_andthen s1 s2 :
  returns s1 -> returns s2 -> returns (utils.andthen s1 s2).
Proof.
  intros H1 H2 st. unfold utils.andthen. specialize (H1 st).
  destruct (s1 st) as [[[[]|e] st1]|]; [apply H2|done..].
Qed.

Lemma returns_eval r k :
  (forall v, r = Ok v -> returns (k v)) -> returns (utils.eval r k).
Proof. intros H. destruct r; simpl; [by apply H|apply returns_throw]. Qed.

Ltac returns_step :=
  first
    [ apply returns_skip | apply returns_throw
    | apply returns_sb_append | apply returns_metadata_append
    | apply returns_print
    | apply returns_andthen
    | apply returns_eval; let H := fresh "Hget" in intros ? H; try discriminate H
    | match goal with
      | |- returns (if ?b then _ else _) => destruct b
      | |- returns (match ?x with _ => _ end) => destruct x
      end ].

Lemma returns_append_joined v : returns (utils.append_joined v).
Proof. unfold utils.append_joined. repeat returns_step. Qed.

Lemma returns_build_expression fuel :
  forall json_data,
    jsize json_data <= fuel -> returns (utils.build_expression fuel json_data).
Proof.
  induction fuel as [|fuel IH]; intros json_data Hsize.
  { destruct json_data; simpl in Hsize; lia. }
  cbn [utils.build_expression].
  repeat first
    [ apply returns_append_joined
    | apply IH;
      repeat match goal with
             | H : utils.getitem _ _ = Ok _ |- _ => apply getitem_size in H
             end; lia
    | returns_step ].
Qed.

Lemma refines_refl s : refines s s.
Proof. by intros st r. Qed.

Lemma refines_andthen s1 s1' s2 s2' :
  refines s1 s1' -> refines s2 s2' ->
  refines (utils.andthen s1 s2) (utils.andthen s1' s2').
Proof.
  intros H1 H2 st r. unfold utils.andthen.
  destruct (s1 st) as [[[[]|e] st1]|] eqn:E; [| |done].
  - rewrite (H1 _ _ E). apply H2.
  - by rewrite (H1 _ _ E).
Qed.

Lemma refines_eval r k k' :
  (forall v, refines (k v) (k' v)) -> refines (utils.eval r k) (utils.eval r k').
Proof. intros H. destruct r; simpl; [apply H|apply refines_refl]. Qed.

Ltac refines_step :=
  first
    [ apply refines_refl
    | apply refines_andthen
    | apply refines_eval; intros ?
    | match goal with
      | |- refines (if ?b then _ else _) (if ?b then _ else _) => destruct b
      | |- refines (match ?x with _ => _ end) (match ?x with _ => _ end) =>
          destruct x
      end ].

Lemma refines_build_expression fuel :
  forall json_data,
    refines (utils.build_expression fuel json_data)
      (utils.build_expression (S fuel) json_data).
Proof.
  induction fuel as [|fuel IH]; intros json_data; [by intros st r|].
  cbn [utils.build_expression].
  repeat first [apply IH | refines_step].
Qed.

(** X16 (well defined).  build_expression returns or raises on every JSON
    value, with one outcome: every recursion budget that is at least the
    size of the value gives it. *)
Theorem build_expression_well_defined (json_data : utils.json)
    (st : utils.be_state) :
  exists r,
    forall fuel,
      jsize json_data <= fuel ->
      utils.build_expression fuel json_data st = Some r.
Proof.
  pose proof (returns_build_expression (jsize json_data) json_data
                (Nat.le_refl _) st) as Hret.
  destruct (utils.build_expression (jsize json_data) json_data st)
    as [r|] eqn:E; [|done].
  exists r. intros fuel Hfuel.
  induction Hfuel as [|fuel _ IH]; [done|].
  by apply refines_build_expression.
Qed.

Lemma height_pos e : 1 <= height e.
Proof. destruct e; simpl; lia. Qed.

Lemma join_dollar path : utils.join "$" (utils.JStr <$> path) = Ok (dollar path).
Proof.
  induction path as [|s path IH]; [done|].
  destruct path as [|s' path]; [done|].
  change (utils.JStr <$> s :: s' :: path)
    with (utils.JStr s :: (utils.JStr <$> s' :: path)).
  cbn [utils.join]. change (utils.JStr <$> s' :: path)
    with (utils.JStr s' :: (utils.JStr <$> path)) in *.
  cbn match. change (utils.JStr s' :: (utils.JStr <$> path))
    with (utils.JStr <$> s' :: path) in *.
  by rewrite IH.
Qed.

Lemma extended_sb st v :
  {| utils.sb := utils.sb st ++ [v]; utils.metadata := utils.metadata st;
     utils.printed := utils.printed st |}
  = extended st {| utils.sb := [v]; utils.metadata := []; utils.printed := [] |}.
Proof. unfold extended. simpl. by rewrite !app_nil_r. Qed.

Lemma extended_print st s :
  {| utils.sb := utils.sb st; utils.metadata := utils.metadata st;
     utils.printed := utils.printed st ++ [s] |}
  = extended st {| utils.sb := []; utils.metadata := []; utils.printed := [s] |}.
Proof. unfold extended. simpl. by rewrite !app_nil_r. Qed.

Lemma build_expression_tree (e : expr) (fuel : nat) (st : utils.be_state)
    (Hplain : flattens e = true) (Hfuel : height e <= fuel) :
  utils.build_expression fuel (encode e) st
  = Some (Ok tt,
          extended st
            {| utils.sb := tokens e; utils.metadata := operands e;
               utils.printed := prints e |}).
Proof.
  revert fuel st Hplain Hfuel.
  induction e as [path|name|type value|op rhs IH|op lhs IHl rhs IHr];
    intros [|fuel] st Hplain Hfuel; simpl in Hfuel; try lia.
  - cbn. unfold utils.append_joined, utils.andthen.
    rewrite join_dollar. cbn. unfold extended. simpl.
    by rewrite !app_nil_r.
  - cbn. unfold extended. simpl. by rewrite !app_nil_r.
  - simpl in Hplain. apply bool_decide_eq_true_1 in Hplain.
    repeat (apply elem_of_cons in Hplain as [->|Hplain]);
      [..|by apply elem_of_nil in Hplain];
      cbn; unfold extended; simpl; by rewrite !app_nil_r.
  - simpl in Hplain. apply andb_true_iff in Hplain as [Hop Hr].
    apply negb_true_iff in Hop.
    destruct fuel as [|fuel]; [pose proof (height_pos rhs); lia|].
    assert (Hright := fun st => IH (S fuel) st Hr ltac:(lia)).
    cbn [encode utils.build_expression utils.truthy negb utils.getitem
         utils.dict_get String.eqb Ascii.eqb Bool.eqb utils.eval utils.eq_str].
    rewrite Hop.
    unfold utils.andthen at 1. cbn [utils.sb_append].
    destruct (String.eqb op "+" || String.eqb op "-") eqn:Hpm.
    + cbn [andb]. unfold utils.andthen, utils.print, utils.sb_append.
      rewrite Hright. unfold extended. simpl. rewrite Hpm. simpl.
      by rewrite <- !app_assoc.
    + cbn [andb]. unfold utils.andthen, utils.sb_append.
      cbn [utils.build_expression utils.truthy negb utils.skip].
      rewrite Hright. unfold extended. simpl. rewrite Hpm. simpl.
      by rewrite ?app_nil_r, <- ?app_assoc.
  - simpl in Hplain. apply andb_true_iff in Hplain as [Hplain Hr].
    apply andb_true_iff in Hplain as [Hop Hl].
    apply negb_true_iff in Hop.
    assert (Hleft := fun st => IHl fuel st Hl ltac:(lia)).
    assert (Hright := fun st => IHr fuel st Hr ltac:(lia)).
    cbn [encode utils.build_expression utils.truthy negb utils.getitem
         utils.dict_get String.eqb Ascii.eqb Bool.eqb utils.eval utils.eq_str].
    rewrite Hop.
    unfold utils.andthen at 1. cbn [utils.sb_append].
    assert (Hnone : match encode lhs with utils.JNone => true | _ => false end
                    = false) by by destruct lhs.
    rewrite Hnone, andb_false_r.
    unfold utils.andthen, utils.sb_append.
    rewrite Hleft. cbn [utils.sb utils.metadata utils.printed extended].
    rewrite Hright. unfold extended. simpl.
    by rewrite <- !app_assoc.
Qed.

(** X17 (flattening).  For the JSON of an expression tree whose leaves are
    fields, headers and constants and whose operators are not "?",
    build_expression returns, having appended the fully parenthesised infix
    rendering of the tree to sb and the fields and headers it reads, left
    to right, to metadata; it prints one line for each unary plus or
    minus. *)
Theorem build_expression_flattens (e : expr) (fuel : nat) (st : utils.be_state)
    (Hplain : flattens e = true) (Hfuel : height e <= fuel) :
  utils.build_expression fuel (encode e) st
  = Some (Ok tt,
          extended st
            {| utils.sb := tokens e; utils.metadata := operands e;
               utils.printed := prints e |}).
Proof. by apply build_expression_tree. Qed.

(** Witness: [(ipv4.ttl + (- 0x01))]. *)
Lemma build_expression_flattens_witness :
  let e := binary "+" (field_ref ["ipv4"; "ttl"])
                  (unary "-" (constant "hexstr" (utils.JStr "0x01"))) in
  utils.build_expression 3 (encode e) nothing
  = Some (Ok tt,
          extended nothing
            {| utils.sb := tokens e; utils.metadata := operands e;
               utils.printed := prints e |}).
Proof.
  intros e.
  apply (build_expression_flattens e 3 nothing); [reflexivity | simpl; lia].
Defined.

Example flattened_tokens :
  tokens (binary "+" (field_ref ["ipv4"; "ttl"])
            (unary "-" (constant "hexstr" (utils.JStr "0x01"))))
  = utils.JStr <$> ["("; "ipv4$ttl"; "+"; "("; "-"; "0x01"; ")"; ")"].
Proof. reflexivity. Qed.

(** X18 (no output).  For a value that is false in Python ([None], an empty
    dictionary) build_expression returns at once; for a node whose type is
    none of the seven it has a branch for it returns as well, without
    output and without an exception: the assert of the last branch tests a
    string literal and never fails. *)
Theorem build_expression_no_output (fuel : nat) (d : list (string * utils.json))
    (json_type json_value : utils.json) (st : utils.be_state)
    (Htype : utils.dict_get d "type" = Some json_type)
    (Hvalue : utils.dict_get d "value" = Some json_value)
    (Hunknown : Forall (fun s => utils.eq_str json_type s = false)
                  expression_types) :
  utils.build_expression (S fuel) (utils.JDict d) st = Some (Ok tt, st)
  /\ (forall json_data,
        utils.truthy json_data = false ->
        utils.build_expression (S fuel) json_data st = Some (Ok tt, st)).
Proof.
  split.
  - assert (Hd : utils.truthy (utils.JDict d) = true) by by destruct d.
    cbn [utils.build_expression]. rewrite Hd. cbn [negb utils.getitem].
    rewrite Htype, Hvalue. cbn [utils.eval].
    unfold expression_types in Hunknown.
    repeat match goal with
           | H : Forall _ (_ :: _) |- _ =>
               let E := fresh in
               apply Forall_cons in H as [E H]; rewrite E
           end.
    reflexivity.
  - intros json_data Hfalse. cbn [utils.build_expression]. by rewrite Hfalse.
Qed.

(** Witness: a node of type "string". *)
Lemma build_expression_no_output_witness :
  utils.build_expression 1
    (utils.JDict [("type", utils.JStr "string"); ("value", utils.JStr "x")])
    Examples.no_output
  = Some (Ok tt, Examples.no_output).
Proof.
  refine (proj1 (build_expression_no_output 0 _ (utils.JStr "string")
                   (utils.JStr "x") Examples.no_output _ _ _));
    [reflexivity | reflexivity | repeat constructor].
Defined.

(** ** p4c/utils.py: parse states *)

Lemma state_name_to_state_resolves jsondata l state_name :
  parse_states_of jsondata l ->
  utils.state_name_to_state jsondata state_name
  = utils.state_name_to_state_for l state_name.
Proof.
  intros (parsers & parser & H1 & H2 & H3).
  unfold utils.state_name_to_state. rewrite H1. simpl. rewrite H2. simpl.
  by rewrite H3.
Qed.

Lemma state_name_to_state_for_None l state_name :
  named_states l ->
  (utils.state_name_to_state_for l state_name = Ok utils.JNone
   <-> Forall (fun s => utils.getitem s "name" <> Ok (utils.JStr state_name)) l).
Proof.
  induction 1 as [|s l [n Hn] _ IH]; [done|].
  simpl. rewrite Hn. simpl.
  destruct (String.eqb n state_name) eqn:E.
  - apply String.eqb_eq in E as ->. split.
    + intros [= ->]. done.
    + intros H. by inversion H.
  - apply String.eqb_neq in E. rewrite IH. split.
    + intros H. constructor; [congruence|done].
    + intros H. by inversion H.
Qed.

Lemma state_name_to_state_for_found l state_name s :
  named_states l ->
  utils.state_name_to_state_for l state_name = Ok s -> s <> utils.JNone ->
  first_match
    (fun s => match utils.getitem s "name" with
              | Ok (utils.JStr n) => n
              | _ => ""
              end)
    state_name l s
  /\ utils.getitem s "name" = Ok (utils.JStr state_name).
Proof.
  induction 1 as [|s0 l [n Hn] Hl IH]; [by intros [= <-]|].
  simpl. rewrite Hn. simpl.
  destruct (String.eqb n state_name) eqn:E.
  - apply String.eqb_eq in E as ->. intros [= <-] _. split; [|done].
    exists [], l. by rewrite Hn.
  - apply String.eqb_neq in E. intros Hs Hne.
    destruct (IH Hs Hne) as [(l1 & l2 & -> & Hname & Hl1) Hget].
    split; [|done]. exists (s0 :: l1), l2. split; [done|]. split; [done|].
    constructor; [by rewrite Hn|done].
Qed.

Lemma state_name_to_state_for_returns l state_name :
  named_states l ->
  exists s, utils.state_name_to_state_for l state_name = Ok s.
Proof.
  induction 1 as [|s0 l [n Hn] _ IH]; [by eexists|].
  simpl. rewrite Hn. simpl.
  destruct (String.eqb n state_name); [by eexists|exact IH].
Qed.

(** X19 (unknown state).  When the parse states have names,
    state_name_to_state returns for every name: the first state that bears
    the name when a state bears it, and None exactly when no state bears
    it; state_to_header and state_to_expression then raise a TypeError, as
    they subscript that None. *)
Theorem state_to_header_unknown_state (jsondata : utils.json)
    (l : list utils.json) (state_name : string)
    (Hstates : parse_states_of jsondata l) (Hnamed : named_states l) :
  (utils.state_name_to_state jsondata state_name = Ok utils.JNone
   <-> Forall (fun s => utils.getitem s "name" <> Ok (utils.JStr state_name)) l)
  /\ (exists s, utils.state_name_to_state jsondata state_name = Ok s)
  /\ (Exists (fun s => utils.getitem s "name" = Ok (utils.JStr state_name)) l ->
      exists s,
        utils.state_name_to_state jsondata state_name = Ok s
        /\ s <> utils.JNone
        /\ utils.getitem s "name" = Ok (utils.JStr state_name)
        /\ first_match
             (fun s => match utils.getitem s "name" with
                       | Ok (utils.JStr n) => n
                       | _ => ""
                       end)
             state_name l s)
  /\ (forall s,
        utils.state_name_to_state jsondata state_name = Ok s ->
        s <> utils.JNone ->
        first_match
          (fun s => match utils.getitem s "name" with
                    | Ok (utils.JStr n) => n
                    | _ => ""
                    end)
          state_name l s)
  /\ (utils.state_name_to_state jsondata state_name = Ok utils.JNone ->
      (forall str_of,
         utils.state_to_header str_of jsondata state_name
         = Raise (TypeError "object is not subscriptable"))
      /\ (forall fuel out,
            utils.state_to_expression fuel jsondata state_name out
            = Some (Raise (TypeError "object is not subscriptable"), out))).
Proof.
  rewrite (state_name_to_state_resolves _ _ _ Hstates).
  split; [by apply state_name_to_state_for_None|].
  split; [by apply state_name_to_state_for_returns|]. split; [|split].
  - intros Hex.
    destruct (state_name_to_state_for_returns l state_name Hnamed) as [s Hs].
    assert (Hne : s <> utils.JNone).
    { intros ->. apply state_name_to_state_for_None in Hs; [|done].
      apply Exists_exists in Hex as (x & Hx & Hname).
      rewrite Forall_forall in Hs. by apply (Hs x). }
    destruct (state_name_to_state_for_found _ _ _ Hnamed Hs Hne) as [Hf Hn].
    by exists s.
  - intros s Hs Hne. by destruct (state_name_to_state_for_found _ _ _ Hnamed Hs Hne).
  - intros Hnone. split.
    + intros str_of. unfold utils.state_to_header.
      by rewrite (state_name_to_state_resolves _ _ _ Hstates), Hnone.
    + intros fuel out. unfold utils.state_to_expression, utils.pbind, utils.plift.
      by rewrite (state_name_to_state_resolves _ _ _ Hstates), Hnone.
Qed.

(** Witness: the parser with the states start and next, asked for "end" and
    for "next". *)
Lemma state_to_header_unknown_state_witness :
  utils.state_name_to_state Examples.parser_config "end" = Ok utils.JNone
  /\ (forall str_of,
        utils.state_to_header str_of Examples.parser_config "end"
        = Raise (TypeError "object is not subscriptable"))
  /\ exists s,
       utils.state_name_to_state Examples.parser_config "next" = Ok s
       /\ s <> utils.JNone.
Proof.
  destruct (state_to_header_unknown_state Examples.parser_config
              [Examples.state_start; Examples.state_next] "end")
    as (H1 & _ & _ & _ & H3).
  - by eexists _, _.
  - repeat constructor; by eexists.
  - destruct (state_to_header_unknown_state Examples.parser_config
                [Examples.state_start; Examples.state_next] "next")
      as (_ & _ & H2 & _).
    + by eexists _, _.
    + repeat constructor; by eexists.
    + assert (H : utils.state_name_to_state Examples.parser_config "end"
                  = Ok utils.JNone) by reflexivity.
      split; [exact H|]. split; [by destruct (H3 H)|].
      destruct H2 as (s & Hs & Hne & _).
      * apply Exists_cons_tl, Exists_cons_hd. reflexivity.
      * by exists s.
Defined.

Lemma state_to_header_for_ops str_of (ops : list parser_op) :
  Forall not_extract ops ->
  forall headers,
    utils.state_to_header_for str_of (encode_op <$> ops) headers
    = Ok (headers ++ omap extracted ops).
Proof.
  induction 1 as [|o ops Ho _ IH]; intros headers.
  { simpl. by rewrite app_nil_r. }
  rewrite fmap_cons.
  change (omap extracted (o :: ops))
    with (match extracted o with
          | Some y => y :: omap extracted ops
          | None => omap extracted ops
          end).
  destruct o as [type value|op parameters].
  - cbn [encode_op utils.state_to_header_for utils.getitem
         utils.dict_get String.eqb Ascii.eqb Bool.eqb utils.rbind utils.eq_str
         utils.getindex nth_error extracted].
    destruct (String.eqb type "regular").
    + rewrite IH. by rewrite <- app_assoc.
    + destruct (String.eqb type "stack").
      * rewrite IH. by rewrite <- app_assoc.
      * apply IH.
  - simpl in Ho. apply String.eqb_neq in Ho.
    cbn [encode_op utils.state_to_header_for utils.getitem
         utils.dict_get String.eqb Ascii.eqb Bool.eqb utils.rbind utils.eq_str
         extracted].
    rewrite Ho. apply IH.
Qed.

(** X20 (state_to_header).  For a state whose ops are extracts of named
    headers and ops of other kinds, state_to_header returns, in the order
    of the ops, the name of every regular extract and the name followed by
    "[0]" of every stack extract; extracts of another type and all other
    ops contribute nothing.  An extract without parameters raises
    IndexError. *)
Theorem state_to_header_lists_extracts (str_of : utils.json -> string)
    (jsondata state : utils.json) (state_name : string) (ops : list parser_op)
    (Hstate : utils.state_name_to_state jsondata state_name = Ok state)
    (Hops : utils.getitem state "parser_ops"
            = Ok (utils.JList (encode_op <$> ops)))
    (Hother : Forall not_extract ops) :
  utils.state_to_header str_of jsondata state_name = Ok (omap extracted ops)
  /\ length (omap extracted ops) <= length ops
  /\ (forall rest headers,
        utils.state_to_header_for str_of
          (utils.JDict [("op", utils.JStr "extract");
                        ("parameters", utils.JList [])] :: rest) headers
        = Raise IndexError).
Proof.
  split; [|split; [|done]].
  - unfold utils.state_to_header. rewrite Hstate. simpl. rewrite Hops. simpl.
    by rewrite state_to_header_for_ops.
  - clear. induction ops as [|o ops IH]; [done|].
    change (omap extracted (o :: ops))
      with (match extracted o with
            | Some y => y :: omap extracted ops
            | None => omap extracted ops
            end).
    destruct (extracted o); simpl; lia.
Qed.

(** Witness: the state start. *)
Lemma state_to_header_lists_extracts_witness :
  utils.state_to_header (fun _ => "") Examples.parser_config "start"
  = Ok [utils.JStr "ethernet"; utils.JStr "vlan[0]"].
Proof.
  refine (proj1 (state_to_header_lists_extracts (fun _ => "")
                   Examples.parser_config Examples.state_start "start"
                   [extract "regular" "ethernet"; extract "stack" "vlan";
                    other "set" (utils.JList [Examples.field "meta" "ttl";
                                              Examples.field "ipv4" "ttl"])]
                   _ _ _));
    [reflexivity | reflexivity | repeat constructor; discriminate].
Defined.

Lemma state_to_expression_for_skips fuel pre ops out :
  Forall not_set pre ->
  utils.state_to_expression_for fuel (pre ++ ops) out
  = utils.state_to_expression_for fuel ops out.
Proof.
  induction 1 as [|op pre (o & Ho & Hset) _ IH]; [done|].
  cbn [app utils.state_to_expression_for].
  unfold utils.pbind at 1, utils.plift at 1. rewrite Ho, Hset. apply IH.
Qed.

Lemma state_to_expression_resolves fuel jsondata state state_name ops out :
  utils.state_name_to_state jsondata state_name = Ok state ->
  utils.getitem state "parser_ops" = Ok (utils.JList ops) ->
  utils.state_to_expression fuel jsondata state_name out
  = utils.state_to_expression_for fuel ops out.
Proof.
  intros Hstate Hops. unfold utils.state_to_expression.
  unfold utils.pbind at 1, utils.plift at 1. rewrite Hstate.
  unfold utils.pbind at 1, utils.plift at 1. rewrite Hops.
  unfold utils.pbind at 1, utils.plift at 1. done.
Qed.

Lemma call_build_expression_tree fuel e out :
  flattens e = true -> height e <= fuel ->
  utils.call_build_expression fuel (encode e) [] [] out
  = Some (Ok (tokens e, operands e), out ++ prints e).
Proof.
  intros Hplain Hfuel. unfold utils.call_build_expression.
  by rewrite (build_expression_tree e fuel _ Hplain Hfuel).
Qed.

(** The step of the loop at a set op whose destination flattens. *)
Lemma state_to_expression_for_set fuel dst src rest out :
  flattens dst = true -> height dst <= fuel ->
  utils.state_to_expression_for fuel (set_op (encode dst) src :: rest) out
  = utils.pbind (utils.plift (utils.getitem src "type")) (fun ty =>
      if utils.eq_str ty "expression" then
        utils.pbind (utils.plift (utils.getitem src "value")) (fun v =>
        if utils.truthy v then
          utils.pbind (utils.plift (utils.getitem src "value")) (fun v' =>
          utils.pbind (utils.call_build_expression fuel v' [] []) (fun s =>
          utils.pret (utils.an_expression (tokens dst) s.1)))
        else utils.state_to_expression_for fuel rest)
      else
        utils.pbind (utils.call_build_expression fuel src [] []) (fun s =>
        match s.2 with
        | src0 :: _ => utils.pret (utils.a_field (tokens dst) src0)
        | [] => utils.plift (Raise IndexError)
        end))
      (out ++ prints dst).
Proof.
  intros Hplain Hfuel. unfold set_op.
  cbn [utils.state_to_expression_for].
  unfold utils.pbind at 1, utils.plift at 1.
  change (utils.getitem _ "op") with (Ok (utils.JStr "set")). cbn beta iota.
  change (utils.eq_str (utils.JStr "set") "set") with true. cbn beta iota.
  unfold utils.pbind at 1, utils.plift at 1.
  change (utils.rbind _ _) with (Ok (encode dst)) at 1. cbn beta iota.
  unfold utils.pbind at 1.
  rewrite (call_build_expression_tree fuel dst out Hplain Hfuel).
  unfold utils.pbind at 1, utils.plift at 1.
  change (utils.rbind _ _) with (Ok src) at 1.
  reflexivity.
Qed.

(** X21 (state_to_expression, results).  The first set op of the state
    decides, ops before it that are not set ops being skipped.  With a
    destination that flattens: a field or header as source gives
    ('field', tokens of the destination, the value of the source as the
    JSON has it); an expression in the double wrapping of the BMv2 JSON
    gives ('expression', tokens of the destination, tokens of the source);
    a wrapped source whose value is None is passed over and the ops after
    it decide; a state without set op gives (None, None, None). *)
Theorem state_to_expression_first_set (fuel : nat)
    (jsondata state : utils.json) (state_name : string)
    (pre rest : list utils.json) (dst : expr) (src : utils.json)
    (out : list string)
    (Hstate : utils.state_name_to_state jsondata state_name = Ok state)
    (Hops : utils.getitem state "parser_ops"
            = Ok (utils.JList (pre ++ set_op (encode dst) src :: rest)))
    (Hpre : Forall not_set pre)
    (Hdst : flattens dst = true) (Hfuel : height dst <= fuel) :
  (forall path,
     src = encode (field_ref path) ->
     utils.state_to_expression fuel jsondata state_name out
     = Some (Ok (utils.a_field (tokens dst) (utils.JList (utils.JStr <$> path))),
             out ++ prints dst))
  /\ (forall name,
        src = encode (header_ref name) ->
        utils.state_to_expression fuel jsondata state_name out
        = Some (Ok (utils.a_field (tokens dst) (utils.JStr name)),
                out ++ prints dst))
  /\ (forall e,
        src = wrapped (encode e) -> flattens e = true -> height e <= fuel ->
        utils.state_to_expression fuel jsondata state_name out
        = Some (Ok (utils.an_expression (tokens dst) (tokens e)),
                out ++ prints dst ++ prints e))
  /\ (src = wrapped utils.JNone ->
      utils.state_to_expression fuel jsondata state_name out
      = utils.state_to_expression_for fuel rest (out ++ prints dst))
  /\ (Forall not_set rest ->
      utils.state_to_expression_for fuel rest (out ++ prints dst)
      = Some (Ok utils.no_expression, out ++ prints dst)).
Proof.
  rewrite (state_to_expression_resolves _ _ _ _ _ _ Hstate Hops).
  rewrite (state_to_expression_for_skips _ _ _ _ Hpre).
  rewrite (state_to_expression_for_set _ _ _ _ _ Hdst Hfuel).
  assert (Hpos := height_pos dst).
  split; [|split; [|split; [|split]]].
  - intros path ->. unfold utils.pbind at 1, utils.plift at 1.
    change (utils.getitem (encode (field_ref path)) "type")
      with (Ok (utils.JStr "field")). cbn beta iota.
    change (utils.eq_str (utils.JStr "field") "expression") with false.
    cbn beta iota. unfold utils.pbind at 1.
    rewrite (call_build_expression_tree fuel (field_ref path)) by (done || simpl; lia).
    simpl. by rewrite app_nil_r.
  - intros name ->. unfold utils.pbind at 1, utils.plift at 1.
    change (utils.getitem (encode (header_ref name)) "type")
      with (Ok (utils.JStr "header")). cbn beta iota.
    change (utils.eq_str (utils.JStr "header") "expression") with false.
    cbn beta iota. unfold utils.pbind at 1.
    rewrite (call_build_expression_tree fuel (header_ref name)) by (done || simpl; lia).
    simpl. by rewrite app_nil_r.
  - intros e -> He Hfe. unfold utils.pbind at 1, utils.plift at 1.
    change (utils.getitem (wrapped (encode e)) "type")
      with (Ok (utils.JStr "expression")). cbn beta iota.
    change (utils.eq_str (utils.JStr "expression") "expression") with true.
    cbn beta iota. unfold utils.pbind at 1, utils.plift at 1.
    change (utils.getitem (wrapped (encode e)) "value") with (Ok (encode e)).
    cbn beta iota.
    assert (Ht : utils.truthy (encode e) = true) by by destruct e.
    rewrite Ht. unfold utils.pbind at 1, utils.plift at 1.
    unfold utils.pbind at 1.
    rewrite (call_build_expression_tree fuel e _ He Hfe).
    simpl. by rewrite app_assoc.
  - intros ->. reflexivity.
  - intros Hrest.
    rewrite <- (app_nil_r rest) at 1.
    by rewrite (state_to_expression_for_skips _ _ _ _ Hrest).
Qed.

(** Witness: the state start, whose set op copies ipv4.ttl to meta.ttl. *)
Lemma state_to_expression_first_set_witness :
  utils.state_to_expression 1 Examples.parser_config "start" []
  = Some (Ok (utils.a_field [utils.JStr "meta$ttl"]
                (utils.JList [utils.JStr "ipv4"; utils.JStr "ttl"])),
          []).
Proof.
  refine (proj1 (state_to_expression_first_set 1 Examples.parser_config
                   Examples.state_start "start"
                   [Examples.extract_op "regular" "ethernet";
                    Examples.extract_op "stack" "vlan"] []
                   (field_ref ["meta"; "ttl"]) (encode (field_ref ["ipv4"; "ttl"])) []
                   _ _ _ _ _) ["ipv4"; "ttl"] eq_refl);
    [reflexivity | reflexivity | | reflexivity | simpl; lia].
  repeat constructor; by eexists.
Defined.

(** X22 (state_to_expression, errors).  With a destination that flattens, a
    set op whose source is a constant (bool, hexstr, local, register) makes
    state_to_expression raise IndexError, as it takes the first element of
    an empty list; a source that is an expression without the second
    wrapping makes it raise the KeyError for "type". *)
Theorem state_to_expression_raises (fuel : nat)
    (jsondata state : utils.json) (state_name : string)
    (pre rest : list utils.json) (dst : expr) (src : utils.json)
    (out : list string)
    (Hstate : utils.state_name_to_state jsondata state_name = Ok state)
    (Hops : utils.getitem state "parser_ops"
            = Ok (utils.JList (pre ++ set_op (encode dst) src :: rest)))
    (Hpre : Forall not_set pre)
    (Hdst : flattens dst = true) (Hfuel : height dst <= fuel) :
  (forall type value,
     src = encode (constant type value) -> flattens (constant type value) = true ->
     utils.state_to_expression fuel jsondata state_name out
     = Some (Raise IndexError, out ++ prints dst))
  /\ (forall op lhs rhs,
        src = encode (binary op lhs rhs) ->
        utils.state_to_expression fuel jsondata state_name out
        = Some (Raise (KeyError "type"), out ++ prints dst))
  /\ (forall op rhs,
        src = encode (unary op rhs) ->
        utils.state_to_expression fuel jsondata state_name out
        = Some (Raise (KeyError "type"), out ++ prints dst)).
Proof.
  rewrite (state_to_expression_resolves _ _ _ _ _ _ Hstate Hops).
  rewrite (state_to_expression_for_skips _ _ _ _ Hpre).
  rewrite (state_to_expression_for_set _ _ _ _ _ Hdst Hfuel).
  assert (Hpos := height_pos dst).
  destruct fuel as [|fuel]; [lia|].
  split; [|split].
  - intros type value -> Hleaf. unfold utils.pbind at 1, utils.plift at 1.
    change (utils.getitem (encode (constant type value)) "type")
      with (Ok (utils.JStr type)). cbn beta iota.
    assert (Hne : utils.eq_str (utils.JStr type) "expression" = false).
    { simpl in Hleaf. apply bool_decide_eq_true_1 in Hleaf.
      repeat (apply elem_of_cons in Hleaf as [->|Hleaf]); try done.
      by apply elem_of_nil in Hleaf. }
    rewrite Hne. unfold utils.pbind at 1.
    rewrite (call_build_expression_tree (S fuel) (constant type value))
      by (done || simpl; lia).
    simpl. by rewrite app_nil_r.
  - intros op lhs rhs ->. reflexivity.
  - intros op rhs ->. reflexivity.
Qed.

(** Witness: the state next, whose set op assigns a constant. *)
Lemma state_to_expression_raises_witness :
  utils.state_to_expression 1 Examples.parser_config "next" []
  = Some (Raise IndexError, []).
Proof.
  refine (proj1 (state_to_expression_raises 1 Examples.parser_config
                   Examples.state_next "next" [] []
                   (field_ref ["meta"; "flag"])
                   (encode (constant "hexstr" (utils.JStr "0x01"))) []
                   _ _ _ _ _) "hexstr" (utils.JStr "0x01") eq_refl eq_refl);
    [reflexivity | reflexivity | constructor | reflexivity | simpl; lia].
Defined.
